(** * Legacy adapter framework: the engine of [LegacySystemAdapter]

    A shallow embedding of the adapter engine (retry executor, schema
    mapper, CSV codec, schema inference, facade and metrics) together with
    the properties its specification states about it.

    Conventions of the embedding.
    - A JavaScript value is a term of [Value]: the values of JSON, dates
      and [undefined].  An object is the association list of its own
      properties in property order, with [Object.prototype] as its
      prototype.  Membership tests and tests for [null] or [undefined]
      know the members every object inherits from it; the members
      themselves (built-in functions, the prototype) are no values of the
      model, so a property read answers own properties only, and a
      statement about the value read under a name that an object may lack
      is made for the names no object inherits ([own_only]).  An
      assignment that changes a prototype and the special ordering of
      integer-like keys are outside the model as well.
    - Strings are sequences of code units below 256.
    - Numbers that the engine only counts or compares are integers ([Z]);
      delays and averages are exact rationals ([Q]), so the rounding of
      IEEE doubles is abstracted.
    - Code that can throw returns a [Result]; code that mutates the
      adapter, calls the network, sleeps, logs or reads the clock runs in
      the state monad [M] over a [World].  An asynchronous method is
      modelled as running to completion: calls are taken one at a time.
    - Built-ins whose behaviour belongs to the host (number and date
      conversions) are the fields of the class [Platform]; the collaborators
      of the engine (HTTP transport, XML codec, system clock) are the
      fields of an [Env]. *)

From Stdlib Require Import ZArith QArith Qminmax Lia Lqa Sorted.
From Stdlib Require Import Ascii.
From Stdlib Require DecimalString.
From stdpp Require Import base option gmap strings list.

Set Warnings "-register-all".
Local Open Scope Z_scope.

(** ** Thrown values and results *)

Record Error := mkError { err_name : string; err_message : string }.

(** What a [throw] carries: an [Error] object, or [null] (the initial
    value of [lastError] in [executeWithRetry]). *)
Inductive Thrown :=
| ThrownNull
| ThrownError (e : Error).

Inductive Result (A : Type) :=
| Ok (a : A)
| Throw (t : Thrown).
Arguments Ok {A} a.
Arguments Throw {A} t.

#[global] Instance Result_ret : MRet Result := fun _ a => Ok a.
#[global] Instance Result_bind : MBind Result := fun _ _ f r =>
  match r with
  | Ok a => f a
  | Throw t => Throw t
  end.
#[global] Instance Result_fmap : FMap Result := fun _ _ f r =>
  match r with
  | Ok a => Ok (f a)
  | Throw t => Throw t
  end.

Definition TypeError (msg : string) : Thrown := ThrownError (mkError "TypeError" msg).
Definition RangeError (msg : string) : Thrown := ThrownError (mkError "RangeError" msg).

(** [Array.prototype.map] with a callback that may throw: the first throw
    aborts the traversal. *)
Fixpoint mapR {A B : Type} (f : A -> Result B) (l : list A) : Result (list B) :=
  match l with
  | [] => Ok []
  | x :: rest =>
      y ← f x;
      ys ← mapR f rest;
      Ok (y :: ys)
  end.

(** [Array.prototype.some] with a callback that may throw: it stops at the
    first element for which the callback answers [true]. *)
Fixpoint someR {A : Type} (f : A -> Result bool) (l : list A) : Result bool :=
  match l with
  | [] => Ok false
  | x :: rest =>
      b ← f x;
      if b : bool then Ok true else someR f rest
  end.

(** ** Strings *)

Module Str.

Definition quote : ascii := "034"%char.
Definition backslash : ascii := "092"%char.
Definition newline : ascii := "010"%char.
Definition comma : ascii := ","%char.

Definition of_char (c : ascii) : string := String c EmptyString.

Definition is_empty (s : string) : bool :=
  match s with
  | EmptyString => true
  | String _ _ => false
  end.

Definition of_nat (n : nat) : string :=
  DecimalString.NilZero.string_of_uint (Nat.to_uint n).

Definition of_Z (z : Z) : string :=
  DecimalString.NilZero.string_of_int (Z.to_int z).

(** [s.split(sep)] for a one-character separator: always at least one
    piece; the empty string splits into one empty piece. *)
Fixpoint split (sep : ascii) (s : string) : list string :=
  match s with
  | EmptyString => [EmptyString]
  | String c rest =>
      if Ascii.eqb c sep then EmptyString :: split sep rest
      else match split sep rest with
           | [] => [of_char c]
           | piece :: pieces => String c piece :: pieces
           end
  end.

(** [pieces.join(sep)] *)
Fixpoint join (sep : string) (pieces : list string) : string :=
  match pieces with
  | [] => EmptyString
  | [piece] => piece
  | piece :: rest => piece +:+ sep +:+ join sep rest
  end.

(** White space and line terminators below code unit 256. *)
Definition is_space (c : ascii) : bool :=
  match c with
  | "009" | "010" | "011" | "012" | "013" | " " | "160" => true
  | _ => false
  end%char.

Fixpoint trim_start (s : string) : string :=
  match s with
  | EmptyString => EmptyString
  | String c rest => if is_space c then trim_start rest else s
  end.

(** Drops trailing white space: a character is kept when it is not a
    space or when something survives after it. *)
Fixpoint trim_end (s : string) : string :=
  match s with
  | EmptyString => EmptyString
  | String c rest =>
      match trim_end rest with
      | EmptyString => if is_space c then EmptyString else of_char c
      | kept => String c kept
      end
  end.

(** [s.trim()] *)
Definition trim (s : string) : string := trim_end (trim_start s).

Definition is_digit (c : ascii) : bool :=
  let n := nat_of_ascii c in (48 <=? n)%nat && (n <=? 57)%nat.

(** The upper case of one code unit: the letters a-z and the accented
    letters 224-254 (but the division sign 247) move down by 32, the sharp
    s (223) becomes two letters.  The micro sign (181) and the y with
    diaeresis (255) have their upper case above 255, see
    [upper_representable]. *)
Definition upper_text (c : ascii) : string :=
  let n := nat_of_ascii c in
  if (97 <=? n)%nat && (n <=? 122)%nat then of_char (ascii_of_nat (n - 32))
  else if (n =? 223)%nat then "SS"
  else if (224 <=? n)%nat && (n <=? 254)%nat && negb (n =? 247)%nat
  then of_char (ascii_of_nat (n - 32))
  else of_char c.

(** The lower case of one code unit: the letters A-Z and the accented
    capitals 192-222 (but the multiplication sign 215) move up by 32. *)
Definition lower_char (c : ascii) : ascii :=
  let n := nat_of_ascii c in
  if (65 <=? n)%nat && (n <=? 90)%nat then ascii_of_nat (n + 32)
  else if (192 <=? n)%nat && (n <=? 222)%nat && negb (n =? 215)%nat then ascii_of_nat (n + 32)
  else c.

Fixpoint map_chars (f : ascii -> ascii) (s : string) : string :=
  match s with
  | EmptyString => EmptyString
  | String c rest => String (f c) (map_chars f rest)
  end.

(** [s.toUpperCase()] *)
Fixpoint toUpperCase (s : string) : string :=
  match s with
  | EmptyString => EmptyString
  | String c rest => upper_text c +:+ toUpperCase rest
  end.

(** [s.toLowerCase()] *)
Definition toLowerCase : string -> string := map_chars lower_char.

(** The upper case of the text stays below code unit 256: the text holds
    neither the micro sign nor the y with diaeresis. *)
Fixpoint upper_representable (s : string) : bool :=
  match s with
  | EmptyString => true
  | String c rest =>
      negb (nat_of_ascii c =? 181)%nat && negb (nat_of_ascii c =? 255)%nat
      && upper_representable rest
  end.

(** [k] leading characters of [s] all satisfy [p]; fails when [s] is
    shorter.  Returns the rest of the string. *)
Fixpoint take_while_n (p : ascii -> bool) (k : nat) (s : string) : option string :=
  match k with
  | O => Some s
  | S k' =>
      match s with
      | String c rest => if p c then take_while_n p k' rest else None
      | EmptyString => None
      end
  end.

Definition expect (c : ascii) (s : string) : option string :=
  match s with
  | String c' rest => if Ascii.eqb c c' then Some rest else None
  | EmptyString => None
  end.

End Str.

(** ** JavaScript values *)

(** A number: not-a-number, an infinity, or a finite value. *)
Inductive number :=
| NaN
| Inf (negative : bool)
| Num (q : Q).

Inductive Value :=
| VUndefined
| VNull
| VBool (b : bool)
| VNum (n : number)
| VStr (s : string)
| VDate (t : option Z)          (* a [Date] object; [None] is the invalid time value *)
| VArr (items : list Value)
| VObj (props : list (string * Value)).

Definition Props := list (string * Value).

(** [typeof v] *)
Definition typeof (v : Value) : string :=
  match v with
  | VUndefined => "undefined"
  | VBool _ => "boolean"
  | VNum _ => "number"
  | VStr _ => "string"
  | VNull | VDate _ | VArr _ | VObj _ => "object"
  end.

Definition isArray (v : Value) : bool :=
  match v with
  | VArr _ => true
  | _ => false
  end.

Definition is_nullish (v : Value) : bool :=
  match v with
  | VUndefined | VNull => true
  | _ => false
  end.

Module Obj.

(** Own property lookup. *)
Fixpoint lookup (k : string) (o : Props) : option Value :=
  match o with
  | [] => None
  | (k', v) :: rest => if String.eqb k k' then Some v else lookup k rest
  end.

Definition has (k : string) (o : Props) : bool :=
  match lookup k o with
  | Some _ => true
  | None => false
  end.

(** [o[k]] on a plain object: a missing property reads as [undefined]. *)
Definition get (k : string) (o : Props) : Value :=
  match lookup k o with
  | Some v => v
  | None => VUndefined
  end.

(** [o[k] = v] on a plain object: an existing property keeps its
    position and takes the value; a new property is appended.  Assigning
    to [__proto__] when the object does not own that name creates no
    property: the accessor inherited from [Object.prototype] takes the
    value (an object or [null] becomes the prototype, anything else is
    ignored). *)
Fixpoint set (k : string) (v : Value) (o : Props) : Props :=
  match o with
  | [] => if String.eqb k "__proto__" then [] else [(k, v)]
  | (k', v') :: rest =>
      if String.eqb k k' then (k', v) :: rest else (k', v') :: set k v rest
  end.

Definition keys (o : Props) : list string := map fst o.

(** The indexed properties of an array or string, as entries. *)
Definition indexed {A : Type} (f : A -> Value) (l : list A) : Props :=
  imap (fun i x => (Str.of_nat i, f x)) l.

End Obj.

Fixpoint chars (s : string) : list ascii :=
  match s with
  | EmptyString => []
  | String c rest => c :: chars rest
  end.

(** The own enumerable string-keyed properties of a value, in order:
    what [Object.entries], [Object.keys] and object spread enumerate.
    [None] for [null] and [undefined], which have no properties at all. *)
Definition own_props (v : Value) : option Props :=
  match v with
  | VUndefined | VNull => None
  | VObj o => Some o
  | VArr items => Some (Obj.indexed id items)
  | VStr s => Some (Obj.indexed (fun c => VStr (Str.of_char c)) (chars s))
  | VBool _ | VNum _ | VDate _ => Some []
  end.

(** [Object.entries(v)] *)
Definition Object_entries (v : Value) : Result Props :=
  match own_props v with
  | Some o => Ok o
  | None => Throw (TypeError "Cannot convert undefined or null to object")
  end.

(** [Object.keys(v)] *)
Definition Object_keys (v : Value) : Result (list string) :=
  Obj.keys <$> Object_entries v.

Definition length_value {A : Type} (l : list A) : Value :=
  VNum (Num (inject_Z (Z.of_nat (length l)))).

(** [v[k]], own properties only ([undefined] stands for a member the
    value inherits): reading a property of [null] or [undefined] throws;
    arrays and strings also answer [length]. *)
Definition get_prop (v : Value) (k : string) : Result Value :=
  match v with
  | VUndefined =>
      Throw (TypeError ("Cannot read properties of undefined (reading '" +:+ k +:+ "')"))
  | VNull =>
      Throw (TypeError ("Cannot read properties of null (reading '" +:+ k +:+ "')"))
  | VArr items =>
      if String.eqb k "length" then Ok (length_value items)
      else Ok (Obj.get k (Obj.indexed id items))
  | VStr s =>
      if String.eqb k "length" then Ok (length_value (chars s))
      else Ok (Obj.get k (Obj.indexed (fun c => VStr (Str.of_char c)) (chars s)))
  | VObj o => Ok (Obj.get k o)
  | VBool _ | VNum _ | VDate _ => Ok VUndefined
  end.

(** The names every object inherits from [Object.prototype].  The member
    read under one of them is a built-in function or, for [__proto__], a
    prototype object: no value of the model, so [get_prop] cannot answer
    it. *)
Definition inherited_names : list string :=
  ["constructor"; "__defineGetter__"; "__defineSetter__"; "hasOwnProperty";
   "__lookupGetter__"; "__lookupSetter__"; "isPrototypeOf"; "propertyIsEnumerable";
   "toString"; "valueOf"; "__proto__"; "toLocaleString"].

(** The value has an own property of that name. *)
Definition owns (k : string) (v : Value) : bool :=
  match v with
  | VObj o => Obj.has k o
  | VArr items => String.eqb k "length" || Obj.has k (Obj.indexed id items)
  | VStr s =>
      String.eqb k "length"
      || Obj.has k (Obj.indexed (fun c => VStr (Str.of_char c)) (chars s))
  | _ => false
  end.

(** Reading [v[k]] answers a member of [Object.prototype].  The members
    of the other built-in prototypes (of arrays, strings, dates, numbers)
    depend on the host and are not modelled. *)
Definition inherits (k : string) (v : Value) : bool :=
  negb (owns k v) && existsb (String.eqb k) inherited_names.

(** [Boolean(v)] *)
Definition ToBoolean (v : Value) : bool :=
  match v with
  | VUndefined | VNull => false
  | VBool b => b
  | VNum NaN => false
  | VNum (Inf _) => true
  | VNum (Num q) => negb (Qeq_bool q 0)
  | VStr s => negb (Str.is_empty s)
  | VDate _ | VArr _ | VObj _ => true
  end.

(** ** The host platform *)

(** Built-ins whose results are fixed by the host rather than by the
    engine. *)
Class Platform := {
  NumberToString : Q -> string;            (* text of a finite number *)
  StringToNumber : string -> number;       (* numeric value of a text, [NaN] when it has none *)
  Date_parse : string -> option Z;         (* time value of a text, [None] when unparsable *)
  Date_toISOString : Z -> string;          (* canonical timestamp of a valid time value *)
  Date_toString : Z -> string              (* display text of a valid time value *)
}.

Section Conversions.
Context {host : Platform}.

Definition number_to_string (n : number) : string :=
  match n with
  | NaN => "NaN"
  | Inf false => "Infinity"
  | Inf true => "-Infinity"
  | Num q => NumberToString q
  end.

(** The text of a primitive value. *)
Definition primitive_text (v : Value) : string :=
  match v with
  | VUndefined => "undefined"
  | VNull => "null"
  | VBool true => "true"
  | VBool false => "false"
  | VNum n => number_to_string n
  | VStr s => s
  | _ => EmptyString
  end.

(** [k in v]: the right operand must be an object; the test finds the
    properties the object owns and the members it inherits from
    [Object.prototype]. *)
Definition has_prop (k : string) (v : Value) : Result bool :=
  match v with
  | VObj _ | VArr _ | VDate _ => Ok (owns k v || inherits k v)
  | VUndefined | VNull | VBool _ | VNum _ | VStr _ =>
      Throw (TypeError ("Cannot use 'in' operator to search for '" +:+ k +:+ "' in "
                        +:+ primitive_text v))
  end.

Definition not_primitive : Thrown := TypeError "Cannot convert object to primitive value".

(** [String(v)].  An array joins the texts of its elements, [null] and
    [undefined] as the empty text.  A plain object answers through the
    [toString] it inherits, unless it owns a [toString] property: no value
    of the model is callable, so neither that property nor [valueOf]
    gives a primitive and the conversion throws. *)
Fixpoint ToString (v : Value) : Result string :=
  match v with
  | VUndefined | VNull | VBool _ | VNum _ | VStr _ => Ok (primitive_text v)
  | VDate (Some t) => Ok (Date_toString t)
  | VDate None => Ok "Invalid Date"
  | VArr items =>
      Str.join "," <$> mapR (fun x => if is_nullish x then Ok EmptyString else ToString x) items
  | VObj o => if Obj.has "toString" o then Throw not_primitive else Ok "[object Object]"
  end.

(** [Number(v)]: an array or a plain object is converted through its
    text. *)
Definition ToNumber (v : Value) : Result number :=
  match v with
  | VUndefined => Ok NaN
  | VNull => Ok (Num 0)
  | VBool true => Ok (Num 1)
  | VBool false => Ok (Num 0)
  | VNum n => Ok n
  | VStr s => Ok (StringToNumber s)
  | VDate (Some t) => Ok (Num (inject_Z t))
  | VDate None => Ok NaN
  | VArr _ | VObj _ => StringToNumber <$> ToString v
  end.

(** [d.toISOString()]: throws on the invalid time value. *)
Definition toISOString (t : option Z) : Result string :=
  match t with
  | Some ms => Ok (Date_toISOString ms)
  | None => Throw (RangeError "Invalid time value")
  end.

Definition hex_digit (n : nat) : ascii :=
  ascii_of_nat (if (n <? 10)%nat then 48 + n else 87 + n).

Definition JSON_escape_char (c : ascii) : string :=
  let n := nat_of_ascii c in
  if Ascii.eqb c Str.quote then String Str.backslash (Str.of_char Str.quote)
  else if Ascii.eqb c Str.backslash then String Str.backslash (Str.of_char Str.backslash)
  else if (n =? 8)%nat then String Str.backslash "b"
  else if (n =? 9)%nat then String Str.backslash "t"
  else if (n =? 10)%nat then String Str.backslash "n"
  else if (n =? 12)%nat then String Str.backslash "f"
  else if (n =? 13)%nat then String Str.backslash "r"
  else if (n <? 32)%nat then
    String Str.backslash ("u00" +:+ String (hex_digit (n / 16)) (Str.of_char (hex_digit (n mod 16))))
  else Str.of_char c.

Fixpoint JSON_escape (s : string) : string :=
  match s with
  | EmptyString => EmptyString
  | String c rest => JSON_escape_char c +:+ JSON_escape rest
  end.

(** The JSON text of a string: escaped and wrapped in double quotes. *)
Definition JSON_quote (s : string) : string :=
  String Str.quote (JSON_escape s +:+ Str.of_char Str.quote).

(** [JSON.stringify(v)]; [None] is the [undefined] it answers for
    [undefined].  Inside an array [undefined] prints as [null]; inside an
    object a property holding [undefined] is skipped. *)
Fixpoint JSON_stringify (v : Value) : option string :=
  match v with
  | VUndefined => None
  | VNull => Some "null"
  | VBool true => Some "true"
  | VBool false => Some "false"
  | VNum (Num q) => Some (NumberToString q)
  | VNum _ => Some "null"
  | VStr s => Some (JSON_quote s)
  | VDate (Some t) => Some (JSON_quote (Date_toISOString t))
  | VDate None => Some "null"
  | VArr items =>
      Some ("[" +:+ Str.join "," (map (fun x => default "null" (JSON_stringify x)) items) +:+ "]")
  | VObj props =>
      Some ("{" +:+ Str.join ","
              (omap (fun kv => (fun s => JSON_quote (fst kv) +:+ ":" +:+ s) <$> JSON_stringify (snd kv)) props)
            +:+ "}")
  end.

End Conversions.

(** ** Configuration types *)

Inductive SourceFormat := SrcJson | SrcXml | SrcCsv | SrcSoap | SrcGrpc | SrcRest | SrcGraphql.
Inductive TargetFormat := TgtJson | TgtXml | TgtCsv | TgtProtobuf.

Definition TargetFormat_text (f : TargetFormat) : string :=
  match f with
  | TgtJson => "json"
  | TgtXml => "xml"
  | TgtCsv => "csv"
  | TgtProtobuf => "protobuf"
  end.

Definition SourceFormat_text (f : SourceFormat) : string :=
  match f with
  | SrcJson => "json"
  | SrcXml => "xml"
  | SrcCsv => "csv"
  | SrcSoap => "soap"
  | SrcGrpc => "grpc"
  | SrcRest => "rest"
  | SrcGraphql => "graphql"
  end.

Inductive TransformType := TDate | TNumber | TBoolean | TUppercase | TLowercase | TCustom.

Record FieldTransform := mkFieldTransform {
  sourceField : string;
  targetField : string;
  transformType : TransformType;
  transformFn : option string
}.

Record CustomMapping := mkCustomMapping {
  sourcePath : string;
  targetPath : string;
  condition : option string;
  defaultValue : Value
}.

(** [sourceFields] is the mapping object as [Object.entries] enumerates it.
    The engine tests [sourceFields] and [transforms] for presence before it
    uses them, so both are optional here. *)
Record SchemaMapping := mkSchemaMapping {
  sourceFields : option (list (string * string));
  transforms : option (list FieldTransform);
  customMappings : option (list CustomMapping)
}.

Record RetryPolicy := mkRetryPolicy {
  maxRetries : Z;
  initialDelayMs : Q;
  maxDelayMs : Q;
  backoffMultiplier : Q
}.

Record AdapterConfig := mkAdapterConfig {
  name : string;
  sourceFormat : SourceFormat;
  targetFormat : TargetFormat;
  schemaMapping : option SchemaMapping;
  endpoint : option string;
  timeout : option Z;
  retryPolicy : option RetryPolicy
}.

Record MappingResult := mkMappingResult {
  mr_data : Value;
  mr_mapped : Z;
  mr_transformed : Z
}.

(** ** Schema mapper *)

Section SchemaMapper.
Context {host : Platform}.

Definition applyTransformValue (value : Value) (transformType : TransformType) : Result Value :=
  match transformType with
  | TUppercase =>
      Ok (match value with VStr s => VStr (Str.toUpperCase s) | _ => value end)
  | TLowercase =>
      Ok (match value with VStr s => VStr (Str.toLowerCase s) | _ => value end)
  | TNumber => VNum <$> ToNumber value
  | TBoolean => Ok (VBool (ToBoolean value))
  | TDate =>
      match value with
      | VDate t => VStr <$> toISOString t
      | _ =>
          text ← ToString value;
          VStr <$> toISOString (Date_parse text)
      end
  | TCustom => Ok value
  end.

(** The loop of [mapFields] over [Object.entries(mapping)], with the
    object built so far. *)
Fixpoint mapFields_loop (data : Value) (entries : list (string * string)) (result : Props)
  : Result Props :=
  match entries with
  | [] => Ok result
  | (sourceField, targetField) :: rest =>
      present ← has_prop sourceField data;
      if present : bool then
        v ← get_prop data sourceField;
        mapFields_loop data rest (Obj.set targetField v result)
      else mapFields_loop data rest result
  end.

Definition mapFields (data : Value) (mapping : list (string * string)) : Result Props :=
  mapFields_loop data mapping [].

(** The loop over the rules for one record copy. *)
Fixpoint applyTransforms_loop (transforms : list FieldTransform) (result : Props) : Result Props :=
  match transforms with
  | [] => Ok result
  | transform :: rest =>
      present ← has_prop (sourceField transform) (VObj result);
      if present : bool then
        value ← get_prop (VObj result) (sourceField transform);
        v ← applyTransformValue value (transformType transform);
        applyTransforms_loop rest (Obj.set (targetField transform) v result)
      else applyTransforms_loop rest result
  end.

Definition applyTransforms_item (transforms : list FieldTransform) (item : Value) : Result Value :=
  if negb (String.eqb (typeof item) "object") || is_nullish item then Ok item
  else
    match own_props item with
    | Some record => VObj <$> applyTransforms_loop transforms record
    | None => Ok item
    end.

Definition applyTransforms (data : Value) (transforms : list FieldTransform) : Result Value :=
  match data with
  | VArr items => VArr <$> mapR (applyTransforms_item transforms) items
  | _ => Ok data
  end.

Definition applySchemaMapping (config : AdapterConfig) (data : Value) : Result MappingResult :=
  match schemaMapping config with
  | None => Ok (mkMappingResult data 0 0)
  | Some sm =>
      step1 ← match sourceFields sm with
              | Some mapping =>
                  if String.eqb (typeof data) "object" then
                    r ← mapFields data mapping;
                    Ok (VObj r, Z.of_nat (length mapping))
                  else Ok (data, 0)
              | None => Ok (data, 0)
              end;
      step2 ← match transforms sm with
              | Some ts =>
                  r ← applyTransforms (fst step1) ts;
                  Ok (r, Z.of_nat (length ts))
              | None => Ok (fst step1, 0)
              end;
      Ok (mkMappingResult (fst step2) (snd step1) (snd step2))
  end.

End SchemaMapper.

(** ** CSV codec *)

Section Csv.
Context {host : Platform}.

(** [values[idx]?.trim()] *)
Definition trimmed_cell (values : list string) (idx : nat) : Value :=
  match values !! idx with
  | Some v => VStr (Str.trim v)
  | None => VUndefined
  end.

(** The [forEach] over the header cells that fills one row. *)
Fixpoint parseCSV_row (headers : list string) (idx : nat) (values : list string) (row : Props) : Props :=
  match headers with
  | [] => row
  | header :: rest =>
      parseCSV_row rest (S idx) values (Obj.set (Str.trim header) (trimmed_cell values idx) row)
  end.

Definition parseCSV (csv : string) : list Props :=
  let lines := filter (fun line => Str.is_empty (Str.trim line) = false) (Str.split Str.newline csv) in
  match lines with
  | [] => []
  | first :: others =>
      let headers := Str.split Str.comma first in
      map (fun line => parseCSV_row headers 0 (Str.split Str.comma line) []) others
  end.

(** [JSON.stringify(v ?? '')], as [join] prints it. *)
Definition toCSV_cell (v : Value) : string :=
  default EmptyString (JSON_stringify (if is_nullish v then VStr EmptyString else v)).

Definition toCSV (data : Value) : Result string :=
  match data with
  | VArr ((firstItem :: _) as items) =>
      headers ← Object_keys firstItem;
      rows ← mapR (fun item =>
                cells ← mapR (fun h => toCSV_cell <$> get_prop item h) headers;
                Ok (Str.join "," cells)) items;
      Ok (Str.join (Str.of_char Str.newline) (Str.join "," headers :: rows))
  | _ => Ok EmptyString
  end.

End Csv.

(** ** Schema inference *)

Inductive FieldType := FString | FNumber | FBoolean | FDate | FArray | FObject.

Record InferredField := mkInferredField {
  if_name : string;
  if_type : FieldType;
  if_nullable : bool;
  if_sampleValues : list Value
}.

Record InferredSchema := mkInferredSchema {
  is_fields : list InferredField;
  is_confidence : Q;
  is_suggestions : list string
}.

Record SchemaInferenceOptions := mkSchemaInferenceOptions {
  sampleData : Value;
  confidence : option Q;
  fieldTypes : option (list (string * string))
}.

Module Infer.

(** [/^\d{4}-\d{2}-\d{2}/] *)
Definition matches_ymd (s : string) : bool :=
  bool_decide (is_Some (
    r ← Str.take_while_n Str.is_digit 4 s;
    r ← Str.expect "-" r;
    r ← Str.take_while_n Str.is_digit 2 r;
    r ← Str.expect "-" r;
    Str.take_while_n Str.is_digit 2 r)).

(** [/^\d{2}\/\d{2}\/\d{4}/] *)
Definition matches_mdy (s : string) : bool :=
  bool_decide (is_Some (
    r ← Str.take_while_n Str.is_digit 2 s;
    r ← Str.expect "/" r;
    r ← Str.take_while_n Str.is_digit 2 r;
    r ← Str.expect "/" r;
    Str.take_while_n Str.is_digit 4 r)).

Definition looksLikeDate (value : Value) : bool :=
  match value with
  | VStr s => matches_ymd s || matches_mdy s
  | _ => false
  end.

Definition inferFieldType (value : Value) : FieldType :=
  match value with
  | VUndefined | VNull => FString
  | VNum _ => FNumber
  | VBool _ => FBoolean
  | VArr _ => FArray
  | VDate _ | VObj _ => FObject
  | VStr _ => if looksLikeDate value then FDate else FString
  end.

(** [item[key] === null || item[key] === undefined]: a member the item
    inherits from [Object.prototype] is neither. *)
Definition missing_at (key : string) (item : Value) : Result bool :=
  v ← get_prop item key;
  Ok (is_nullish v && negb (inherits key item)).

(** The field pushed for one entry of the first element of an array. *)
Definition array_field (sampleData : list Value) (entry : string * Value) : Result InferredField :=
  let (key, value) := entry in
  nullable ← someR (missing_at key) sampleData;
  sampleValues ← mapR (fun item => get_prop item key) (take 5 sampleData);
  Ok (mkInferredField key (inferFieldType value) nullable sampleValues).

(** The field pushed for one entry of a single object. *)
Definition object_field (entry : string * Value) : InferredField :=
  let (key, value) := entry in
  mkInferredField key (inferFieldType value) (is_nullish value) [value].

Definition is_object (v : Value) : bool :=
  String.eqb (typeof v) "object" && negb (is_nullish v).

Definition infer_fields (sampleData : Value) : Result (list InferredField) :=
  match sampleData with
  | VArr ((sample :: _) as items) =>
      if is_object sample then
        entries ← Object_entries sample;
        mapR (array_field items) entries
      else Ok []
  | _ =>
      if is_object sampleData then
        entries ← Object_entries sampleData;
        Ok (map object_field entries)
      else Ok []
  end.

Definition is_string_type (t : FieldType) : bool :=
  match t with
  | FString => true
  | _ => false
  end.

Definition inferSchema (options : SchemaInferenceOptions) : Result InferredSchema :=
  fields ← infer_fields (sampleData options);
  let suggestions1 :=
    if (length fields =? 0)%nat
    then ["Unable to infer schema from empty or invalid data"] else [] in
  let dateFields :=
    filter (fun f => is_string_type (if_type f) && existsb looksLikeDate (if_sampleValues f) = true)
           fields in
  let suggestions2 :=
    if (0 <? length dateFields)%nat
    then ["Consider adding date transforms for: " +:+ Str.join ", " (map if_name dateFields)]
    else [] in
  Ok (mkInferredSchema fields
        (Qmin 1 (inject_Z (Z.of_nat (length fields)) / 10))
        (suggestions1 ++ suggestions2)).

End Infer.

(** ** Collaborators, world and effects *)

Inductive Method := GET | POST | PUT | DELETE | PATCH.

Definition Method_text (m : Method) : string :=
  match m with
  | GET => "GET"
  | POST => "POST"
  | PUT => "PUT"
  | DELETE => "DELETE"
  | PATCH => "PATCH"
  end.

Definition Headers := list (string * string).

Record AdapterRequest := mkAdapterRequest {
  req_endpoint : option string;
  req_method : Method;
  req_path : option string;
  req_headers : option Headers;
  req_body : Value;
  req_queryParams : option Headers
}.

(** The request configuration handed to the HTTP client. *)
Record HttpRequest := mkHttpRequest {
  http_method : string;
  http_url : option string;
  http_headers : option Headers;
  http_data : Value;
  http_params : option Headers
}.

Record HttpResponse := mkHttpResponse {
  resp_data : Value;
  resp_status : Z;
  resp_headers : Headers
}.

(** The HTTP client answers or rejects with an [Error] object. *)
Inductive TransportOutcome :=
| Responds (r : HttpResponse)
| Rejects (e : Error).

(** The collaborators of one run: what the [k]-th HTTP request answers,
    what the [k]-th reading of the system clock shows (milliseconds), and
    the two entry points of the XML codec.  The logger only records. *)
Record Env := mkEnv {
  transport : nat -> HttpRequest -> TransportOutcome;
  clock : nat -> Z;
  parseStringPromise : string -> Result Value;
  buildObject : Value -> Result string
}.

Record AdapterMetrics := mkAdapterMetrics {
  requestsTotal : Z;
  requestsSuccess : Z;
  requestsFailed : Z;
  avgResponseTime : Q;
  totalBytesProcessed : Z
}.

Definition loc := positive.

Inductive LogLevel := LInfo | LWarn | LError | LDebug.

Inductive Event :=
| EvRequest (k : nat) (r : HttpRequest)
| EvSleep (ms : Q)
| EvLog (level : LogLevel) (message : string) (meta : Props).

(** The mutable world: the metrics objects on the heap, how many HTTP
    requests and clock readings happened, and the events in the order they
    happened. *)
Record World := mkWorld {
  heap : gmap loc AdapterMetrics;
  requests : nat;
  ticks : nat;
  trace : list Event
}.

Definition M (A : Type) : Type := World -> Result A * World.

#[global] Instance M_ret : MRet M := fun _ a w => (Ok a, w).
#[global] Instance M_bind : MBind M := fun _ _ f m w =>
  match m w with
  | (Ok a, w') => f a w'
  | (Throw t, w') => (Throw t, w')
  end.

#[global] Instance M_fmap : FMap M := fun _ _ f m w =>
  match m w with
  | (Ok a, w') => (Ok (f a), w')
  | (Throw t, w') => (Throw t, w')
  end.

Definition throw {A : Type} (t : Thrown) : M A := fun w => (Throw t, w).

Definition lift {A : Type} (r : Result A) : M A := fun w => (r, w).

(** [try { body } catch (error) { handler }] where the body ends in a
    [return]. *)
Definition try_catch {A : Type} (body : M A) (handler : Thrown -> M A) : M A := fun w =>
  match body w with
  | (Ok a, w') => (Ok a, w')
  | (Throw t, w') => handler t w'
  end.

Definition emit (ev : Event) (w : World) : World :=
  mkWorld (heap w) (requests w) (ticks w) (trace w ++ [ev]).

Definition zero_metrics : AdapterMetrics := mkAdapterMetrics 0 0 0 0 0.

(** The metrics object a reference points to. *)
Definition metrics_at (w : World) (l : loc) : AdapterMetrics :=
  default zero_metrics (heap w !! l).

Definition read_metrics (l : loc) : M AdapterMetrics := fun w => (Ok (metrics_at w l), w).

Definition update_metrics (l : loc) (f : AdapterMetrics -> AdapterMetrics) : M unit := fun w =>
  (Ok tt, mkWorld (alter f l (heap w)) (requests w) (ticks w) (trace w)).

(** A new object on the heap. *)
Definition alloc (m : AdapterMetrics) : M loc := fun w =>
  let l := fresh (dom (heap w)) in
  (Ok l, mkWorld (<[l := m]> (heap w)) (requests w) (ticks w) (trace w)).

Definition incr_requestsTotal (m : AdapterMetrics) : AdapterMetrics :=
  mkAdapterMetrics (requestsTotal m + 1) (requestsSuccess m) (requestsFailed m)
                   (avgResponseTime m) (totalBytesProcessed m).

Definition incr_requestsSuccess (m : AdapterMetrics) : AdapterMetrics :=
  mkAdapterMetrics (requestsTotal m) (requestsSuccess m + 1) (requestsFailed m)
                   (avgResponseTime m) (totalBytesProcessed m).

Definition incr_requestsFailed (m : AdapterMetrics) : AdapterMetrics :=
  mkAdapterMetrics (requestsTotal m) (requestsSuccess m) (requestsFailed m + 1)
                   (avgResponseTime m) (totalBytesProcessed m).

Definition set_avgResponseTime (avg : Q) (m : AdapterMetrics) : AdapterMetrics :=
  mkAdapterMetrics (requestsTotal m) (requestsSuccess m) (requestsFailed m)
                   avg (totalBytesProcessed m).

Definition log (level : LogLevel) (message : string) (meta : Props) : M unit := fun w =>
  (Ok tt, emit (EvLog level message meta) w).

(** [setTimeout]-based sleep: only its duration is recorded. *)
Definition sleep (ms : Q) : M unit := fun w => (Ok tt, emit (EvSleep ms) w).

(** [e.message] of a caught value: reading a property of [null] throws. *)
Definition message_of (t : Thrown) : Result string :=
  match t with
  | ThrownError e => Ok (err_message e)
  | ThrownNull => Throw (TypeError "Cannot read properties of null (reading 'message')")
  end.

(** [a || b] on optional strings: the empty string is falsy. *)
Definition or_string (a b : option string) : option string :=
  match a with
  | Some s => if Str.is_empty s then b else a
  | None => b
  end.

Definition num_Z (z : Z) : Value := VNum (Num (inject_Z z)).

Record TransformMetadata := mkTransformMetadata {
  tm_sourceFormat : string;
  tm_targetFormat : string;
  tm_fieldsMapped : Z;
  tm_fieldsTransformed : Z;
  tm_timestamp : string
}.

Record AdapterTransformResult := mkAdapterTransformResult {
  tr_data : Value;
  tr_metadata : TransformMetadata
}.

Record ResponseMetadata := mkResponseMetadata {
  rm_duration : Z;
  rm_timestamp : string;
  rm_adapter : string
}.

(** The [data] of a response: the raw body, or the whole result of
    [transform] for a [GET]. *)
Inductive ResponseData :=
| Untransformed (v : Value)
| Transformed (r : AdapterTransformResult).

Record AdapterResponse := mkAdapterResponse {
  success : bool;
  data : option ResponseData;
  error : option string;
  statusCode : option Z;
  headers : option Headers;
  metadata : option ResponseMetadata
}.

Record RawResult := mkRawResult {
  raw_data : Value;
  raw_status : Z;
  raw_headers : Headers
}.

(** An adapter instance: its configuration, its retry policy and the
    reference to its metrics object. *)
Record Adapter := mkAdapter {
  this_config : AdapterConfig;
  this_retryPolicy : RetryPolicy;
  this_metrics : loc
}.

Definition default_retryPolicy : RetryPolicy := mkRetryPolicy 3 1000 10000 2.

(** ** The adapter *)

Section Engine.
Context {host : Platform} (env : Env).

(** [Date.now()] *)
Definition now : M Z := fun w =>
  (Ok (clock env (ticks w)), mkWorld (heap w) (requests w) (S (ticks w)) (trace w)).

(** [new Date().toISOString()] *)
Definition timestamp : M string :=
  t ← now;
  mret (Date_toISOString t).

(** [httpClient.request(cfg)] *)
Definition http_request (cfg : HttpRequest) : M HttpResponse := fun w =>
  let k := requests w in
  let w' := emit (EvRequest k cfg) (mkWorld (heap w) (S k) (ticks w) (trace w)) in
  match transport env k cfg with
  | Responds r => (Ok r, w')
  | Rejects e => (Throw (ThrownError e), w')
  end.

Definition constructor (config : AdapterConfig) : M Adapter :=
  let policy := default default_retryPolicy (retryPolicy config) in
  metrics ← alloc (mkAdapterMetrics 0 0 0 0 0);
  mret (mkAdapter config policy metrics).

(** The body of the [try] in [executeWithRetry]: one request. *)
Definition attempt_request (a : Adapter) (request : AdapterRequest) : M RawResult :=
  response ← http_request
    (mkHttpRequest (Str.toLowerCase (Method_text (req_method request)))
                   (or_string (req_endpoint request) (endpoint (this_config a)))
                   (req_headers request) (req_body request) (req_queryParams request));
  mret (mkRawResult (resp_data response) (resp_status response) (resp_headers response)).

(** The [for] loop of [executeWithRetry] over the attempt indices still
    to run, then the final [throw lastError]. *)
Fixpoint retry_loop (a : Adapter) (request : AdapterRequest)
         (attempts : list Z) (delay : Q) (lastError : Thrown) : M RawResult :=
  match attempts with
  | [] => throw lastError
  | attempt :: rest =>
      try_catch (attempt_request a request) (fun error =>
        let policy := this_retryPolicy a in
        if attempt <? maxRetries policy then
          message ← lift (message_of error);
          log LWarn ("Retry attempt " +:+ Str.of_Z (attempt + 1))
              [("error", VStr message); ("delay", VNum (Num delay))];;
          sleep delay;;
          retry_loop a request rest
                     (Qmin (delay * backoffMultiplier policy) (maxDelayMs policy)) error
        else retry_loop a request rest delay error)
  end.

(** The attempt indices [0 .. maxRetries]. *)
Definition attempt_indices (policy : RetryPolicy) : list Z :=
  seqZ 0 (maxRetries policy + 1).

Definition executeWithRetry (a : Adapter) (request : AdapterRequest) : M RawResult :=
  retry_loop a request (attempt_indices (this_retryPolicy a))
             (initialDelayMs (this_retryPolicy a)) ThrownNull.

Definition parseXML (xml : string) : Result Value := parseStringPromise env xml.

Definition parseSOAP (data : Value) : Result Value :=
  match data with
  | VStr xml => parseXML xml
  | _ => Ok data
  end.

Definition toXML (obj : Value) : Result string := buildObject env obj.

(** The decode step of [transform]: the decoded value and [fieldsMapped]. *)
Definition decode (sourceFormat : SourceFormat) (data : Value) : Result (Value * Z) :=
  match sourceFormat, data with
  | SrcXml, VStr xml => r ← parseXML xml; Ok (r, 1)
  | SrcCsv, VStr csv => Ok (VArr (map VObj (parseCSV csv)), 1)
  | SrcSoap, _ => r ← parseSOAP data; Ok (r, 1)
  | _, _ => Ok (data, 0)
  end.

(** The encode step of [transform]. *)
Definition encode (target : string) (transformedData : Value) : Result Value :=
  if String.eqb target "xml" && String.eqb (typeof transformedData) "object"
  then VStr <$> toXML transformedData
  else if String.eqb target "csv" && isArray transformedData
  then VStr <$> toCSV transformedData
  else Ok transformedData.

Definition transform (a : Adapter) (data : Value) (target_override : option string)
  : M AdapterTransformResult :=
  let config := this_config a in
  let target := default (TargetFormat_text (targetFormat config))
                        (or_string target_override None) in
  decoded ← lift (decode (sourceFormat config) data);
  mapped ← lift (match schemaMapping config with
                 | Some _ =>
                     r ← applySchemaMapping config (fst decoded);
                     Ok (mr_data r, mr_mapped r, mr_transformed r)
                 | None => Ok (fst decoded, snd decoded, 0)
                 end);
  let '(transformedData, fieldsMapped, fieldsTransformed) := mapped in
  encoded ← lift (encode target transformedData);
  ts ← timestamp;
  mret (mkAdapterTransformResult encoded
          (mkTransformMetadata (SourceFormat_text (sourceFormat config)) target
                               fieldsMapped fieldsTransformed ts)).

(** The running average after a success. *)
Definition next_average (avg : Q) (successCount duration : Z) : Q :=
  (avg * (inject_Z successCount - 1) + inject_Z duration) / inject_Z successCount.

(** The body of the [try] in [execute]. *)
Definition execute_try (a : Adapter) (request : AdapterRequest) (startTime : Z)
  : M AdapterResponse :=
  let config := this_config a in
  result ← executeWithRetry a request;
  transformedData ←
    match req_method request with
    | GET => Transformed <$> transform a (raw_data result)
                              (Some (TargetFormat_text (targetFormat config)))
    | _ => mret (Untransformed (raw_data result))
    end;
  update_metrics (this_metrics a) incr_requestsSuccess;;
  finish ← now;
  let duration := finish - startTime in
  m ← read_metrics (this_metrics a);
  let successCount := requestsSuccess m in
  update_metrics (this_metrics a)
    (set_avgResponseTime (next_average (avgResponseTime m) successCount duration));;
  log LInfo ("Adapter executed successfully: " +:+ name config)
      [("duration", num_Z duration); ("statusCode", num_Z (raw_status result))];;
  ts ← timestamp;
  mret (mkAdapterResponse true (Some transformedData) None
          (Some (raw_status result)) (Some (raw_headers result))
          (Some (mkResponseMetadata duration ts (name config)))).

(** The body of the [catch] in [execute]. *)
Definition execute_catch (a : Adapter) (startTime : Z) (error : Thrown)
  : M AdapterResponse :=
  let config := this_config a in
  update_metrics (this_metrics a) incr_requestsFailed;;
  finish ← now;
  let duration := finish - startTime in
  message ← lift (message_of error);
  log LError ("Adapter execution failed: " +:+ name config)
      [("error", VStr message); ("duration", num_Z duration)];;
  ts ← timestamp;
  mret (mkAdapterResponse false None (Some message) None None
          (Some (mkResponseMetadata duration ts (name config)))).

Definition execute (a : Adapter) (request : AdapterRequest) : M AdapterResponse :=
  startTime ← now;
  update_metrics (this_metrics a) incr_requestsTotal;;
  try_catch (execute_try a request startTime) (execute_catch a startTime).

(** [{ ...this.metrics }]: a new object holding the current counters. *)
Definition getMetrics (a : Adapter) : M loc :=
  m ← read_metrics (this_metrics a);
  alloc m.

End Engine.

(** ** A reference platform

    Concrete host built-ins, used to evaluate the engine on examples:
    decimal, hexadecimal, octal and binary numerals; timestamps in the
    date-time string format of the language standard, read in UTC.  Hosts
    may accept further date formats. *)

Module Reference.

Fixpoint zeros (k : nat) : string :=
  match k with
  | O => EmptyString
  | S k' => "0" +:+ zeros k'
  end.

Definition pad_left (width : nat) (s : string) : string :=
  zeros (width - String.length s) +:+ s.

Definition digits (width : nat) (z : Z) : string := pad_left width (Str.of_Z z).

(** *** Numbers *)

Fixpoint fraction_digits (fuel : nat) (r den : Z) : string :=
  match fuel with
  | O => EmptyString
  | S fuel' =>
      if r =? 0 then EmptyString
      else Str.of_Z (r * 10 / den) +:+ fraction_digits fuel' (r * 10 mod den) den
  end.

Definition number_text (q : Q) : string :=
  let q := Qred q in
  let den := Z.pos (Qden q) in
  let n := Z.abs (Qnum q) in
  (if Qnum q <? 0 then "-" else EmptyString)
    +:+ Str.of_Z (n / den)
    +:+ (if n mod den =? 0 then EmptyString else "." +:+ fraction_digits 20 (n mod den) den).

Definition digit_value (radix : Z) (c : ascii) : option Z :=
  let n := Z.of_nat (nat_of_ascii c) in
  let v := if (48 <=? n) && (n <=? 57) then n - 48
           else if (97 <=? n) && (n <=? 122) then n - 87
           else if (65 <=? n) && (n <=? 90) then n - 55
           else radix in
  if v <? radix then Some v else None.

(** Reads the longest run of digits: their value, their count, the rest. *)
Fixpoint read_digits (radix : Z) (s : string) (acc : Z) (count : nat) : Z * nat * string :=
  match s with
  | String c rest =>
      match digit_value radix c with
      | Some v => read_digits radix rest (acc * radix + v) (S count)
      | None => (acc, count, s)
      end
  | EmptyString => (acc, count, s)
  end.

Definition read_sign (s : string) : bool * string :=
  match s with
  | String "-" rest => (true, rest)
  | String "+" rest => (false, rest)
  | _ => (false, s)
  end.

Definition scale (q : Q) (e : Z) : Q :=
  if 0 <=? e then q * inject_Z (10 ^ e) else q / inject_Z (10 ^ (- e)).

Definition read_exponent (s : string) : option Z :=
  match s with
  | EmptyString => Some 0
  | String c rest =>
      if Ascii.eqb c "e" || Ascii.eqb c "E" then
        let '(neg, rest) := read_sign rest in
        let '(e, count, rest) := read_digits 10 rest 0 0 in
        if (0 <? count)%nat && Str.is_empty rest then Some (if neg : bool then - e else e) else None
      else None
  end.

Definition read_decimal (s : string) : option Q :=
  let '(int, icount, rest) := read_digits 10 s 0 0 in
  let '(frac, fcount, rest) :=
    match rest with
    | String "." rest' => read_digits 10 rest' 0 0
    | _ => (0, O, rest)
    end in
  if (icount + fcount =? 0)%nat then None
  else
    e ← read_exponent rest;
    Some (scale (inject_Z int + inject_Z frac / inject_Z (10 ^ Z.of_nat fcount)) e).

Definition read_radix (radix : Z) (s : string) : number :=
  let '(v, count, rest) := read_digits radix s 0 0 in
  if (0 <? count)%nat && Str.is_empty rest then Num (inject_Z v) else NaN.

Definition parse_number (s : string) : number :=
  match Str.trim s with
  | EmptyString => Num 0
  | String "0" (String "x" rest) | String "0" (String "X" rest) => read_radix 16 rest
  | String "0" (String "o" rest) | String "0" (String "O" rest) => read_radix 8 rest
  | String "0" (String "b" rest) | String "0" (String "B" rest) => read_radix 2 rest
  | t =>
      let '(neg, rest) := read_sign t in
      if String.eqb rest "Infinity" then Inf neg
      else match read_decimal rest with
           | Some q => Num (if neg : bool then - q else q)
           | None => NaN
           end
  end.

(** *** Dates *)

Definition ms_per_day : Z := 86400000.

(** Days since 1970-01-01 of a proleptic Gregorian date. *)
Definition days_from_civil (y m d : Z) : Z :=
  let y := if m <=? 2 then y - 1 else y in
  let era := y / 400 in
  let yoe := y - era * 400 in
  let doy := (153 * (if 2 <? m then m - 3 else m + 9) + 2) / 5 + d - 1 in
  let doe := yoe * 365 + yoe / 4 - yoe / 100 + doy in
  era * 146097 + doe - 719468.

Definition civil_from_days (z : Z) : Z * Z * Z :=
  let z := z + 719468 in
  let era := z / 146097 in
  let doe := z - era * 146097 in
  let yoe := (doe - doe / 1460 + doe / 36524 - doe / 146096) / 365 in
  let doy := doe - (365 * yoe + yoe / 4 - yoe / 100) in
  let mp := (5 * doy + 2) / 153 in
  let d := doy - (153 * mp + 2) / 5 + 1 in
  let m := if mp <? 10 then mp + 3 else mp - 9 in
  (yoe + era * 400 + (if m <=? 2 then 1 else 0), m, d).

(** Exactly [k] digits: fewer or more make the text malformed. *)
Definition fixed_digits (k : nat) (s : string) : option (Z * string) :=
  let '(v, count, rest) := read_digits 10 s 0 0 in
  if (count =? k)%nat then Some (v, rest) else None.

Definition read_year (s : string) : option (Z * string) :=
  match s with
  | String "+" rest => fixed_digits 6 rest
  | String "-" rest => '(y, rest') ← fixed_digits 6 rest; Some (- y, rest')
  | _ => fixed_digits 4 s
  end.

(** An optional [-NN] field, with its default. *)
Definition read_dash_field (dflt : Z) (s : string) : option (Z * string) :=
  match s with
  | String "-" rest => fixed_digits 2 rest
  | _ => Some (dflt, s)
  end.

Definition read_fraction (s : string) : option (Z * string) :=
  match s with
  | String "." rest =>
      let '(v, count, rest') := read_digits 10 rest 0 0 in
      if (count =? 0)%nat then None
      else Some (v * 1000 / 10 ^ Z.of_nat count, rest')
  | _ => Some (0, s)
  end.

Definition read_seconds (s : string) : option (Z * Z * string) :=
  match s with
  | String ":" rest =>
      '(sec, rest) ← fixed_digits 2 rest;
      '(ms, rest) ← read_fraction rest;
      Some (sec, ms, rest)
  | _ => Some (0, 0, s)
  end.

(** The offset in minutes east of UTC that ends a time. *)
Definition read_offset (s : string) : option Z :=
  match s with
  | EmptyString | String "Z" EmptyString => Some 0
  | String c rest =>
      if Ascii.eqb c "+" || Ascii.eqb c "-" then
        '(h, rest) ← fixed_digits 2 rest;
        rest ← Str.expect ":" rest;
        '(m, rest) ← fixed_digits 2 rest;
        if Str.is_empty rest && (h <? 24) && (m <? 60)
        then Some ((if Ascii.eqb c "-" then -1 else 1) * (h * 60 + m)) else None
      else None
  end.

(** Milliseconds into the day, corrected by the offset. *)
Definition read_time (s : string) : option Z :=
  match s with
  | EmptyString => Some 0
  | String "T" rest =>
      '(h, rest) ← fixed_digits 2 rest;
      rest ← Str.expect ":" rest;
      '(mi, rest) ← fixed_digits 2 rest;
      '(sec, ms, rest) ← read_seconds rest;
      off ← read_offset rest;
      if (h <=? 24) && (mi <? 60) && (sec <? 60)
      then Some (h * 3600000 + mi * 60000 + sec * 1000 + ms - off * 60000) else None
  | _ => None
  end.

Definition parse_date (s : string) : option Z :=
  '(y, rest) ← read_year s;
  '(m, rest) ← read_dash_field 1 rest;
  '(d, rest) ← read_dash_field 1 rest;
  t ← read_time rest;
  let tv := days_from_civil y m d * ms_per_day + t in
  if (1 <=? m) && (m <=? 12) && (1 <=? d) && (d <=? 31) && (Z.abs tv <=? 8640000000000000)
  then Some tv else None.

Definition year_text (y : Z) : string :=
  if (0 <=? y) && (y <=? 9999) then digits 4 y
  else (if y <? 0 then "-" else "+") +:+ digits 6 (Z.abs y).

Definition clock_text (ms : Z) : string :=
  digits 2 (ms / 3600000) +:+ ":" +:+ digits 2 (ms / 60000 mod 60) +:+ ":" +:+ digits 2 (ms / 1000 mod 60).

Definition iso_text (t : Z) : string :=
  let '(y, m, d) := civil_from_days (t / ms_per_day) in
  let ms := t mod ms_per_day in
  year_text y +:+ "-" +:+ digits 2 m +:+ "-" +:+ digits 2 d +:+ "T"
    +:+ clock_text ms +:+ "." +:+ digits 3 (ms mod 1000) +:+ "Z".

Definition day_name (k : Z) : string :=
  nth (Z.to_nat k) ["Sun"; "Mon"; "Tue"; "Wed"; "Thu"; "Fri"; "Sat"] EmptyString.

Definition month_name (m : Z) : string :=
  nth (Z.to_nat (m - 1))
      ["Jan"; "Feb"; "Mar"; "Apr"; "May"; "Jun"; "Jul"; "Aug"; "Sep"; "Oct"; "Nov"; "Dec"]
      EmptyString.

Definition display_text (t : Z) : string :=
  let days := t / ms_per_day in
  let '(y, m, d) := civil_from_days days in
  day_name ((days + 4) mod 7) +:+ " " +:+ month_name m +:+ " " +:+ digits 2 d +:+ " "
    +:+ (if y <? 0 then "-" +:+ digits 6 (- y) else digits 4 y) +:+ " "
    +:+ clock_text (t mod ms_per_day) +:+ " GMT+0000 (Coordinated Universal Time)".

#[export] Instance platform : Platform := {|
  NumberToString := number_text;
  StringToNumber := parse_number;
  Date_parse := parse_date;
  Date_toISOString := iso_text;
  Date_toString := display_text
|}.

End Reference.


(** ** Health check and endpoint analysis *)

Module Text.

(** [s.startsWith(prefix)] *)
Fixpoint startsWith (prefix s : string) : bool :=
  match prefix, s with
  | EmptyString, _ => true
  | String a prefix', String b s' => Ascii.eqb a b && startsWith prefix' s'
  | String _ _, EmptyString => false
  end.

(** [s.includes(needle)] *)
Fixpoint includes (needle s : string) : bool :=
  startsWith needle s ||
  match s with
  | EmptyString => false
  | String _ s' => includes needle s'
  end.

End Text.

Record AdapterHealthCheck := mkAdapterHealthCheck {
  healthy : bool;
  latency : option Z;
  lastChecked : string;
  errors : option (list string)
}.

(** The part of an [AdapterConfig] that [analyzeEndpoint] answers. *)
Record AnalyzedConfig := mkAnalyzedConfig {
  an_sourceFormat : SourceFormat;
  an_targetFormat : TargetFormat;
  an_schemaMapping : SchemaMapping
}.

(** [headers[name]] on the headers of a response. *)
Fixpoint header_lookup (name : string) (h : Headers) : option string :=
  match h with
  | [] => None
  | (k, v) :: rest => if String.eqb name k then Some v else header_lookup name rest
  end.

(** [getAcceptHeader(format)] *)
Definition getAcceptHeader (format : SourceFormat) : string :=
  match format with
  | SrcXml | SrcSoap => "application/xml, text/xml"
  | SrcCsv => "text/csv"
  | _ => "application/json"
  end.

(** The source format [analyzeEndpoint] reads off a response. *)
Definition detect_sourceFormat (contentType : string) (data : Value) : SourceFormat :=
  if Text.includes "xml" contentType
     || match data with
        | VStr s => Text.startsWith "<" (Str.trim s)
        | _ => false
        end
  then SrcXml
  else if Text.includes "csv" contentType
          || match data with
             | VStr s => Text.includes "," s
             | _ => false
             end
  then SrcCsv
  else SrcJson.

Section Probes.
Context {host : Platform} (env : Env).

(** The request of [httpClient.head(url)]. *)
Definition head_request (url : string) : HttpRequest :=
  mkHttpRequest "head" (Some url) None VUndefined None.

(** The request of [axios.get(endpoint, ...)] in [analyzeEndpoint]. *)
Definition probe_request (endpoint : string) : HttpRequest :=
  mkHttpRequest "get" (Some endpoint)
                (Some [("Accept", "application/json, application/xml, text/csv")])
                VUndefined None.

(** The body of the [try] in [healthCheck]. *)
Definition healthCheck_try (a : Adapter) (startTime : Z) : M AdapterHealthCheck :=
  match endpoint (this_config a) with
  | Some url =>
      if Str.is_empty url then mret tt
      else http_request env (head_request url) ;; mret tt
  | None => mret tt
  end;;
  finish ← now env;
  ts ← timestamp env;
  mret (mkAdapterHealthCheck true (Some (finish - startTime)) ts None).

(** The body of the [catch] in [healthCheck]. *)
Definition healthCheck_catch (startTime : Z) (error : Thrown) : M AdapterHealthCheck :=
  finish ← now env;
  ts ← timestamp env;
  message ← lift (message_of error);
  mret (mkAdapterHealthCheck false (Some (finish - startTime)) ts (Some [message])).

Definition healthCheck (a : Adapter) : M AdapterHealthCheck :=
  startTime ← now env;
  try_catch (healthCheck_try a startTime) (healthCheck_catch startTime).

(** The body of the [try] in [analyzeEndpoint]. *)
Definition analyzeEndpoint_try (endpoint : string) : M AnalyzedConfig :=
  response ← http_request env (probe_request endpoint);
  let contentType :=
    default EmptyString (or_string (header_lookup "content-type" (resp_headers response))
                                   (Some EmptyString)) in
  let sourceFormat := detect_sourceFormat contentType (resp_data response) in
  schema ← lift (Infer.inferSchema
                   (mkSchemaInferenceOptions (resp_data response) (Some (8 # 10)) None));
  log LInfo "Endpoint analysis complete"
      [("sourceFormat", VStr (SourceFormat_text sourceFormat));
       ("fields", num_Z (Z.of_nat (length (is_fields schema))))];;
  mret (mkAnalyzedConfig sourceFormat TgtJson (mkSchemaMapping (Some []) None None)).

(** The body of the [catch] in [analyzeEndpoint]: log, then throw again. *)
Definition analyzeEndpoint_catch (endpoint : string) (error : Thrown) : M AnalyzedConfig :=
  message ← lift (message_of error);
  log LError ("Endpoint analysis failed: " +:+ endpoint) [("error", VStr message)];;
  throw error.

Definition analyzeEndpoint (endpoint : string) : M AnalyzedConfig :=
  log LInfo ("Analyzing endpoint: " +:+ endpoint) [];;
  try_catch (analyzeEndpoint_try endpoint) (analyzeEndpoint_catch endpoint).

End Probes.
(** ** Vocabulary of the properties *)

(** The durations slept, in order. *)
Definition sleeps (tr : list Event) : list Q :=
  omap (fun ev => match ev with EvSleep ms => Some ms | _ => None end) tr.

(** The indices of the HTTP requests issued, in order. *)
Definition request_indices (tr : list Event) : list nat :=
  omap (fun ev => match ev with EvRequest k _ => Some k | _ => None end) tr.

(** The delay that follows [d] in the backoff schedule of the
    specification: [min(d * backoffMultiplier, maxDelay)]. *)
Definition next_delay (policy : RetryPolicy) (d : Q) : Q :=
  Qmin (d * backoffMultiplier policy) (maxDelayMs policy).

(** The first [k] delays of the schedule that starts at [d]. *)
Fixpoint backoff_delays (policy : RetryPolicy) (k : nat) (d : Q) : list Q :=
  match k with
  | O => []
  | S k' => d :: backoff_delays policy k' (next_delay policy d)
  end.

(** The request configuration [executeWithRetry] builds from a request. *)
Definition request_config (a : Adapter) (request : AdapterRequest) : HttpRequest :=
  mkHttpRequest (Str.toLowerCase (Method_text (req_method request)))
                (or_string (req_endpoint request) (endpoint (this_config a)))
                (req_headers request) (req_body request) (req_queryParams request).

Definition raw_of (r : HttpResponse) : RawResult :=
  mkRawResult (resp_data r) (resp_status r) (resp_headers r).

(** The world right after one more HTTP request with configuration [cfg]. *)
Definition after_request (cfg : HttpRequest) (w : World) : World :=
  emit (EvRequest (requests w) cfg) (mkWorld (heap w) (S (requests w)) (ticks w) (trace w)).

(** The world after the warning and the sleep that follow a failed attempt. *)
Definition after_backoff (attempt : Z) (message : string) (delay : Q) (w : World) : World :=
  emit (EvSleep delay)
    (emit (EvLog LWarn ("Retry attempt " +:+ Str.of_Z (attempt + 1))
                 [("error", VStr message); ("delay", VNum (Num delay))]) w).

(** The loop of [executeWithRetry] is at attempt index [i] with [len]
    indices left, the last of which is [maxRetries]. *)
Definition remaining (a : Adapter) (i : Z) (len : nat) : Prop :=
  i + Z.of_nat len = maxRetries (this_retryPolicy a) + 1.

(** The object [mapFields] builds from a plain object [o], in the words of
    the specification: for every entry whose source field exists in [o],
    the target field receives the value of the source field. *)
Fixpoint select_fields (o : Props) (entries : list (string * string)) (result : Props) : Props :=
  match entries with
  | [] => result
  | (s, t) :: rest =>
      if Obj.has s o then select_fields o rest (Obj.set t (Obj.get s o) result)
      else select_fields o rest result
  end.

(** A computation leaves one component of the world as it found it. *)
Definition preserves {X A : Type} (proj : World -> X) (m : M A) : Prop :=
  forall w, proj (m w).2 = proj w.

(** The counters of the adapter's own metrics object. *)
Definition counters_consistent (m : AdapterMetrics) : Prop :=
  requestsTotal m = requestsSuccess m + requestsFailed m.

(** A caller overwrites the metrics object at [l]. *)
Definition overwrite (l : loc) (m : AdapterMetrics) (w : World) : World :=
  mkWorld (<[l := m]> (heap w)) (requests w) (ticks w) (trace w).

(** A value has a primitive: it is not a plain object that owns a
    [toString] property, nor an array with such an element. *)
Fixpoint convertible (v : Value) : bool :=
  match v with
  | VObj o => negb (Obj.has "toString" o)
  | VArr items => forallb convertible items
  | _ => true
  end.

Section MapperVocabulary.
Context {host : Platform}.



(** The time value the date transform reads from a value: that of a
    [Date] object, or the one its text parses to ([None] also when the
    value has no text). *)
Definition date_time (value : Value) : option Z :=
  match value with
  | VDate t => t
  | _ =>
      match ToString value with
      | Ok text => Date_parse text
      | Throw _ => None
      end
  end.

(** What [String(v)] does: it answers for a value that has a primitive and
    throws for the others. *)
Definition text_outcome (v : Value) : Prop :=
  if convertible v then exists text, ToString v = Ok text
  else ToString v = Throw not_primitive.

End MapperVocabulary.

(** The value of a record at a field is null or missing. *)
Definition null_or_missing (key : string) (record : Props) : Prop :=
  Obj.lookup key record = None
  \/ Obj.lookup key record = Some VNull
  \/ Obj.lookup key record = Some VUndefined.

(** The field the specification describes for one entry of the first
    record of a sample: the type of the entry's value, nullable when some
    record of the whole sample is null or missing there, and the values of
    the first five records as samples. *)
Definition described_field (records : list Props) (entry : string * Value) : InferredField :=
  mkInferredField entry.1 (Infer.inferFieldType entry.2)
                  (existsb (fun record => is_nullish (Obj.get entry.1 record)) records)
                  (map (Obj.get entry.1) (take 5 records)).

(** The field [inferSchema] answers for one entry of the first record of
    a sample of records: as [described_field], but a record that lacks the
    field does not make it nullable when the name is one every object
    inherits. *)
Definition inferred_field (records : list Props) (entry : string * Value) : InferredField :=
  mkInferredField entry.1 (Infer.inferFieldType entry.2)
                  (existsb (fun record => is_nullish (Obj.get entry.1 record)
                                          && negb (inherits entry.1 (VObj record))) records)
                  (map (Obj.get entry.1) (take 5 records)).

(** The character [c] occurs in [s]. *)
Fixpoint occurs (c : ascii) (s : string) : bool :=
  match s with
  | EmptyString => false
  | String c' rest => Ascii.eqb c' c || occurs c rest
  end.

(** A field name that survives the CSV header line: free of commas and
    line breaks, without surrounding white space. *)
Definition clean_key (k : string) : Prop :=
  occurs Str.comma k = false
  /\ occurs Str.newline k = false
  /\ Str.trim k = k.

(** The text a record holds at a field ([EmptyString] when it holds none). *)
Definition text_at (key : string) (record : Props) : string :=
  match Obj.lookup key record with
  | Some (VStr s) => s
  | _ => EmptyString
  end.

(** A record holds a comma-free text at each of the given fields. *)
Definition flat_texts (headers : list string) (record : Props) : Prop :=
  Forall (fun h => exists s, Obj.lookup h record = Some (VStr s) /\ occurs Str.comma s = false)
         headers.

(** What decoding gives back for one record: under each header, the JSON
    text of the record's value, double quotes included. *)
Definition quoted_row (headers : list string) (record : Props) : Props :=
  map (fun h => (h, VStr (JSON_quote (text_at h record)))) headers.

(** The CSV line of one record: the JSON texts of its values at the
    headers, joined by commas. *)
Definition encoded_row (headers : list string) (record : Props) : string :=
  Str.join (Str.of_char Str.comma) (map (fun h => JSON_quote (text_at h record)) headers).

Section EngineVocabulary.
Context {host : Platform} (env : Env).

(** The world after a series of [execute] calls on one adapter, each
    call completed before the next starts. *)
Fixpoint execute_all (a : Adapter) (calls : list AdapterRequest) (w : World) : World :=
  match calls with
  | [] => w
  | request :: rest => execute_all a rest (execute env a request w).2
  end.

End EngineVocabulary.

(** ** Sample objects

    A small deployment used to run the engine on concrete inputs: an
    endpoint that refuses every connection, a clock that advances 25 ms
    per reading, an XML codec that rejects its input. *)

Module Sample.

Definition refusal (k : nat) : Error :=
  mkError "Error" ("connect ECONNREFUSED (request " +:+ Str.of_nat k +:+ ")").

Definition codec_error : Thrown :=
  ThrownError (mkError "Error" "Non-whitespace before first tag.").

Definition unreachable : Env :=
  mkEnv (fun k _ => Rejects (refusal k))
        (fun k => 1700000000000 + 25 * Z.of_nat k)
        (fun _ => Throw codec_error)
        (fun _ => Throw codec_error).

Definition config : AdapterConfig :=
  mkAdapterConfig "legacy-orders" SrcJson TgtJson None
                  (Some "http://legacy.example/orders") None None.

Definition adapter : Adapter := mkAdapter config default_retryPolicy 1%positive.


Definition world : World :=
  mkWorld {[ 1%positive := mkAdapterMetrics 7 5 2 40 0 ]} 0 0 [].

Definition get_request : AdapterRequest :=
  mkAdapterRequest None GET None None VUndefined None.

(** Renames a to x and b to y. *)
Definition rename_mapping : SchemaMapping :=
  mkSchemaMapping (Some [("a", "x"); ("b", "y")]) None None.

Definition rename_config : AdapterConfig :=
  mkAdapterConfig "legacy-orders" SrcJson TgtJson (Some rename_mapping)
                  (Some "http://legacy.example/orders") None None.



End Sample.


(** ** Vocabulary of the further properties *)

(** Assigning a text to [__proto__] on an object literal creates no
    property: the accessor inherited from [Object.prototype] ignores it.
    Statements about the fields an assignment creates are made for the
    other names. *)
Definition assignable (k : string) : Prop := k <> "__proto__".

(** A name no object inherits from [Object.prototype]: reading it from a
    record that lacks it answers [undefined]. *)
Definition own_only (k : string) : Prop := ~ In k inherited_names.



(** The lines of a CSV text that [parseCSV] keeps: those that are not blank. *)
Definition nonblank_lines (csv : string) : list string :=
  filter (fun line => Str.is_empty (Str.trim line) = false) (Str.split Str.newline csv).

(** The header cells [parseCSV] reads from a CSV text. *)
Definition csv_headers (csv : string) : list string :=
  match nonblank_lines csv with
  | [] => []
  | first :: _ => Str.split Str.comma first
  end.

(** A thrown value is a [TypeError]. *)
Definition is_TypeError (t : Thrown) : Prop := exists msg, t = TypeError msg.







(** The message [inferSchema] gives when it found no field. *)
Definition no_schema_message : string := "Unable to infer schema from empty or invalid data".

(** The answer of [inferSchema] without fields: confidence zero and the
    one message. *)
Definition empty_schema (schema : InferredSchema) : Prop :=
  is_fields schema = []
  /\ (is_confidence schema == 0)%Q
  /\ is_suggestions schema = [no_schema_message].

Section CsvVocabulary.
Context {host : Platform}.

(** The line [toCSV] prints for a record under the given headers. *)
Definition csv_line (headers : list string) (record : Props) : string :=
  Str.join "," (map (fun h => toCSV_cell (Obj.get h record)) headers).

End CsvVocabulary.

Section TransformVocabulary.
Context {host : Platform} (env : Env).

(** The three steps of [transform] before the timestamp is taken: decode,
    map, encode.  Answers the payload, [fieldsMapped], [fieldsTransformed]. *)
Definition transform_payload (config : AdapterConfig) (data : Value) (target : string)
  : Result (Value * Z * Z) :=
  decoded ← decode env (sourceFormat config) data;
  mapped ← match schemaMapping config with
           | Some _ =>
               r ← applySchemaMapping config decoded.1;
               Ok (mr_data r, mr_mapped r, mr_transformed r)
           | None => Ok (decoded.1, decoded.2, 0)
           end;
  encoded ← encode env target mapped.1.1;
  Ok (encoded, mapped.1.2, mapped.2).

(** The target format [transform] settles on. *)
Definition effective_target (config : AdapterConfig) (target_override : option string) : string :=
  default (TargetFormat_text (targetFormat config)) (or_string target_override None).

End TransformVocabulary.

Section FacadeVocabulary.
Context {host : Platform} (env : Env).

(** The step of [execute] that turns the raw body into the [data] of the
    response: [transform] for a [GET], the body itself otherwise. *)
Definition payload_step (a : Adapter) (request : AdapterRequest) (result : RawResult)
  : M ResponseData :=
  match req_method request with
  | GET => Transformed <$> transform env a (raw_data result)
                             (Some (TargetFormat_text (targetFormat (this_config a))))
  | _ => mret (Untransformed (raw_data result))
  end.

(** The response of a success. *)
Definition success_response (a : Adapter) (result : RawResult) (payload : ResponseData)
           (duration : Z) (ts : string) : AdapterResponse :=
  mkAdapterResponse true (Some payload) None (Some (raw_status result))
                    (Some (raw_headers result))
                    (Some (mkResponseMetadata duration ts (name (this_config a)))).

(** The response of a failure. *)
Definition failure_response (a : Adapter) (message : string) (duration : Z) (ts : string)
  : AdapterResponse :=
  mkAdapterResponse false None (Some message) None None
                    (Some (mkResponseMetadata duration ts (name (this_config a)))).

(** The world in which [execute] enters its [try]: one clock reading
    taken, [requestsTotal] counted. *)
Definition entered (a : Adapter) (w : World) : World :=
  mkWorld (alter incr_requestsTotal (this_metrics a) (heap w))
          (requests w) (S (ticks w)) (trace w).

End FacadeVocabulary.

(** The content type [analyzeEndpoint] reads from the headers of a
    response: the empty text when the header is absent or empty. *)
Definition content_type (r : HttpResponse) : string :=
  default EmptyString (or_string (header_lookup "content-type" (resp_headers r))
                                 (Some EmptyString)).

(** The adapter has an endpoint to probe. *)
Definition probed_endpoint (a : Adapter) : option string :=
  match endpoint (this_config a) with
  | Some url => if Str.is_empty url then None else Some url
  | None => None
  end.

Section CallLog.
Context {host : Platform} (env : Env).

(** What a series of [execute] calls on one adapter answered, call by call. *)
Fixpoint execute_log (a : Adapter) (calls : list AdapterRequest) (w : World)
  : list (Result AdapterResponse) :=
  match calls with
  | [] => []
  | request :: rest =>
      (execute env a request w).1 :: execute_log a rest (execute env a request w).2
  end.

End CallLog.

(** An answer of [execute] is a success response. *)
Definition is_success (r : Result AdapterResponse) : bool :=
  match r with
  | Ok response => success response
  | Throw _ => false
  end.

(** Number of success responses in a series of answers. *)
Definition successes (log : list (Result AdapterResponse)) : Z :=
  Z.of_nat (length (filter (fun r => is_success r = true) log)).

(** The metrics after a counted success with the given duration. *)
Definition counted_success (m : AdapterMetrics) (duration : Z) : AdapterMetrics :=
  mkAdapterMetrics (requestsTotal m + 1) (requestsSuccess m + 1) (requestsFailed m)
    ((avgResponseTime m * (inject_Z (requestsSuccess m + 1) - 1) + inject_Z duration)
       / inject_Z (requestsSuccess m + 1))
    (totalBytesProcessed m).

(** The metrics after a counted failure. *)
Definition counted_failure (m : AdapterMetrics) : AdapterMetrics :=
  mkAdapterMetrics (requestsTotal m + 1) (requestsSuccess m) (requestsFailed m + 1)
                   (avgResponseTime m) (totalBytesProcessed m).

(** A deployment whose endpoint answers every request with the same
    response. *)
Module Answering.

Definition env (response : HttpResponse) : Env :=
  mkEnv (fun _ _ => Responds response)
        (fun k => 1700000000000 + 25 * Z.of_nat k)
        (fun _ => Throw Sample.codec_error)
        (fun _ => Throw Sample.codec_error).

Definition json_body : HttpResponse :=
  mkHttpResponse (VObj [("id", num_Z 7)]) 200 [("content-type", "application/json")].

Definition text_body : HttpResponse :=
  mkHttpResponse (VStr "<orders/>") 200 [("content-type", "application/xml")].

(** An adapter that expects XML. *)
Definition xml_adapter : Adapter :=
  mkAdapter (mkAdapterConfig "legacy-orders" SrcXml TgtJson None
                             (Some "http://legacy.example/orders") None None)
            default_retryPolicy 1%positive.

(** An adapter whose policy has a negative [maxRetries]. *)
Definition impatient_adapter : Adapter :=
  mkAdapter Sample.config (mkRetryPolicy (-1) 1000 10000 2) 1%positive.

Definition post_request : AdapterRequest :=
  mkAdapterRequest None POST None None (VObj [("qty", num_Z 2)]) None.

(** An adapter without an endpoint. *)
Definition offline_adapter : Adapter :=
  mkAdapter (mkAdapterConfig "legacy-orders" SrcJson TgtJson None None None None)
            default_retryPolicy 1%positive.

(** An adapter from CSV to CSV. *)
Definition csv_adapter : Adapter :=
  mkAdapter (mkAdapterConfig "legacy-orders" SrcCsv TgtCsv None
                             (Some "http://legacy.example/orders") None None)
            default_retryPolicy 1%positive.

(** A CSV text of three lines: a header, a full row, a short row. *)
Definition orders_csv : string :=
  "name, qty" +:+ String Str.newline ("bolt,4" +:+ String Str.newline "nut").

End Answering.
(** * Properties *)

(** ** Retry executor *)

Section RetryExecutor.
Context (env : Env).

Lemma attempt_request_unfold a request w :
  attempt_request env a request w =
  (match transport env (requests w) (request_config a request) with
   | Responds r => Ok (raw_of r)
   | Rejects e => Throw (ThrownError e)
   end, after_request (request_config a request) w).
Proof.
  unfold attempt_request, http_request, mbind, M_bind, after_request, request_config.
  destruct (transport env _ _); reflexivity.
Qed.

(** One iteration of the loop. *)
Lemma retry_loop_cons a request attempt rest delay lastError w :
  retry_loop env a request (attempt :: rest) delay lastError w =
  let w1 := after_request (request_config a request) w in
  match transport env (requests w) (request_config a request) with
  | Responds r => (Ok (raw_of r), w1)
  | Rejects e =>
      if attempt <? maxRetries (this_retryPolicy a) then
        retry_loop env a request rest (next_delay (this_retryPolicy a) delay)
                   (ThrownError e) (after_backoff attempt (err_message e) delay w1)
      else retry_loop env a request rest delay (ThrownError e) w1
  end.
Proof.
  cbn [retry_loop]. unfold try_catch. rewrite attempt_request_unfold.
  destruct (transport env _ _) as [r|e]; [reflexivity|].
  cbn zeta. destruct (attempt <? _); reflexivity.
Qed.

Lemma retry_loop_nil a request delay lastError w :
  retry_loop env a request [] delay lastError w = (Throw lastError, w).
Proof. reflexivity. Qed.

Lemma requests_after_request cfg w : requests (after_request cfg w) = S (requests w).
Proof. reflexivity. Qed.

Lemma requests_after_backoff attempt message delay w :
  requests (after_backoff attempt message delay w) = requests w.
Proof. reflexivity. Qed.

Lemma sleeps_after_request cfg w :
  sleeps (trace (after_request cfg w)) = sleeps (trace w).
Proof.
  unfold after_request, emit, sleeps. cbn [trace].
  rewrite omap_app. cbn. apply app_nil_r.
Qed.

Lemma sleeps_after_backoff attempt message delay w :
  sleeps (trace (after_backoff attempt message delay w)) = sleeps (trace w) ++ [delay].
Proof.
  unfold after_backoff, emit, sleeps. cbn [trace].
  rewrite !omap_app. cbn. rewrite app_nil_r. reflexivity.
Qed.

Lemma indices_after_request cfg w :
  request_indices (trace (after_request cfg w)) = request_indices (trace w) ++ [requests w].
Proof.
  unfold after_request, emit, request_indices. cbn [trace].
  rewrite omap_app. reflexivity.
Qed.

Lemma indices_after_backoff attempt message delay w :
  request_indices (trace (after_backoff attempt message delay w)) = request_indices (trace w).
Proof.
  unfold after_backoff, emit, request_indices. cbn [trace].
  rewrite !omap_app. cbn. rewrite !app_nil_r. reflexivity.
Qed.

Lemma heap_after_request cfg w : heap (after_request cfg w) = heap w.
Proof. reflexivity. Qed.

Lemma heap_after_backoff attempt message delay w :
  heap (after_backoff attempt message delay w) = heap w.
Proof. reflexivity. Qed.

Lemma seqZ_S (i : Z) (len : nat) :
  seqZ i (Z.of_nat (S len)) = i :: seqZ (i + 1) (Z.of_nat len).
Proof.
  rewrite seqZ_cons by lia. f_equal. f_equal; lia.
Qed.

(** When every attempt is rejected the loop issues one request per index
    and throws the error of the last one. *)
Lemma retry_loop_all_fail a request :
  forall (len : nat) (failure : nat -> Error) (i : Z) (delay : Q)
         (lastError : Thrown) (w : World),
    remaining a i (S len) ->
    (forall j, (j <= len)%nat ->
       transport env (requests w + j) (request_config a request) = Rejects (failure j)) ->
    exists w',
      retry_loop env a request (seqZ i (Z.of_nat (S len))) delay lastError w
        = (Throw (ThrownError (failure len)), w')
      /\ requests w' = (requests w + S len)%nat
      /\ request_indices (trace w')
         = request_indices (trace w) ++ seq (requests w) (S len)
      /\ sleeps (trace w') = sleeps (trace w) ++ backoff_delays (this_retryPolicy a) len delay
      /\ heap w' = heap w.
Proof.
  induction len as [|len IH]; intros failure i delay lastError w Hrem Hfail.
  - rewrite seqZ_S, retry_loop_cons. cbn zeta.
    specialize (Hfail O (Nat.le_refl _)). rewrite Nat.add_0_r in Hfail. rewrite Hfail.
    unfold remaining in Hrem.
    replace (i <? maxRetries (this_retryPolicy a)) with false
      by (symmetry; apply Z.ltb_ge; lia).
    change (seqZ (i + 1) (Z.of_nat 0)) with (@nil Z). rewrite retry_loop_nil.
    eexists. split; [reflexivity|].
    rewrite requests_after_request, indices_after_request, sleeps_after_request,
      heap_after_request.
    cbn. rewrite app_nil_r. repeat split; try reflexivity. lia.
  - rewrite seqZ_S, retry_loop_cons. cbn zeta.
    pose proof (Hfail O (Nat.le_0_l _)) as H0. rewrite Nat.add_0_r in H0. rewrite H0.
    unfold remaining in Hrem.
    replace (i <? maxRetries (this_retryPolicy a)) with true
      by (symmetry; apply Z.ltb_lt; lia).
    set (w1 := after_backoff _ _ _ _).
    destruct (IH (fun j => failure (S j)) (i + 1) (next_delay (this_retryPolicy a) delay)
                 (ThrownError (failure O)) w1)
      as (w' & Hrun & Hreq & Hidx & Hsl & Hheap).
    + unfold remaining. lia.
    + intros j Hj. subst w1.
      rewrite requests_after_backoff, requests_after_request.
      replace (S (requests w) + j)%nat with (requests w + S j)%nat by lia.
      apply Hfail. lia.
    + exists w'. split; [exact Hrun|].
      subst w1.
      rewrite requests_after_backoff, requests_after_request in Hreq, Hidx.
      rewrite indices_after_backoff, indices_after_request in Hidx.
      rewrite sleeps_after_backoff, sleeps_after_request in Hsl.
      rewrite heap_after_backoff, heap_after_request in Hheap.
      repeat split.
      * lia.
      * rewrite Hidx, <- app_assoc. reflexivity.
      * rewrite Hsl, <- app_assoc. reflexivity.
      * exact Hheap.
Qed.

(** When attempt [j] is the first to be answered the loop returns its
    response after exactly [j + 1] requests. *)
Lemma retry_loop_first_success a request :
  forall (j : nat) (len : nat) (failure : nat -> Error) (r : HttpResponse) (i : Z)
         (delay : Q) (lastError : Thrown) (w : World),
    remaining a i (S len) ->
    (j <= len)%nat ->
    (forall k, (k < j)%nat ->
       transport env (requests w + k) (request_config a request) = Rejects (failure k)) ->
    transport env (requests w + j) (request_config a request) = Responds r ->
    exists w',
      retry_loop env a request (seqZ i (Z.of_nat (S len))) delay lastError w
        = (Ok (raw_of r), w')
      /\ requests w' = (requests w + S j)%nat
      /\ request_indices (trace w')
         = request_indices (trace w) ++ seq (requests w) (S j)
      /\ sleeps (trace w') = sleeps (trace w) ++ backoff_delays (this_retryPolicy a) j delay
      /\ heap w' = heap w.
Proof.
  induction j as [|j IH]; intros len failure r i delay lastError w Hrem Hle Hfail Hok.
  - rewrite seqZ_S, retry_loop_cons. cbn zeta.
    rewrite Nat.add_0_r in Hok. rewrite Hok.
    eexists. split; [reflexivity|].
    rewrite requests_after_request, indices_after_request, sleeps_after_request,
      heap_after_request.
    cbn. rewrite app_nil_r. repeat split; try reflexivity. lia.
  - destruct len as [|len]; [lia|].
    rewrite seqZ_S, retry_loop_cons. cbn zeta.
    pose proof (Hfail O (Nat.lt_0_succ _)) as H0. rewrite Nat.add_0_r in H0. rewrite H0.
    unfold remaining in Hrem.
    replace (i <? maxRetries (this_retryPolicy a)) with true
      by (symmetry; apply Z.ltb_lt; lia).
    set (w1 := after_backoff _ _ _ _).
    destruct (IH len (fun k => failure (S k)) r (i + 1)
                 (next_delay (this_retryPolicy a) delay) (ThrownError (failure O)) w1)
      as (w' & Hrun & Hreq & Hidx & Hsl & Hheap).
    + unfold remaining. lia.
    + lia.
    + intros k Hk. subst w1.
      rewrite requests_after_backoff, requests_after_request.
      replace (S (requests w) + k)%nat with (requests w + S k)%nat by lia.
      apply Hfail. lia.
    + subst w1. rewrite requests_after_backoff, requests_after_request.
      replace (S (requests w) + j)%nat with (requests w + S j)%nat by lia.
      exact Hok.
    + exists w'. split; [exact Hrun|].
      subst w1.
      rewrite requests_after_backoff, requests_after_request in Hreq, Hidx.
      rewrite indices_after_backoff, indices_after_request in Hidx.
      rewrite sleeps_after_backoff, sleeps_after_request in Hsl.
      rewrite heap_after_backoff, heap_after_request in Hheap.
      repeat split.
      * lia.
      * rewrite Hidx, <- app_assoc. reflexivity.
      * rewrite Hsl, <- app_assoc. reflexivity.
      * exact Hheap.
Qed.

(** Whatever the transport answers, the loop issues at least one and at
    most [len + 1] requests, sleeps the first delays of the schedule, one
    per request but the last, and leaves the metrics alone. *)
Lemma retry_loop_any a request :
  forall (len : nat) (i : Z) (delay : Q) (lastError : Thrown) (w : World),
    remaining a i (S len) ->
    exists k : nat,
      (k <= len)%nat
      /\ requests (retry_loop env a request (seqZ i (Z.of_nat (S len))) delay lastError w).2
         = (requests w + S k)%nat
      /\ sleeps (trace (retry_loop env a request (seqZ i (Z.of_nat (S len))) delay lastError w).2)
         = sleeps (trace w) ++ backoff_delays (this_retryPolicy a) k delay
      /\ heap (retry_loop env a request (seqZ i (Z.of_nat (S len))) delay lastError w).2
         = heap w.
Proof.
  induction len as [|len IH]; intros i delay lastError w Hrem; unfold remaining in Hrem.
  - exists O. rewrite seqZ_S, retry_loop_cons. cbn zeta.
    replace (i <? maxRetries (this_retryPolicy a)) with false
      by (symmetry; apply Z.ltb_ge; lia).
    change (seqZ (i + 1) (Z.of_nat 0)) with (@nil Z).
    destruct (transport env _ _); rewrite ?retry_loop_nil; cbn [snd];
      rewrite requests_after_request, sleeps_after_request, heap_after_request;
      cbn; rewrite app_nil_r; repeat split; lia.
  - rewrite seqZ_S, retry_loop_cons. cbn zeta.
    replace (i <? maxRetries (this_retryPolicy a)) with true
      by (symmetry; apply Z.ltb_lt; lia).
    destruct (transport env _ _) as [r|e].
    + exists O. cbn [snd].
      rewrite requests_after_request, sleeps_after_request, heap_after_request.
      cbn. rewrite app_nil_r. repeat split; lia.
    + set (w1 := after_backoff _ _ _ _).
      destruct (IH (i + 1) (next_delay (this_retryPolicy a) delay) (ThrownError e) w1)
        as (k & Hk & Hreq & Hsl & Hheap); [unfold remaining; lia|].
      exists (S k). subst w1.
      rewrite requests_after_backoff, requests_after_request in Hreq.
      rewrite sleeps_after_backoff, sleeps_after_request in Hsl.
      rewrite heap_after_backoff, heap_after_request in Hheap.
      repeat split; [lia | lia | | exact Hheap].
      rewrite Hsl, <- app_assoc. reflexivity.
Qed.

Lemma executeWithRetry_unfold a request (n : nat) w :
  maxRetries (this_retryPolicy a) = Z.of_nat n ->
  executeWithRetry env a request w =
  retry_loop env a request (seqZ 0 (Z.of_nat (S n)))
             (initialDelayMs (this_retryPolicy a)) ThrownNull w.
Proof.
  intros Hn. unfold executeWithRetry, attempt_indices. rewrite Hn.
  do 2 f_equal. lia.
Qed.

Lemma remaining_start a (n : nat) :
  maxRetries (this_retryPolicy a) = Z.of_nat n -> remaining a 0 (S n).
Proof. unfold remaining. lia. Qed.






(** C1.  With [maxRetries = n]: when every attempt is rejected,
    [executeWithRetry] issues exactly [n + 1] requests and throws the
    error of the last of them; when attempt [j] is the first to be
    answered it returns that response after exactly [j + 1] requests;
    and with [n = 0] it issues exactly one request whatever the answer. *)
Theorem executeWithRetry_attempts (a : Adapter) (request : AdapterRequest)
        (w : World) (n : nat) :
  maxRetries (this_retryPolicy a) = Z.of_nat n ->
  (forall failure : nat -> Error,
      (forall j, (j <= n)%nat ->
         transport env (requests w + j) (request_config a request) = Rejects (failure j)) ->
      exists w',
        executeWithRetry env a request w = (Throw (ThrownError (failure n)), w')
        /\ requests w' = (requests w + (n + 1))%nat
        /\ request_indices (trace w')
           = request_indices (trace w) ++ seq (requests w) (n + 1))
  /\ (forall (j : nat) (failure : nat -> Error) (r : HttpResponse),
        (j <= n)%nat ->
        (forall k, (k < j)%nat ->
           transport env (requests w + k) (request_config a request) = Rejects (failure k)) ->
        transport env (requests w + j) (request_config a request) = Responds r ->
        exists w',
          executeWithRetry env a request w = (Ok (raw_of r), w')
          /\ requests w' = (requests w + (j + 1))%nat
          /\ request_indices (trace w')
             = request_indices (trace w) ++ seq (requests w) (j + 1))
  /\ (n = O -> requests (executeWithRetry env a request w).2 = (requests w + 1)%nat).
Proof.
  intros Hn. split; [|split].
  - intros failure Hfail.
    destruct (retry_loop_all_fail a request n failure 0 (initialDelayMs (this_retryPolicy a))
                ThrownNull w (remaining_start a n Hn) Hfail)
      as (w' & Hrun & Hreq & Hidx & _ & _).
    exists w'. rewrite (executeWithRetry_unfold a request n w Hn), Nat.add_1_r.
    auto.
  - intros j failure r Hj Hfail Hok.
    destruct (retry_loop_first_success a request j n failure r 0
                (initialDelayMs (this_retryPolicy a)) ThrownNull w
                (remaining_start a n Hn) Hj Hfail Hok)
      as (w' & Hrun & Hreq & Hidx & _ & _).
    exists w'. rewrite (executeWithRetry_unfold a request n w Hn), Nat.add_1_r.
    auto.
  - intros ->.
    rewrite (executeWithRetry_unfold a request O w Hn).
    destruct (retry_loop_any a request O 0 (initialDelayMs (this_retryPolicy a))
                ThrownNull w (remaining_start a O Hn))
      as (k & Hk & Hreq & _ & _).
    rewrite Hreq. lia.
Qed.



End RetryExecutor.

(** A run of C1 on the sample deployment: four requests, the fourth
    refusal is the one thrown. *)
Lemma executeWithRetry_attempts_witness :
  maxRetries (this_retryPolicy Sample.adapter) = Z.of_nat 3
  /\ exists w',
      executeWithRetry Sample.unreachable Sample.adapter
                       Sample.get_request Sample.world
        = (Throw (ThrownError (Sample.refusal 3)), w')
      /\ requests w' = 4%nat.
Proof.
  split; [reflexivity|].
  destruct (executeWithRetry_attempts Sample.unreachable
              Sample.adapter Sample.get_request Sample.world 3 eq_refl) as [Hall _].
  destruct (Hall Sample.refusal) as (w' & Hrun & Hreq & _); [intros; reflexivity|].
  exists w'. split; [exact Hrun | exact Hreq].
Defined.


(** ** Plain objects *)

Section ObjFacts.

Lemma assignable_eqb k : assignable k -> String.eqb k "__proto__" = false.
Proof. intros Hk. apply String.eqb_neq. exact Hk. Qed.

(** A written property holds the value, when the name is one an
    assignment creates or the object owns it already. *)
Lemma lookup_set_eq k v o :
  assignable k \/ Obj.has k o = true -> Obj.lookup k (Obj.set k v o) = Some v.
Proof.
  induction o as [|[k' v'] o IH]; intros Hk; cbn.
  - destruct Hk as [Hk|Hk]; [|discriminate].
    rewrite (assignable_eqb k Hk). cbn. rewrite String.eqb_refl. reflexivity.
  - destruct (String.eqb_spec k k') as [->|Hne]; cbn.
    + rewrite String.eqb_refl. reflexivity.
    + destruct (String.eqb_spec k k'); [contradiction|]. apply IH.
      destruct Hk as [Hk|Hk]; [left; exact Hk | right].
      unfold Obj.has in *. cbn in Hk.
      destruct (String.eqb_spec k k'); [contradiction | exact Hk].
Qed.

Lemma lookup_set_ne k k' v o : k <> k' -> Obj.lookup k (Obj.set k' v o) = Obj.lookup k o.
Proof.
  intros Hne. induction o as [|[k0 v0] o IH]; cbn.
  - destruct (String.eqb k' "__proto__"); cbn; [reflexivity|].
    destruct (String.eqb_spec k k'); [contradiction|]. reflexivity.
  - destruct (String.eqb_spec k' k0) as [->|Hne0]; cbn.
    + destruct (String.eqb_spec k k0); [contradiction|]. reflexivity.
    + destruct (String.eqb_spec k k0); [reflexivity|]. exact IH.
Qed.

Lemma has_set k k' v o :
  assignable k' \/ Obj.has k' o = true ->
  Obj.has k (Obj.set k' v o) = String.eqb k k' || Obj.has k o.
Proof.
  intros Hk'. unfold Obj.has. destruct (String.eqb_spec k k') as [->|Hne].
  - rewrite lookup_set_eq by exact Hk'. reflexivity.
  - rewrite lookup_set_ne by exact Hne. reflexivity.
Qed.

(** Writing a property that exists keeps the property order. *)
Lemma keys_set_present k v o : Obj.has k o = true -> Obj.keys (Obj.set k v o) = Obj.keys o.
Proof.
  unfold Obj.has, Obj.keys. induction o as [|[k' v'] o IH]; cbn; [discriminate|].
  destruct (String.eqb_spec k k') as [->|Hne]; cbn; [reflexivity|].
  intros Hhas. f_equal. apply IH. exact Hhas.
Qed.

(** Writing a new property appends it. *)
Lemma set_absent k v o :
  assignable k -> Obj.has k o = false -> Obj.set k v o = o ++ [(k, v)].
Proof.
  intros Hk. unfold Obj.has. induction o as [|[k' v'] o IH]; cbn.
  - rewrite (assignable_eqb k Hk). reflexivity.
  - destruct (String.eqb_spec k k') as [->|Hne]; [discriminate|].
    intros Hhas. f_equal. apply IH. exact Hhas.
Qed.

(** Writing [__proto__] to an object that does not own it stores
    nothing. *)
Lemma set_proto v o : Obj.has "__proto__" o = false -> Obj.set "__proto__" v o = o.
Proof.
  generalize (eq_refl "__proto__"). generalize "__proto__" at 1 3 4 as k.
  intros k Hk. unfold Obj.has. induction o as [|[k' v'] o IH]; cbn [Obj.set Obj.lookup].
  - rewrite Hk, String.eqb_refl. reflexivity.
  - destruct (String.eqb_spec k k') as [->|Hne]; [discriminate|].
    intros Hhas. f_equal. apply IH. exact Hhas.
Qed.


Lemma lookup_get k o v : Obj.lookup k o = Some v -> Obj.get k o = v.
Proof. unfold Obj.get. intros ->. reflexivity. Qed.

End ObjFacts.

(** ** Inherited names *)

Lemma own_only_inherits (key : string) (v : Value) : own_only key -> inherits key v = false.
Proof.
intros Hown. unfold inherits.
destruct (existsb (String.eqb key) inherited_names) eqn:Hex; [|apply andb_false_r].
exfalso. apply Hown. apply existsb_exists in Hex as (name & Hin & Heq).
apply String.eqb_eq in Heq as ->. exact Hin.
Qed.

Lemma inherited_name (key : string) :
existsb (String.eqb key) inherited_names = true <-> In key inherited_names.
Proof.
rewrite existsb_exists. split.
- intros (name & Hin & Heq). apply String.eqb_eq in Heq as ->. exact Hin.
- intros Hin. exists key. split; [exact Hin | apply String.eqb_refl].
Qed.

(** ** Schema mapper *)

Section SchemaMapperFacts.
Context {host : Platform}.

(** For a name no object inherits the membership test on a plain object
    is the test for an own property. *)
Lemma has_prop_record (k : string) (o : Props) :
  own_only k -> has_prop k (VObj o) = Ok (Obj.has k o).
Proof.
  intros Hown. cbn [has_prop owns]. rewrite (own_only_inherits k (VObj o) Hown), orb_false_r.
  reflexivity.
Qed.

(** On a plain object neither the membership test nor the read throws,
    so the loop of [mapFields] is a fold. *)
Lemma mapFields_loop_object (o : Props) :
  forall (entries : list (string * string)) (result : Props),
    Forall own_only (map fst entries) ->
    mapFields_loop (VObj o) entries result = Ok (select_fields o entries result).
Proof.
  induction entries as [|[s t] entries IH]; intros result Hown; [reflexivity|].
  cbn [map fst] in Hown. apply Forall_cons in Hown as [Hs Hown].
  cbn [mapFields_loop select_fields]. rewrite (has_prop_record s o Hs).
  cbn [mbind Result_bind get_prop].
  destruct (Obj.has s o); apply IH; exact Hown.
Qed.

Lemma select_fields_has (o : Props) (t : string) :
  forall (entries : list (string * string)) (result : Props),
    Forall assignable (map snd entries) ->
    Obj.has t (select_fields o entries result) = true <->
    Obj.has t result = true \/
    exists s, In (s, t) entries /\ Obj.has s o = true.
Proof.
  induction entries as [|[s t'] entries IH]; intros result Hok; cbn.
  - split; [auto | intros [?|(s & [] & _)]; assumption].
  - cbn in Hok. apply Forall_cons in Hok as [Ht' Hok].
    destruct (Obj.has s o) eqn:Hs; rewrite IH by exact Hok;
      [rewrite has_set by (left; exact Ht')|].
    + split.
      * intros [Hin|(s' & Hin & Hs')]; [|eauto].
        apply orb_true_iff in Hin as [Heq|Hin]; [|auto].
        apply String.eqb_eq in Heq as ->. eauto.
      * intros [Hin|(s' & [Heq|Hin] & Hs')].
        -- left. rewrite Hin. apply orb_true_r.
        -- injection Heq as -> ->. left. rewrite String.eqb_refl. reflexivity.
        -- eauto.
    + split.
      * intros [Hin|(s' & Hin & Hs')]; eauto.
      * intros [Hin|(s' & [Heq|Hin] & Hs')]; [auto | | eauto].
        injection Heq as -> ->. congruence.
Qed.

(** A target that no later entry writes keeps its value. *)
Lemma select_fields_lookup_other (o : Props) (t : string) :
  forall (entries : list (string * string)) (result : Props),
    ~ In t (map snd entries) ->
    Obj.lookup t (select_fields o entries result) = Obj.lookup t result.
Proof.
  induction entries as [|[s t'] entries IH]; intros result Hnot; cbn; [reflexivity|].
  cbn in Hnot.
  destruct (Obj.has s o); rewrite IH by tauto; [|reflexivity].
  apply lookup_set_ne. intros ->. tauto.
Qed.

(** With distinct target names every entry copies its source field. *)
Lemma select_fields_lookup (o : Props) :
  forall (entries : list (string * string)) (result : Props) (s t : string),
    NoDup (map snd entries) ->
    Forall assignable (map snd entries) ->
    In (s, t) entries ->
    Obj.has t result = false ->
    Obj.lookup t (select_fields o entries result) = Obj.lookup s o.
Proof.
  induction entries as [|[s' t'] entries IH]; intros result s t Hnd Hok Hin Hfresh;
    [destruct Hin|].
  cbn in Hnd. apply NoDup_cons in Hnd as [Hnot Hnd]. rewrite list_elem_of_In in Hnot.
  cbn in Hok. apply Forall_cons in Hok as [Ht' Hok].
  destruct Hin as [Heq|Hin]; cbn.
  - injection Heq as -> ->.
    destruct (Obj.has s o) eqn:Hs; rewrite select_fields_lookup_other by exact Hnot.
    + rewrite lookup_set_eq by (left; exact Ht'). unfold Obj.get, Obj.has in *.
      destruct (Obj.lookup s o); [reflexivity | discriminate].
    + unfold Obj.has in *.
      destruct (Obj.lookup s o); [discriminate|].
      destruct (Obj.lookup t result); [discriminate | reflexivity].
  - assert (t <> t') as Hne.
    { intros ->. apply Hnot. apply (in_map snd) in Hin. exact Hin. }
    destruct (Obj.has s' o); apply IH; try assumption.
    rewrite has_set by (left; exact Ht').
    rewrite Hfresh. destruct (String.eqb_spec t t'); [contradiction | reflexivity].
Qed.

Lemma applyTransforms_not_array (data : Value) (ts : list FieldTransform) :
  isArray data = false -> applyTransforms data ts = Ok data.
Proof. destruct data; cbn; intros Harr; solve [reflexivity | discriminate]. Qed.

(** C2, as the code has it.  With a non-empty [sourceFields] whose
    source names are names no object inherits and whose target names are
    names an assignment creates, and a plain object as decoded value, the
    mapper answers a new object whose fields are exactly the target names
    of the entries whose source name is a field of the input, each holding
    the value of its source field (target names distinct); [fieldsMapped]
    is the number of entries whatever the number of source fields present.
    Mapping a to x and b to y applied to a=1, b=2, c=3 gives x=1, y=2 and
    [fieldsMapped] 2. *)
Theorem applySchemaMapping_selects (config : AdapterConfig) (sm : SchemaMapping)
        (mapping : list (string * string)) (o : Props) :
  schemaMapping config = Some sm ->
  sourceFields sm = Some mapping ->
  mapping <> [] ->
  Forall own_only (map fst mapping) ->
  Forall assignable (map snd mapping) ->
  (exists result : Props,
      applySchemaMapping config (VObj o)
        = Ok (mkMappingResult (VObj result) (Z.of_nat (length mapping))
                              (Z.of_nat (length (default [] (transforms sm)))))
      /\ (forall t, Obj.has t result = true <->
                    exists s, In (s, t) mapping /\ Obj.has s o = true)
      /\ (NoDup (map snd mapping) ->
          forall s t, In (s, t) mapping -> Obj.lookup t result = Obj.lookup s o))
  /\ applySchemaMapping
       (mkAdapterConfig "example" SrcJson TgtJson
          (Some (mkSchemaMapping (Some [("a", "x"); ("b", "y")]) None None)) None None None)
       (VObj [("a", num_Z 1); ("b", num_Z 2); ("c", num_Z 3)])
     = Ok (mkMappingResult (VObj [("x", num_Z 1); ("y", num_Z 2)]) 2 0).
Proof.
  intros Hsm Hsrc Hne Hown Hok. split; [|reflexivity].
  exists (select_fields o mapping []).
  split; [|split].
  - unfold applySchemaMapping. rewrite Hsm, Hsrc. cbn [typeof String.eqb].
    change (String.eqb "object" "object") with true. cbn iota.
    unfold mapFields. rewrite mapFields_loop_object by exact Hown.
    cbn [mbind Result_bind fst snd].
    destruct (transforms sm) as [ts|]; reflexivity.
  - intros t. rewrite select_fields_has by exact Hok. split.
    + intros [Hin|Hex]; [discriminate | exact Hex].
    + auto.
  - intros Hnd s t Hin. apply select_fields_lookup; [exact Hnd | exact Hok | exact Hin | reflexivity].
Qed.





(** *** Conversions to a primitive *)

Lemma texts_outcome (items : list Value) :
  Forall text_outcome items ->
  if forallb convertible items
  then exists texts,
      mapR (fun x => if is_nullish x then Ok EmptyString else ToString x) items = Ok texts
  else mapR (fun x => if is_nullish x then Ok EmptyString else ToString x) items
       = Throw not_primitive.
Proof.
  induction 1 as [|x items Hx _ IH]; cbn [forallb mapR]; [eexists; reflexivity|].
  unfold text_outcome in Hx.
  destruct (convertible x) eqn:Hc; cbn [andb].
  - assert (exists text, (if is_nullish x then Ok EmptyString else ToString x) = Ok text)
      as (text & ->).
    { destruct (is_nullish x); [eexists; reflexivity | exact Hx]. }
    cbn [mbind Result_bind].
    destruct (forallb convertible items).
    + destruct IH as (texts & ->). eexists. reflexivity.
    + rewrite IH. reflexivity.
  - assert (is_nullish x = false) as ->.
    { destruct x; try reflexivity; discriminate. }
    rewrite Hx. reflexivity.
Qed.

Lemma ToString_outcome : forall v : Value, text_outcome v.
Proof.
  fix IH 1. intros [| |b|n|s|t|items|o]; unfold text_outcome; cbn [convertible].
  - eexists. reflexivity.
  - eexists. reflexivity.
  - eexists. reflexivity.
  - eexists. reflexivity.
  - eexists. reflexivity.
  - destruct t; eexists; reflexivity.
  - pose proof (texts_outcome items
                  ((fix all (l : list Value) : Forall text_outcome l :=
                      match l with
                      | [] => List.Forall_nil _
                      | x :: rest => List.Forall_cons _ x rest (IH x) (all rest)
                      end) items)) as Hitems.
    cbn [ToString]. destruct (forallb convertible items).
    + destruct Hitems as (texts & ->). eexists. reflexivity.
    + rewrite Hitems. reflexivity.
  - cbn [ToString]. destruct (Obj.has "toString" o); cbn; [reflexivity | eexists; reflexivity].
Qed.

Lemma ToNumber_outcome (v : Value) :
  if convertible v then exists n, ToNumber v = Ok n else ToNumber v = Throw not_primitive.
Proof.
  pose proof (ToString_outcome v) as Hv. unfold text_outcome in Hv.
  destruct v as [| |b|n|s|t|items|o]; cbn [convertible ToNumber] in *;
    try (eexists; reflexivity).
  - destruct b; eexists; reflexivity.
  - destruct t; eexists; reflexivity.
  - destruct (forallb convertible items).
    + destruct Hv as (text & ->). eexists. reflexivity.
    + rewrite Hv. reflexivity.
  - destruct (negb (Obj.has "toString" o)).
    + destruct Hv as (text & ->). eexists. reflexivity.
    + rewrite Hv. reflexivity.
Qed.

(** The date transform reads the time of a [Date] object and the text of
    every other value. *)
Lemma date_cases (value : Value) :
  (exists t, value = VDate t)
  \/ (applyTransformValue value TDate
      = (text ← ToString value; VStr <$> toISOString (Date_parse text))
      /\ date_time value = match ToString value with
                           | Ok text => Date_parse text
                           | Throw _ => None
                           end).
Proof. destruct value; try (right; split; reflexivity). left. eauto. Qed.

(** C3, as the code has it.  The boolean, uppercase, lowercase and custom
    transforms answer on every value: boolean with the truthiness, the
    case transforms with the folded text (the upper case is stated for the
    texts whose upper case stays below code unit 256) or the value itself
    when it is not text, custom with the value itself.  The number transform answers
    the numeric coercion (not-a-number for text without a numeric value)
    for every value that has a primitive, and throws a [TypeError] for the
    others.  The date transform answers the canonical timestamp when the
    value is a valid date or its text parses, throws a [RangeError] when the
    value is an invalid date or its text does not parse, and throws a
    [TypeError] when the value has no primitive. *)
Theorem applyTransformValue_outcomes (value : Value) :
  applyTransformValue value TBoolean = Ok (VBool (ToBoolean value))
  /\ applyTransformValue value TCustom = Ok value
  /\ (forall s, value = VStr s ->
        (exists folded, applyTransformValue value TUppercase = Ok (VStr folded))
        /\ (Str.upper_representable s = true ->
            applyTransformValue value TUppercase = Ok (VStr (Str.toUpperCase s)))
        /\ applyTransformValue value TLowercase = Ok (VStr (Str.toLowerCase s)))
  /\ ((forall s, value <> VStr s) ->
        applyTransformValue value TUppercase = Ok value
        /\ applyTransformValue value TLowercase = Ok value)
  /\ (convertible value = true ->
        exists n, applyTransformValue value TNumber = Ok (VNum n))
  /\ (forall s, applyTransformValue (VStr s) TNumber = Ok (VNum (StringToNumber s)))
  /\ (convertible value = false ->
        applyTransformValue value TNumber = Throw not_primitive
        /\ applyTransformValue value TDate = Throw not_primitive)
  /\ (forall t, date_time value = Some t ->
        applyTransformValue value TDate = Ok (VStr (Date_toISOString t)))
  /\ (convertible value = true ->
        date_time value = None ->
        applyTransformValue value TDate = Throw (RangeError "Invalid time value"))
  /\ (forall s, Date_parse s = None ->
        applyTransformValue (VStr s) TDate = Throw (RangeError "Invalid time value")).
Proof.
  pose proof (ToString_outcome value) as Htext. unfold text_outcome in Htext.
  pose proof (ToNumber_outcome value) as Hnum.
  split; [reflexivity|]. split; [reflexivity|]. split.
  { intros s ->. split; [eexists; reflexivity|]. split; [|reflexivity].
    intros _. reflexivity. }
  split.
  { intros Hnot. destruct value; try (split; reflexivity). exfalso. eapply Hnot. reflexivity. }
  split.
  { intros Hc. rewrite Hc in Hnum. destruct Hnum as (n & Hn).
    exists n. cbn. rewrite Hn. reflexivity. }
  split; [reflexivity|]. split.
  { intros Hc. rewrite Hc in Hnum, Htext. split.
    - cbn. rewrite Hnum. reflexivity.
    - destruct (date_cases value) as [(time & ->)|(Hrun & _)]; [discriminate|].
      rewrite Hrun, Htext. reflexivity. }
  destruct (date_cases value) as [(time & ->)|(Hrun & Htime)].
  { split; [intros t Ht; cbn in *; rewrite Ht; reflexivity|].
    split; [intros _ Ht; cbn in *; rewrite Ht; reflexivity|].
    intros s Hs. cbn. rewrite Hs. reflexivity. }
  rewrite Hrun, Htime. split.
  { intros t Ht. destruct (ToString value) as [text|]; [|discriminate].
    cbn. rewrite Ht. reflexivity. }
  split.
  { intros Hc Ht. rewrite Hc in Htext. destruct Htext as (text & Htext).
    rewrite Htext in *. cbn. rewrite Ht. reflexivity. }
  intros s Hs. cbn. rewrite Hs. reflexivity.
Qed.

End SchemaMapperFacts.

Lemma rename_targets_distinct : NoDup (map snd [("a", "x"); ("b", "y")]).
Proof.
  cbn. apply NoDup_cons_2; [|apply NoDup_singleton].
  intros Hin. apply list_elem_of_In in Hin. destruct Hin as [Heq|[]]. discriminate.
Qed.

Lemma rename_sources_own : Forall own_only (map fst [("a", "x"); ("b", "y")]).
Proof.
  repeat constructor; unfold own_only, inherited_names; intros Hin;
    repeat (destruct Hin as [Hin|Hin]; [discriminate|]); exact Hin.
Qed.

Lemma rename_targets_assignable : Forall assignable (map snd [("a", "x"); ("b", "y")]).
Proof. repeat constructor; discriminate. Qed.

(** A target named [__proto__]: the source field is there, the mapper
    counts the entry, and the object it answers has no field. *)
Lemma mapFields_drops_proto_target :
  applySchemaMapping (host := Reference.platform)
    (mkAdapterConfig "example" SrcJson TgtJson
       (Some (mkSchemaMapping (Some [("a", "__proto__")]) None None)) None None None)
    (VObj [("a", num_Z 1)])
  = Ok (mkMappingResult (VObj []) 1 0)
  /\ Obj.has "a" [("a", num_Z 1)] = true.
Proof. split; reflexivity. Qed.

(** The renaming of the specification, run on the sample configuration. *)
Lemma applySchemaMapping_selects_witness :
  exists result : Props,
    applySchemaMapping (host := Reference.platform) Sample.rename_config
                       (VObj [("a", num_Z 1); ("b", num_Z 2); ("c", num_Z 3)])
    = Ok (mkMappingResult (VObj result) 2 0)
    /\ Obj.lookup "x" result = Some (num_Z 1)
    /\ Obj.has "c" result = false.
Proof.
  destruct (applySchemaMapping_selects (host := Reference.platform) Sample.rename_config
              Sample.rename_mapping [("a", "x"); ("b", "y")]
              [("a", num_Z 1); ("b", num_Z 2); ("c", num_Z 3)] eq_refl eq_refl)
    as [(result & Hrun & Hhas & Hval) _];
    [discriminate | exact rename_sources_own | exact rename_targets_assignable |].
  exists result. split; [exact Hrun|]. split.
  - rewrite (Hval rename_targets_distinct "a" "x" ltac:(left; reflexivity)).
    reflexivity.
  - destruct (Obj.has "c" result) eqn:Hc; [|reflexivity].
    apply Hhas in Hc as (s & Hin & _).
    destruct Hin as [Heq|[Heq|[]]]; discriminate.
Defined.




(** C3 on the reference platform: a parsable text, a text without a
    numeric value, and an object with a [toString] field. *)
Lemma applyTransformValue_outcomes_witness :
  applyTransformValue (host := Reference.platform) (VStr "2024-02-29") TDate
  = Ok (VStr "2024-02-29T00:00:00.000Z")
  /\ applyTransformValue (host := Reference.platform) (VStr "abc") TNumber = Ok (VNum NaN)
  /\ applyTransformValue (host := Reference.platform) (VObj [("toString", num_Z 1)]) TNumber
     = Throw not_primitive.
Proof.
  destruct (applyTransformValue_outcomes (host := Reference.platform) (VStr "2024-02-29"))
    as (_ & _ & _ & _ & _ & Hnan & _ & Hdate & _).
  destruct (applyTransformValue_outcomes (host := Reference.platform)
              (VObj [("toString", num_Z 1)]))
    as (_ & _ & _ & _ & _ & _ & Hthrow & _).
  split; [|split].
  - apply (Hdate 1709164800000). reflexivity.
  - apply (Hnan "abc").
  - apply Hthrow. reflexivity.
Defined.

(** The date transform on a text that is not a date: it throws. *)
Lemma date_transform_throws_on_unparsable_text :
  applyTransformValue (host := Reference.platform) (VStr "not a date") TDate
  = Throw (RangeError "Invalid time value").
Proof. reflexivity. Qed.

(** ** Effects and the parts of the world they touch *)

Section Frames.
Context {X : Type} (proj : World -> X).

Lemma preserves_ret {A} (a : A) : preserves proj (mret a : M A).
Proof. intros w. reflexivity. Qed.

Lemma preserves_throw {A} (t : Thrown) : preserves proj (throw t : M A).
Proof. intros w. reflexivity. Qed.

Lemma preserves_lift {A} (r : Result A) : preserves proj (lift r).
Proof. intros w. reflexivity. Qed.

Lemma preserves_bind {A B} (m : M A) (f : A -> M B) :
  preserves proj m -> (forall a, preserves proj (f a)) -> preserves proj (m ≫= f).
Proof.
  intros Hm Hf w. unfold mbind, M_bind. specialize (Hm w).
  destruct (m w) as [[a|t] w1]; cbn in *; [|exact Hm].
  rewrite Hf. exact Hm.
Qed.

Lemma preserves_fmap {A B} (g : A -> B) (m : M A) :
  preserves proj m -> preserves proj (g <$> m).
Proof.
  intros Hm w. unfold fmap, M_fmap. specialize (Hm w).
  destruct (m w) as [[a|t] w1]; exact Hm.
Qed.

Lemma preserves_try_catch {A} (body : M A) (handler : Thrown -> M A) :
  preserves proj body -> (forall t, preserves proj (handler t)) ->
  preserves proj (try_catch body handler).
Proof.
  intros Hb Hh w. unfold try_catch. specialize (Hb w).
  destruct (body w) as [[a|t] w1]; cbn in *; [exact Hb|].
  rewrite Hh. exact Hb.
Qed.

End Frames.

Section EngineFacts.
Context {host : Platform} (env : Env).

Lemma now_heap : preserves heap (now env).
Proof. intros w. reflexivity. Qed.

Lemma timestamp_heap : preserves heap (timestamp env).
Proof. intros w. reflexivity. Qed.

Lemma log_preserves {X} (proj : World -> X) level message meta :
  (forall w ev, proj (emit ev w) = proj w) -> preserves proj (log level message meta).
Proof. intros Hemit w. apply Hemit. Qed.

Lemma sleep_preserves {X} (proj : World -> X) ms :
  (forall w ev, proj (emit ev w) = proj w) -> preserves proj (sleep ms).
Proof. intros Hemit w. apply Hemit. Qed.

Lemma attempt_request_heap a request : preserves heap (attempt_request env a request).
Proof. intros w. rewrite attempt_request_unfold. reflexivity. Qed.

Lemma attempt_request_ticks a request : preserves ticks (attempt_request env a request).
Proof. intros w. rewrite attempt_request_unfold. reflexivity. Qed.

(** The retry loop touches neither the metrics nor the clock, whatever
    the indices it runs over. *)
Lemma retry_loop_preserves {X} (proj : World -> X) a request :
  (forall w ev, proj (emit ev w) = proj w) ->
  preserves proj (attempt_request env a request) ->
  forall attempts delay lastError,
    preserves proj (retry_loop env a request attempts delay lastError).
Proof.
  intros Hemit Hreq. induction attempts as [|attempt rest IH]; intros delay lastError.
  - apply preserves_throw.
  - cbn [retry_loop]. apply preserves_try_catch; [exact Hreq|].
    intros error. cbn zeta. destruct (attempt <? _); [|apply IH].
    apply preserves_bind; [apply preserves_lift|]. intros message.
    apply preserves_bind; [apply log_preserves, Hemit|]. intros _.
    apply preserves_bind; [apply sleep_preserves, Hemit|]. intros _.
    apply IH.
Qed.

Lemma executeWithRetry_heap a request : preserves heap (executeWithRetry env a request).
Proof.
  apply retry_loop_preserves; [reflexivity | apply attempt_request_heap].
Qed.

Lemma executeWithRetry_ticks a request : preserves ticks (executeWithRetry env a request).
Proof.
  apply retry_loop_preserves; [reflexivity | apply attempt_request_ticks].
Qed.

Lemma transform_heap a data target_override :
  preserves heap (transform env a data target_override).
Proof.
  unfold transform. cbn zeta.
  apply preserves_bind; [apply preserves_lift|]. intros decoded.
  apply preserves_bind; [apply preserves_lift|]. intros [[transformedData fieldsMapped] fieldsTransformed].
  apply preserves_bind; [apply preserves_lift|]. intros encoded.
  apply preserves_bind; [apply timestamp_heap|]. intros ts.
  apply preserves_ret.
Qed.

(** The [catch] of [execute] counts one failure; it answers the failure
    response unless the caught value has no message to read. *)
Lemma execute_catch_run a startTime error w :
  exists w',
    execute_catch env a startTime error w
    = (match message_of error with
       | Ok message =>
           Ok (mkAdapterResponse false None (Some message) None None
                 (Some (mkResponseMetadata (clock env (ticks w) - startTime)
                          (Date_toISOString (clock env (S (ticks w))))
                          (name (this_config a)))))
       | Throw t => Throw t
       end, w')
    /\ heap w' = alter incr_requestsFailed (this_metrics a) (heap w).
Proof.
  unfold execute_catch. cbn zeta.
  unfold mbind, M_bind, update_metrics, now, lift, log, timestamp, mret, M_ret. cbn.
  destruct (message_of error); cbn; eexists; split; reflexivity.
Qed.

(** The [try] of [execute] either throws with the metrics untouched, or
    answers a success response after counting one success and updating
    the average. *)
Lemma execute_try_run a request startTime w :
  match execute_try env a request startTime w with
  | (Throw t, w') => heap w' = heap w
  | (Ok response, w') =>
      success response = true
      /\ exists avg,
          heap w' = alter (set_avgResponseTime avg) (this_metrics a)
                      (alter incr_requestsSuccess (this_metrics a) (heap w))
  end.
Proof.
  unfold execute_try. cbn zeta. unfold mbind at 1, M_bind at 1.
  pose proof (executeWithRetry_heap a request w) as Hretry.
  destruct (executeWithRetry env a request w) as [[result|t] w1]; cbn in Hretry;
    [|exact Hretry].
  unfold mbind at 1, M_bind at 1.
  set (step := match req_method request with GET => _ | _ => _ end).
  assert (preserves heap step) as Hstep.
  { subst step. destruct (req_method request);
      solve [apply preserves_ret | apply preserves_fmap, transform_heap]. }
  specialize (Hstep w1). destruct (step w1) as [[transformedData|t] w2]; cbn in Hstep;
    [|congruence].
  unfold mbind, M_bind, update_metrics, now, read_metrics, log, timestamp, mret, M_ret. cbn.
  split; [reflexivity|]. eexists. rewrite Hstep, Hretry. reflexivity.
Qed.

Lemma execute_unfold a request w :
  execute env a request w =
  try_catch (execute_try env a request (clock env (ticks w)))
            (execute_catch env a (clock env (ticks w)))
            (mkWorld (alter incr_requestsTotal (this_metrics a) (heap w))
                     (requests w) (S (ticks w)) (trace w)).
Proof. reflexivity. Qed.

(** What one call of [execute] does to the adapter's metrics object, on
    every path: the total and exactly one of the two outcome counters go
    up by one. *)
Lemma execute_counts a request w m :
  heap w !! this_metrics a = Some m ->
  exists m',
    heap (execute env a request w).2 !! this_metrics a = Some m'
    /\ requestsTotal m' = requestsTotal m + 1
    /\ ((requestsSuccess m' = requestsSuccess m + 1
         /\ requestsFailed m' = requestsFailed m)
        \/ (requestsSuccess m' = requestsSuccess m
            /\ requestsFailed m' = requestsFailed m + 1
            /\ avgResponseTime m' = avgResponseTime m)).
Proof.
  intros Hm. rewrite execute_unfold. unfold try_catch.
  set (w1 := mkWorld _ _ _ _).
  assert (heap w1 !! this_metrics a = Some (incr_requestsTotal m)) as Hm1.
  { subst w1. cbn. rewrite lookup_alter_eq, Hm. reflexivity. }
  pose proof (execute_try_run a request (clock env (ticks w)) w1) as Hrun.
  destruct (execute_try env a request (clock env (ticks w)) w1) as [[response|t] w2].
  2:{ rename Hrun into Hheap.
      destruct (execute_catch_run a (clock env (ticks w)) t w2) as (w3 & Hcatch & Hheap3).
      rewrite Hcatch. cbn [snd]. rewrite Hheap3, Hheap, lookup_alter_eq, Hm1. cbn.
      eexists. split; [reflexivity|]. cbn. split; [reflexivity|]. right. auto. }
  destruct Hrun as (_ & avg & Hheap).
  cbn [snd]. rewrite Hheap, !lookup_alter_eq, Hm1. cbn.
  eexists. split; [reflexivity|]. cbn. split; [reflexivity|]. left. auto.
Qed.

Lemma constructor_run config w :
  constructor config w
  = (Ok (mkAdapter config (default default_retryPolicy (retryPolicy config))
                   (fresh (dom (heap w)))),
     mkWorld (<[fresh (dom (heap w)) := mkAdapterMetrics 0 0 0 0 0]> (heap w))
             (requests w) (ticks w) (trace w)).
Proof. reflexivity. Qed.

Lemma counters_step m m' :
  requestsTotal m' = requestsTotal m + 1 ->
  (requestsSuccess m' = requestsSuccess m + 1 /\ requestsFailed m' = requestsFailed m)
  \/ (requestsSuccess m' = requestsSuccess m /\ requestsFailed m' = requestsFailed m + 1
      /\ avgResponseTime m' = avgResponseTime m) ->
  counters_consistent m -> counters_consistent m'.
Proof. unfold counters_consistent. intros Ht [[Hs Hf]|(Hs & Hf & _)] Hm; lia. Qed.

Lemma execute_all_consistent a :
  forall (calls : list AdapterRequest) (w : World) (m : AdapterMetrics),
    heap w !! this_metrics a = Some m ->
    counters_consistent m ->
    exists m',
      heap (execute_all env a calls w) !! this_metrics a = Some m'
      /\ counters_consistent m'
      /\ requestsTotal m' = requestsTotal m + Z.of_nat (length calls).
Proof.
  induction calls as [|request calls IH]; intros w m Hm Hinv.
  - exists m. cbn. repeat split; [exact Hm | exact Hinv | lia].
  - destruct (execute_counts a request w m Hm) as (m1 & Hm1 & Htotal & Hone).
    destruct (IH _ m1 Hm1 (counters_step m m1 Htotal Hone Hinv)) as (m' & Hm' & Hinv' & Htotal').
    exists m'. cbn [execute_all length]. repeat split; [exact Hm' | exact Hinv' | lia].
Qed.

(** C9.  A constructed adapter starts with all counters at zero, so
    [requestsTotal = requestsSuccess + requestsFailed]; every call of
    [execute], on every path, raises [requestsTotal] by one and exactly
    one of [requestsSuccess] and [requestsFailed] by one, so the equation
    holds again when the call is over, and after any series of calls. *)
Theorem metrics_invariant (a : Adapter) (w : World) (m : AdapterMetrics) :
  heap w !! this_metrics a = Some m ->
  (forall (config : AdapterConfig) (w0 : World),
      exists a0 w1,
        constructor config w0 = (Ok a0, w1)
        /\ heap w1 !! this_metrics a0 = Some (mkAdapterMetrics 0 0 0 0 0)
        /\ counters_consistent (mkAdapterMetrics 0 0 0 0 0))
  /\ (forall request : AdapterRequest,
        exists m',
          heap (execute env a request w).2 !! this_metrics a = Some m'
          /\ requestsTotal m' = requestsTotal m + 1
          /\ ((requestsSuccess m' = requestsSuccess m + 1
               /\ requestsFailed m' = requestsFailed m)
              \/ (requestsSuccess m' = requestsSuccess m
                  /\ requestsFailed m' = requestsFailed m + 1))
          /\ (counters_consistent m -> counters_consistent m'))
  /\ (forall calls : list AdapterRequest,
        counters_consistent m ->
        exists m',
          heap (execute_all env a calls w) !! this_metrics a = Some m'
          /\ counters_consistent m'
          /\ requestsTotal m' = requestsTotal m + Z.of_nat (length calls)).
Proof.
  intros Hm. split; [|split].
  - intros config w0. rewrite constructor_run. do 2 eexists.
    split; [reflexivity|]. cbn. rewrite lookup_insert_eq. split; reflexivity.
  - intros request.
    destruct (execute_counts a request w m Hm) as (m' & Hm' & Htotal & Hone).
    exists m'. repeat split; [exact Hm' | exact Htotal | | ].
    + destruct Hone as [[Hs Hf]|(Hs & Hf & _)]; auto.
    + apply counters_step; assumption.
  - intros calls Hinv. apply execute_all_consistent; assumption.
Qed.

(** C4.  When every attempt of the retry loop is rejected, [execute]
    returns (it does not throw) the failure response: [success] false,
    the message of the last rejection as [error], and the metadata with
    duration, timestamp and adapter name; [requestsTotal] and
    [requestsFailed] are one higher than before, [requestsSuccess] and
    [avgResponseTime] are what they were. *)
Theorem execute_all_attempts_rejected (a : Adapter) (request : AdapterRequest) (w : World)
        (m : AdapterMetrics) (n : nat) (failure : nat -> Error) :
  maxRetries (this_retryPolicy a) = Z.of_nat n ->
  (forall j, (j <= n)%nat ->
     transport env (requests w + j) (request_config a request) = Rejects (failure j)) ->
  heap w !! this_metrics a = Some m ->
  exists w',
    execute env a request w
    = (Ok (mkAdapterResponse false None (Some (err_message (failure n))) None None
             (Some (mkResponseMetadata
                      (clock env (S (ticks w)) - clock env (ticks w))
                      (Date_toISOString (clock env (S (S (ticks w)))))
                      (name (this_config a))))), w')
    /\ heap w' !! this_metrics a
       = Some (mkAdapterMetrics (requestsTotal m + 1) (requestsSuccess m)
                                (requestsFailed m + 1) (avgResponseTime m)
                                (totalBytesProcessed m)).
Proof.
  intros Hn Hfail Hm. rewrite execute_unfold. unfold try_catch.
  set (w1 := mkWorld _ _ _ _).
  destruct (retry_loop_all_fail env a request n failure 0
              (initialDelayMs (this_retryPolicy a)) ThrownNull w1
              (remaining_start a n Hn) Hfail)
    as (w2 & Hrun & _ & _ & _ & Hheap).
  rewrite <- (executeWithRetry_unfold env a request n w1 Hn) in Hrun.
  pose proof (executeWithRetry_ticks a request w1) as Hticks.
  rewrite Hrun in Hticks. cbn in Hticks.
  assert (execute_try env a request (clock env (ticks w)) w1
          = (Throw (ThrownError (failure n)), w2)) as Htry.
  { unfold execute_try. cbn zeta. unfold mbind at 1, M_bind at 1. rewrite Hrun. reflexivity. }
  rewrite Htry.
  destruct (execute_catch_run a (clock env (ticks w)) (ThrownError (failure n)) w2)
    as (w3 & Hcatch & Hheap3).
  exists w3. rewrite Hcatch, Hticks. cbn [message_of]. split; [reflexivity|].
  rewrite Hheap3, Hheap. subst w1. cbn [heap].
  rewrite !lookup_alter_eq, Hm. reflexivity.
Qed.

End EngineFacts.

(** ** Metrics snapshots *)

Lemma fresh_not_allocated (h : gmap loc AdapterMetrics) : h !! fresh (dom h) = None.
Proof. apply not_elem_of_dom. apply is_fresh. Qed.

Lemma getMetrics_run (a : Adapter) (w : World) :
  getMetrics a w
  = (Ok (fresh (dom (heap w))),
     mkWorld (<[fresh (dom (heap w)) := metrics_at w (this_metrics a)]> (heap w))
             (requests w) (ticks w) (trace w)).
Proof. reflexivity. Qed.

(** C10.  [getMetrics] answers a new object that holds the counters of the
    adapter's metrics object and is not that object: overwriting the
    answer changes neither the adapter's metrics nor what a later call of
    [getMetrics] answers, which is again a new object with the adapter's
    counters. *)
Theorem getMetrics_fresh_copy (a : Adapter) (w : World) (m : AdapterMetrics) :
  heap w !! this_metrics a = Some m ->
  exists l w1,
    getMetrics a w = (Ok l, w1)
    /\ l <> this_metrics a
    /\ heap w !! l = None
    /\ heap w1 !! l = Some m
    /\ heap w1 !! this_metrics a = Some m
    /\ forall m' : AdapterMetrics,
        heap (overwrite l m' w1) !! this_metrics a = Some m
        /\ exists l2 w3,
            getMetrics a (overwrite l m' w1) = (Ok l2, w3)
            /\ l2 <> l
            /\ l2 <> this_metrics a
            /\ heap w3 !! l2 = Some m
            /\ heap w3 !! this_metrics a = Some m.
Proof.
  intros Hm. rewrite getMetrics_run. do 2 eexists. split; [reflexivity|].
  assert (fresh (dom (heap w)) <> this_metrics a) as Hne.
  { intros Heq. pose proof (fresh_not_allocated (heap w)) as Hfresh.
    rewrite Heq, Hm in Hfresh. discriminate. }
  assert (metrics_at w (this_metrics a) = m) as Hat.
  { unfold metrics_at. rewrite Hm. reflexivity. }
  split; [exact Hne|]. split; [apply fresh_not_allocated|]. cbn [heap].
  split; [rewrite lookup_insert_eq, Hat; reflexivity|].
  split; [rewrite lookup_insert_ne by exact Hne; exact Hm|].
  intros m'. set (w2 := overwrite _ _ _).
  assert (heap w2 !! this_metrics a = Some m) as Hm2.
  { subst w2. cbn. rewrite !lookup_insert_ne by exact Hne. exact Hm. }
  split; [exact Hm2|].
  rewrite getMetrics_run. do 2 eexists. split; [reflexivity|].
  assert (fresh (dom (heap w2)) <> this_metrics a) as Hne2.
  { intros Heq. pose proof (fresh_not_allocated (heap w2)) as Hfresh.
    rewrite Heq, Hm2 in Hfresh. discriminate. }
  assert (fresh (dom (heap w2)) <> fresh (dom (heap w))) as Hne3.
  { intros Heq. pose proof (fresh_not_allocated (heap w2)) as Hfresh.
    rewrite Heq in Hfresh. subst w2. cbn in Hfresh.
    rewrite lookup_insert_eq in Hfresh. discriminate. }
  split; [exact Hne3|]. split; [exact Hne2|]. cbn [heap].
  split.
  - rewrite lookup_insert_eq. unfold metrics_at. rewrite Hm2. reflexivity.
  - rewrite lookup_insert_ne by exact Hne2. exact Hm2.
Qed.

Lemma sample_metrics :
  heap Sample.world !! this_metrics Sample.adapter = Some (mkAdapterMetrics 7 5 2 40 0).
Proof. apply lookup_singleton_eq. Qed.

(** C4 on the sample deployment: the endpoint refuses all four attempts. *)
Lemma execute_all_attempts_rejected_witness :
  exists w',
    execute (host := Reference.platform) Sample.unreachable Sample.adapter
            Sample.get_request Sample.world
    = (Ok (mkAdapterResponse false None (Some "connect ECONNREFUSED (request 3)") None None
             (Some (mkResponseMetadata 25 "2023-11-14T22:13:20.050Z" "legacy-orders"))), w')
    /\ heap w' !! this_metrics Sample.adapter = Some (mkAdapterMetrics 8 5 3 40 0).
Proof.
  destruct (execute_all_attempts_rejected (host := Reference.platform) Sample.unreachable
              Sample.adapter Sample.get_request Sample.world (mkAdapterMetrics 7 5 2 40 0)
              3 Sample.refusal eq_refl)
    as (w' & Hrun & Hm); [intros; reflexivity | exact sample_metrics |].
  exists w'. split; [exact Hrun | exact Hm].
Defined.

(** C9 on the sample deployment: two calls in a row. *)
Lemma metrics_invariant_witness :
  counters_consistent (mkAdapterMetrics 7 5 2 40 0)
  /\ exists m',
      heap (execute_all (host := Reference.platform) Sample.unreachable Sample.adapter
              [Sample.get_request; Sample.get_request] Sample.world)
        !! this_metrics Sample.adapter = Some m'
      /\ counters_consistent m'
      /\ requestsTotal m' = 9.
Proof.
  split; [reflexivity|].
  destruct (metrics_invariant (host := Reference.platform) Sample.unreachable Sample.adapter
              Sample.world (mkAdapterMetrics 7 5 2 40 0) sample_metrics)
    as (_ & _ & Hcalls).
  destruct (Hcalls [Sample.get_request; Sample.get_request] eq_refl) as (m' & Hm' & Hinv & Htotal).
  exists m'. split; [exact Hm'|]. split; [exact Hinv | exact Htotal].
Defined.

(** C10 on the sample deployment: the snapshot is overwritten with zeros. *)
Lemma getMetrics_fresh_copy_witness :
  exists l w1,
    getMetrics Sample.adapter Sample.world = (Ok l, w1)
    /\ l <> this_metrics Sample.adapter
    /\ heap (overwrite l zero_metrics w1) !! this_metrics Sample.adapter
       = Some (mkAdapterMetrics 7 5 2 40 0).
Proof.
  destruct (getMetrics_fresh_copy Sample.adapter Sample.world (mkAdapterMetrics 7 5 2 40 0)
              sample_metrics)
    as (l & w1 & Hrun & Hne & _ & _ & _ & Hlater).
  exists l, w1. split; [exact Hrun|]. split; [exact Hne|].
  apply (Hlater zero_metrics).
Defined.

(** ** Schema inference *)

Lemma is_nullish_get (key : string) (record : Props) :
is_nullish (Obj.get key record) = true <-> null_or_missing key record.
Proof.
unfold Obj.get, null_or_missing.
destruct (Obj.lookup key record) as [v|].
- destruct v; cbn; split; intros Hv; try discriminate; auto;
    destruct Hv as [Hv|[Hv|Hv]]; congruence.
- cbn. split; auto.
Qed.

Lemma inherits_record (key : string) (record : Props) :
inherits key (VObj record) = true <-> Obj.lookup key record = None /\ ~ own_only key.
Proof.
unfold inherits, owns, Obj.has, own_only. rewrite andb_true_iff, negb_true_iff.
pose proof (inherited_name key) as Hname.
destruct (existsb (String.eqb key) inherited_names);
  destruct (Obj.lookup key record); split; intros [Hl Hin]; try discriminate.
- split; [reflexivity|]. intros Hnot. apply Hnot, Hname. reflexivity.
- split; reflexivity.
- exfalso. apply Hin. intros Hyes. apply Hname in Hyes. discriminate.
Qed.

Lemma someR_missing_at (key : string) :
forall records : list Props,
  someR (Infer.missing_at key) (map VObj records)
  = Ok (existsb (fun record => is_nullish (Obj.get key record)
                               && negb (inherits key (VObj record))) records).
Proof.
induction records as [|record records IH]; [reflexivity|].
cbn [map someR existsb].
change (Infer.missing_at key (VObj record))
  with (Ok (A := bool) (is_nullish (Obj.get key record) && negb (inherits key (VObj record)))).
cbn [mbind Result_bind].
destruct (is_nullish (Obj.get key record) && negb (inherits key (VObj record)));
  [reflexivity | exact IH].
Qed.

Lemma mapR_get_prop (key : string) :
forall records : list Props,
  mapR (fun item => get_prop item key) (map VObj records) = Ok (map (Obj.get key) records).
Proof.
induction records as [|record records IH]; [reflexivity|].
cbn [map mapR get_prop]. rewrite IH. reflexivity.
Qed.

Lemma array_field_records (records : list Props) (entry : string * Value) :
Infer.array_field (map VObj records) entry = Ok (inferred_field records entry).
Proof.
destruct entry as [key value]. unfold Infer.array_field, inferred_field.
rewrite someR_missing_at. cbn [mbind Result_bind].
rewrite firstn_map, mapR_get_prop. reflexivity.
Qed.

Lemma mapR_array_field (records : list Props) :
forall entries : list (string * Value),
  mapR (Infer.array_field (map VObj records)) entries = Ok (map (inferred_field records) entries).
Proof.
induction entries as [|entry entries IH]; [reflexivity|].
cbn [map mapR]. rewrite array_field_records, IH. reflexivity.
Qed.

Lemma infer_fields_records (first : Props) (rest : list Props) :
Infer.infer_fields (VArr (map VObj (first :: rest)))
= Ok (map (inferred_field (first :: rest)) first).
Proof.
unfold Infer.infer_fields. cbn [map].
change (Infer.is_object (VObj first)) with true. cbn iota.
change (Object_entries (VObj first)) with (Ok first). cbn [mbind Result_bind].
apply (mapR_array_field (first :: rest)).
Qed.

(** For a name no object inherits the field is the one the specification
    describes. *)
Lemma inferred_field_described (records : list Props) (entry : string * Value) :
own_only entry.1 -> inferred_field records entry = described_field records entry.
Proof.
intros Hown. unfold inferred_field, described_field. f_equal.
induction records as [|record records IH]; [reflexivity|].
cbn [existsb]. rewrite IH, (own_only_inherits _ _ Hown), andb_true_r. reflexivity.
Qed.

(** Whether the inferred field is nullable. *)
Lemma inferred_field_nullable (records : list Props) (entry : string * Value) :
if_nullable (inferred_field records entry) = true <->
exists record,
  In record records
  /\ (Obj.lookup entry.1 record = Some VNull
      \/ Obj.lookup entry.1 record = Some VUndefined
      \/ (Obj.lookup entry.1 record = None /\ own_only entry.1)).
Proof.
cbn [inferred_field if_nullable]. rewrite existsb_exists.
split; intros (record & Hin & Hrecord); exists record; (split; [exact Hin|]).
- apply andb_true_iff in Hrecord as [Hnull Hinh]. apply negb_true_iff in Hinh.
  apply is_nullish_get in Hnull as [Hnone|[Hnull|Hundef]]; [|auto|auto].
  right. right. split; [exact Hnone|].
  intros Hnot. assert (inherits entry.1 (VObj record) = true) as Hyes.
  { apply inherits_record. split; [exact Hnone|]. intros Hown. exact (Hown Hnot). }
  congruence.
- apply andb_true_iff. split.
  + apply is_nullish_get. unfold null_or_missing. tauto.
  + apply negb_true_iff. destruct (inherits entry.1 (VObj record)) eqn:Hinh; [|reflexivity].
    apply inherits_record in Hinh as [Hnone Hnot].
    destruct Hrecord as [Hr|[Hr|[_ Hown]]]; [congruence | congruence | contradiction].
Qed.

(** C8, as the code has it.  On a non-empty array of records
    [inferSchema] answers one field per field of the first record, in its
    order and under its name; the type is the one inferred from the first
    record's value; at most five values are sampled.  [nullable] is true
    exactly when some record of the whole array holds [null] or
    [undefined] at the field, or lacks the field and the name is not one
    every object inherits.  When no name of the first record is inherited,
    [nullable] is true exactly when some record is null or missing at the
    field, and [sampleValues] are the values of the first five records.  On
    id=1, name=x followed by id=2, name=null it answers id as a number
    that is not nullable and name as a string that is nullable. *)
Theorem inferSchema_record_array (first : Props) (rest : list Props)
        (c : option Q) (ft : option (list (string * string))) :
exists schema : InferredSchema,
  Infer.inferSchema (mkSchemaInferenceOptions (VArr (map VObj (first :: rest))) c ft)
  = Ok schema
  /\ map if_name (is_fields schema) = Obj.keys first
  /\ map if_type (is_fields schema) = map (fun entry => Infer.inferFieldType entry.2) first
  /\ (forall f, In f (is_fields schema) ->
        (if_nullable f = true <->
         exists record,
           In record (first :: rest)
           /\ (Obj.lookup (if_name f) record = Some VNull
               \/ Obj.lookup (if_name f) record = Some VUndefined
               \/ (Obj.lookup (if_name f) record = None /\ own_only (if_name f))))
        /\ (length (if_sampleValues f) <= 5)%nat)
  /\ (Forall own_only (Obj.keys first) ->
      is_fields schema = map (described_field (first :: rest)) first
      /\ forall f, In f (is_fields schema) ->
          (if_nullable f = true <->
           exists record, In record (first :: rest) /\ null_or_missing (if_name f) record)
          /\ if_sampleValues f = map (Obj.get (if_name f)) (take 5 (first :: rest)))
  /\ is_fields <$> Infer.inferSchema
       (mkSchemaInferenceOptions
          (VArr [VObj [("id", num_Z 1); ("name", VStr "x")];
                 VObj [("id", num_Z 2); ("name", VNull)]]) None None)
     = Ok [mkInferredField "id" FNumber false [num_Z 1; num_Z 2];
           mkInferredField "name" FString true [VStr "x"; VNull]].
Proof.
eexists. split.
{ unfold Infer.inferSchema. cbn [sampleData]. rewrite infer_fields_records.
  cbn [mbind Result_bind]. reflexivity. }
cbn [is_fields]. split; [|split; [|split; [|split]]].
- unfold Obj.keys. rewrite map_map. reflexivity.
- rewrite map_map. reflexivity.
- intros f Hf. apply in_map_iff in Hf as (entry & <- & _). split.
  + apply inferred_field_nullable.
  + cbn [inferred_field if_sampleValues]. rewrite length_map, length_take. lia.
- intros Hown.
  assert (map (inferred_field (first :: rest)) first
          = map (described_field (first :: rest)) first) as Heq.
  { apply map_ext_in. intros entry Hin. apply inferred_field_described.
    rewrite Forall_forall in Hown. apply Hown, list_elem_of_In.
    apply (in_map fst) in Hin. exact Hin. }
  split; [exact Heq|]. rewrite Heq.
  intros f Hf. apply in_map_iff in Hf as (entry & <- & _).
  cbn [described_field if_nullable if_name if_sampleValues]. split; [|reflexivity].
  rewrite existsb_exists. split.
  + intros (record & Hin & Hnull). exists record. split; [exact Hin|].
    apply is_nullish_get. exact Hnull.
  + intros (record & Hin & Hnull). exists record. split; [exact Hin|].
    apply is_nullish_get. exact Hnull.
- reflexivity.
Qed.

(** A field named like a member every object inherits: the second record
    lacks it, and the field is not nullable. *)
Lemma inferSchema_inherited_name :
(fun schema => map if_nullable (is_fields schema))
  <$> Infer.inferSchema
        (mkSchemaInferenceOptions (VArr [VObj [("toString", num_Z 1)]; VObj []]) None None)
= Ok [false]
/\ null_or_missing "toString" [].
Proof. split; [reflexivity | left; reflexivity]. Qed.

Lemma sample_names_own : Forall own_only (Obj.keys [("id", num_Z 1); ("name", VStr "x")]).
Proof.
repeat constructor; unfold own_only, inherited_names; intros Hin;
  repeat (destruct Hin as [Hin|Hin]; [discriminate|]); exact Hin.
Qed.

(** C8 on the sample of the specification. *)
Lemma inferSchema_record_array_witness :
exists schema : InferredSchema,
  Infer.inferSchema
    (mkSchemaInferenceOptions
       (VArr [VObj [("id", num_Z 1); ("name", VStr "x")];
              VObj [("id", num_Z 2); ("name", VNull)]]) None None) = Ok schema
  /\ map if_name (is_fields schema) = ["id"; "name"]
  /\ map if_type (is_fields schema) = [FNumber; FString]
  /\ map if_nullable (is_fields schema) = [false; true].
Proof.
destruct (inferSchema_record_array [("id", num_Z 1); ("name", VStr "x")]
            [[("id", num_Z 2); ("name", VNull)]] None None)
  as (schema & Hrun & Hnames & Htypes & _ & Hfields & _).
exists schema. split; [exact Hrun|]. split; [exact Hnames|]. split; [exact Htypes|].
destruct (Hfields sample_names_own) as [-> _]. reflexivity.
Defined.

(** ** CSV codec *)

(** *** Splitting and joining *)

Lemma append_cons (c : ascii) (s t : string) : String c s +:+ t = String c (s +:+ t).
Proof. reflexivity. Qed.

Lemma append_empty_l (s : string) : EmptyString +:+ s = s.
Proof. reflexivity. Qed.

Lemma occurs_append (c : ascii) (s t : string) :
occurs c (s +:+ t) = occurs c s || occurs c t.
Proof.
induction s as [|c' s IH]; [reflexivity|].
rewrite append_cons. cbn [occurs]. rewrite IH. apply orb_assoc.
Qed.

Lemma split_without (sep : ascii) (s : string) :
occurs sep s = false -> Str.split sep s = [s].
Proof.
induction s as [|c s IH]; [reflexivity|].
cbn [occurs Str.split]. intros Hocc. apply orb_false_iff in Hocc as [Hc Hs].
rewrite Hc, (IH Hs). reflexivity.
Qed.

Lemma split_append_sep (sep : ascii) (s t : string) :
occurs sep s = false ->
Str.split sep (s +:+ String sep t) = s :: Str.split sep t.
Proof.
induction s as [|c s IH]; intros Hocc.
- rewrite append_empty_l. cbn [Str.split]. rewrite Ascii.eqb_refl. reflexivity.
- cbn [occurs] in Hocc. apply orb_false_iff in Hocc as [Hc Hs].
  rewrite append_cons. cbn [Str.split]. rewrite Hc, (IH Hs). reflexivity.
Qed.

Lemma join_cons (sep : ascii) (piece next : string) (rest : list string) :
Str.join (Str.of_char sep) (piece :: next :: rest)
= piece +:+ String sep (Str.join (Str.of_char sep) (next :: rest)).
Proof. reflexivity. Qed.

(** Splitting a joined list gives the list back when no piece holds the
    separator. *)
Lemma split_join (sep : ascii) :
forall pieces : list string,
  pieces <> [] ->
  Forall (fun piece => occurs sep piece = false) pieces ->
  Str.split sep (Str.join (Str.of_char sep) pieces) = pieces.
Proof.
induction pieces as [|piece rest IH]; intros Hne Hall; [contradiction|].
apply Forall_cons in Hall as [Hpiece Hrest].
destruct rest as [|next rest].
- cbn [Str.join]. apply split_without. exact Hpiece.
- rewrite join_cons, split_append_sep by exact Hpiece.
  f_equal. apply IH; [discriminate | exact Hrest].
Qed.

Lemma occurs_join (c sep : ascii) :
Ascii.eqb sep c = false ->
forall pieces : list string,
  Forall (fun piece => occurs c piece = false) pieces ->
  occurs c (Str.join (Str.of_char sep) pieces) = false.
Proof.
intros Hsep. induction pieces as [|piece rest IH]; intros Hall; [reflexivity|].
apply Forall_cons in Hall as [Hpiece Hrest].
destruct rest as [|next rest]; [exact Hpiece|].
rewrite join_cons, occurs_append, Hpiece. cbn [occurs orb]. rewrite Hsep.
apply IH. exact Hrest.
Qed.

(** *** Trimming *)

Lemma trim_end_nonempty (c : ascii) (s : string) :
Str.is_space c = false -> Str.trim_end (s +:+ Str.of_char c) = s +:+ Str.of_char c.
Proof.
intros Hc. induction s as [|a s IH].
- change (Str.trim_end (String c EmptyString) = String c EmptyString).
  cbn [Str.trim_end]. rewrite Hc. reflexivity.
- rewrite append_cons. cbn [Str.trim_end]. rewrite IH.
  destruct s; reflexivity.
Qed.

Lemma trim_nonblank (c : ascii) (s : string) :
Str.is_space c = false -> Str.is_empty (Str.trim (String c s)) = false.
Proof.
intros Hc. unfold Str.trim. cbn [Str.trim_start]. rewrite Hc. cbn [Str.trim_end].
destruct (Str.trim_end s); [rewrite Hc|]; reflexivity.
Qed.

Lemma trim_start_length (s : string) :
(String.length (Str.trim_start s) <= String.length s)%nat.
Proof.
induction s as [|c s IH]; [reflexivity|].
cbn [Str.trim_start]. destruct (Str.is_space c); cbn [String.length]; lia.
Qed.

Lemma trim_end_length (s : string) :
(String.length (Str.trim_end s) <= String.length s)%nat.
Proof.
induction s as [|c s IH]; [reflexivity|].
cbn [Str.trim_end]. destruct (Str.trim_end s) as [|c' kept].
- destruct (Str.is_space c); cbn [String.length Str.of_char]; lia.
- cbn [String.length] in *. lia.
Qed.

Lemma trim_length (s : string) : (String.length (Str.trim s) <= String.length s)%nat.
Proof.
unfold Str.trim. etransitivity; [apply trim_end_length | apply trim_start_length].
Qed.

(** A text that trimming leaves alone does not start with white space. *)
Lemma trimmed_starts_nonspace (c : ascii) (s : string) :
Str.trim (String c s) = String c s -> Str.is_space c = false.
Proof.
intros Htrim. destruct (Str.is_space c) eqn:Hc; [|reflexivity].
exfalso. unfold Str.trim in Htrim. cbn [Str.trim_start] in Htrim. rewrite Hc in Htrim.
pose proof (trim_length s) as Hlen. unfold Str.trim in Hlen. rewrite Htrim in Hlen.
cbn [String.length] in Hlen. lia.
Qed.

(** *** JSON text of a string *)

Lemma escape_char_no_newline (c : ascii) : occurs Str.newline (JSON_escape_char c) = false.
Proof. destruct c as [[] [] [] [] [] [] [] []]; reflexivity. Qed.

Lemma escape_char_no_comma (c : ascii) :
Ascii.eqb c Str.comma = false -> occurs Str.comma (JSON_escape_char c) = false.
Proof. destruct c as [[] [] [] [] [] [] [] []]; vm_compute; intros Hc; congruence. Qed.

Lemma escape_no_newline (s : string) : occurs Str.newline (JSON_escape s) = false.
Proof.
induction s as [|c s IH]; [reflexivity|].
cbn [JSON_escape]. rewrite occurs_append, escape_char_no_newline, IH. reflexivity.
Qed.

Lemma escape_no_comma (s : string) :
occurs Str.comma s = false -> occurs Str.comma (JSON_escape s) = false.
Proof.
induction s as [|c s IH]; [reflexivity|].
cbn [occurs JSON_escape]. intros Hocc. apply orb_false_iff in Hocc as [Hc Hs].
rewrite occurs_append, (escape_char_no_comma c Hc), (IH Hs). reflexivity.
Qed.

Lemma quote_no_newline (s : string) : occurs Str.newline (JSON_quote s) = false.
Proof.
unfold JSON_quote. cbn [occurs]. rewrite occurs_append, escape_no_newline. reflexivity.
Qed.

Lemma quote_no_comma (s : string) :
occurs Str.comma s = false -> occurs Str.comma (JSON_quote s) = false.
Proof.
intros Hs. unfold JSON_quote. cbn [occurs]. rewrite occurs_append, (escape_no_comma s Hs).
reflexivity.
Qed.

Lemma trim_quote (s : string) : Str.trim (JSON_quote s) = JSON_quote s.
Proof.
unfold Str.trim, JSON_quote. cbn [Str.trim_start]. change (Str.is_space Str.quote) with false.
cbn iota. rewrite <- append_cons. apply trim_end_nonempty. reflexivity.
Qed.

(** *** Decoding one row *)

Lemma has_app (k : string) (o1 o2 : Props) :
Obj.has k (o1 ++ o2) = Obj.has k o1 || Obj.has k o2.
Proof.
unfold Obj.has. induction o1 as [|[k' v'] o1 IH]; cbn; [reflexivity|].
destruct (String.eqb k k'); [reflexivity | exact IH].
Qed.

(** With distinct, trimmed headers that an assignment creates and that
    the row does not hold yet, the [forEach] of [parseCSV] appends one
    field per header, holding the trimmed cell at the header's position. *)
Lemma parseCSV_row_cells (g : string -> string) :
forall (hs before : list string) (row : Props),
  NoDup hs ->
  Forall (fun h => Str.trim h = h) hs ->
  Forall assignable hs ->
  Forall (fun h => Obj.has h row = false) hs ->
  parseCSV_row hs (length before) (before ++ map g hs) row
  = row ++ map (fun h => (h, VStr (Str.trim (g h)))) hs.
Proof.
induction hs as [|h hs IH]; intros before row Hnd Htrim Hok Hfresh.
- cbn. rewrite app_nil_r. reflexivity.
- apply NoDup_cons in Hnd as [Hnot Hnd].
  apply Forall_cons in Htrim as [Hh Htrim].
  apply Forall_cons in Hok as [Hassign Hok].
  apply Forall_cons in Hfresh as [Hrow Hfresh].
  cbn [parseCSV_row map]. unfold trimmed_cell.
  rewrite (list_lookup_middle before (map g hs) (g h) (length before) eq_refl).
  rewrite Hh, (set_absent h _ row Hassign Hrow).
  replace (S (length before)) with (length (before ++ [g h]))
    by (rewrite length_app; cbn; lia).
  replace (before ++ g h :: map g hs) with ((before ++ [g h]) ++ map g hs)
    by (rewrite <- app_assoc; reflexivity).
  rewrite IH; [rewrite <- app_assoc; reflexivity | exact Hnd | exact Htrim | exact Hok |].
  apply Forall_forall. intros h' Hin.
  rewrite has_app. rewrite Forall_forall in Hfresh. rewrite (Hfresh h' Hin).
  unfold Obj.has. cbn. destruct (String.eqb_spec h' h) as [->|Hne]; [|reflexivity].
  exfalso. apply Hnot. exact Hin.
Qed.

(** *** Encoding *)

Section CsvFacts.
Context {host : Platform}.

Lemma toCSV_cells (record : Props) :
forall hs : list string,
  flat_texts hs record ->
  mapR (fun h => toCSV_cell <$> get_prop (VObj record) h) hs
  = Ok (map (fun h => JSON_quote (text_at h record)) hs).
Proof.
unfold flat_texts. induction hs as [|h hs IH]; intros Hflat; [reflexivity|].
apply Forall_cons in Hflat as [(s & Hs & _) Hflat].
cbn [mapR map]. rewrite (IH Hflat). cbn [get_prop].
unfold text_at, Obj.get. rewrite Hs. reflexivity.
Qed.

Lemma toCSV_rows (headers : list string) :
forall records : list Props,
  Forall (flat_texts headers) records ->
  mapR (fun item =>
          cells ← mapR (fun h => toCSV_cell <$> get_prop item h) headers;
          Ok (Str.join "," cells)) (map VObj records)
  = Ok (map (encoded_row headers) records).
Proof.
induction records as [|record records IH]; intros Hflat; [reflexivity|].
apply Forall_cons in Hflat as [Hrecord Hflat].
cbn [mapR map]. rewrite (toCSV_cells record headers Hrecord), (IH Hflat). reflexivity.
Qed.

Lemma toCSV_records (first : Props) (rest : list Props) :
Forall (flat_texts (Obj.keys first)) (first :: rest) ->
toCSV (VArr (map VObj (first :: rest)))
= Ok (Str.join (Str.of_char Str.newline)
        (Str.join (Str.of_char Str.comma) (Obj.keys first)
           :: map (encoded_row (Obj.keys first)) (first :: rest))).
Proof.
intros Hflat. unfold toCSV. cbn [map].
change (Object_keys (VObj first)) with (Ok (Obj.keys first)). cbn [mbind Result_bind].
pose proof (toCSV_rows (Obj.keys first) (first :: rest) Hflat) as Hrows.
cbn [map] in Hrows. rewrite Hrows. reflexivity.
Qed.

End CsvFacts.

(** *** Decoding what was encoded *)

Lemma encoded_row_no_newline (headers : list string) (record : Props) :
occurs Str.newline (encoded_row headers record) = false.
Proof.
unfold encoded_row. apply occurs_join; [reflexivity|].
apply Forall_forall. intros cell Hin. apply list_elem_of_In, in_map_iff in Hin as (h & <- & _).
apply quote_no_newline.
Qed.

Lemma encoded_row_split (headers : list string) (record : Props) :
headers <> [] ->
flat_texts headers record ->
Str.split Str.comma (encoded_row headers record)
= map (fun h => JSON_quote (text_at h record)) headers.
Proof.
intros Hne Hflat. unfold encoded_row. apply split_join.
- destruct headers; [contradiction | discriminate].
- apply Forall_forall. intros cell Hin.
  apply list_elem_of_In, in_map_iff in Hin as (h & <- & Hh).
  unfold flat_texts in Hflat. rewrite Forall_forall in Hflat.
  destruct (Hflat h (proj2 (list_elem_of_In _ _) Hh)) as (s & Hs & Hclean).
  unfold text_at. rewrite Hs. apply quote_no_comma. exact Hclean.
Qed.

Lemma encoded_row_nonblank (headers : list string) (record : Props) :
headers <> [] ->
Str.is_empty (Str.trim (encoded_row headers record)) = false.
Proof.
intros Hne. destruct headers as [|h hs]; [contradiction|].
unfold encoded_row. cbn [map]. destruct (map _ hs);
  [cbn [Str.join] | rewrite join_cons]; unfold JSON_quote; rewrite ?append_cons;
  apply trim_nonblank; reflexivity.
Qed.

Lemma header_line_nonblank (headers : list string) :
headers <> [] ->
headers <> [EmptyString] ->
Forall clean_key headers ->
Str.is_empty (Str.trim (Str.join (Str.of_char Str.comma) headers)) = false.
Proof.
intros Hne Hne' Hclean. destruct headers as [|h hs]; [contradiction|].
apply Forall_cons in Hclean as [(_ & _ & Htrim) _].
destruct h as [|c h].
- destruct hs as [|h' hs]; [contradiction|].
  rewrite join_cons, append_empty_l. apply trim_nonblank. reflexivity.
- pose proof (trimmed_starts_nonspace c h Htrim) as Hc.
  destruct hs; [cbn [Str.join] | rewrite join_cons, append_cons]; apply trim_nonblank; exact Hc.
Qed.

Lemma filter_all {A : Type} (P : A -> Prop) `{forall x, Decision (P x)} :
forall l : list A, Forall P l -> filter P l = l.
Proof.
induction l as [|x l IH]; intros Hall; [reflexivity|].
apply Forall_cons in Hall as [Hx Hl].
rewrite filter_cons_True by exact Hx. f_equal. apply IH. exact Hl.
Qed.

Lemma header_line_split (headers : list string) :
headers <> [] ->
Forall clean_key headers ->
Str.split Str.comma (Str.join (Str.of_char Str.comma) headers) = headers.
Proof.
intros Hne Hclean. apply split_join; [exact Hne|].
eapply Forall_impl; [exact Hclean|]. intros h (Hcomma & _). exact Hcomma.
Qed.

Lemma header_line_no_newline (headers : list string) :
Forall clean_key headers ->
occurs Str.newline (Str.join (Str.of_char Str.comma) headers) = false.
Proof.
intros Hclean. apply occurs_join; [reflexivity|].
eapply Forall_impl; [exact Hclean|]. intros h (_ & Hnl & _). exact Hnl.
Qed.

(** Decoding the line of one record. *)
Lemma decode_encoded_row (headers : list string) (record : Props) :
headers <> [] ->
NoDup headers ->
Forall clean_key headers ->
Forall assignable headers ->
flat_texts headers record ->
parseCSV_row headers 0 (Str.split Str.comma (encoded_row headers record)) []
= quoted_row headers record.
Proof.
intros Hne Hnd Hclean Hok Hflat.
rewrite (encoded_row_split headers record Hne Hflat).
pose proof (parseCSV_row_cells (fun h => JSON_quote (text_at h record)) headers [] [] Hnd)
  as Hrow.
cbn [length app] in Hrow. rewrite Hrow.
- unfold quoted_row. apply map_ext. intros h. rewrite trim_quote. reflexivity.
- eapply Forall_impl; [exact Hclean|]. intros h (_ & _ & Htrim). exact Htrim.
- exact Hok.
- apply Forall_forall. intros h _. reflexivity.
Qed.

Section CsvRoundTrip.
Context {host : Platform}.

(** C5, as the code has it.  Take a non-empty array of records whose
    fields, named by the first record, are distinct clean names that an
    assignment creates (not the empty name alone, not [__proto__]) holding
    comma-free texts.  Encoding it and decoding
    the result gives, for every record, the fields of the first record in
    order, each holding the JSON text of the record's value: the value
    wrapped in double quotes, not the value itself.  For a=1, b=2 the
    decoded record holds the three characters quote, 1, quote under a and
    quote, 2, quote under b. *)
Theorem csv_encode_then_decode (first : Props) (rest : list Props) :
Obj.keys first <> [] ->
Obj.keys first <> [EmptyString] ->
NoDup (Obj.keys first) ->
Forall clean_key (Obj.keys first) ->
Forall assignable (Obj.keys first) ->
Forall (flat_texts (Obj.keys first)) (first :: rest) ->
(exists csv : string,
    toCSV (VArr (map VObj (first :: rest))) = Ok csv
    /\ parseCSV csv = map (quoted_row (Obj.keys first)) (first :: rest))
/\ parseCSV <$> toCSV (VArr [VObj [("a", VStr "1"); ("b", VStr "2")]])
   = Ok [[("a", VStr (String Str.quote (String "1" (String Str.quote EmptyString))));
          ("b", VStr (String Str.quote (String "2" (String Str.quote EmptyString))))]].
Proof.
intros Hne Hne' Hnd Hclean Hok Hflat. split; [|reflexivity].
rewrite (toCSV_records first rest Hflat). eexists. split; [reflexivity|].
set (headers := Obj.keys first) in *.
set (lines := Str.join (Str.of_char Str.comma) headers
              :: map (encoded_row headers) (first :: rest)).
unfold parseCSV.
assert (Str.split Str.newline (Str.join (Str.of_char Str.newline) lines) = lines) as Hsplit.
{ apply split_join; [discriminate|]. subst lines. apply Forall_cons. split.
  - apply header_line_no_newline. exact Hclean.
  - apply Forall_forall. intros line Hin.
    apply list_elem_of_In, in_map_iff in Hin as (record & <- & _).
    apply encoded_row_no_newline. }
rewrite Hsplit.
rewrite (filter_all (fun line => Str.is_empty (Str.trim line) = false) lines).
2:{ subst lines. apply Forall_cons. split.
    - apply header_line_nonblank; assumption.
    - apply Forall_forall. intros line Hin.
      apply list_elem_of_In, in_map_iff in Hin as (record & <- & _).
      apply encoded_row_nonblank. exact Hne. }
subst lines. cbn zeta iota.
rewrite (header_line_split headers Hne Hclean), map_map.
apply map_ext_in. intros record Hin.
apply decode_encoded_row; try assumption.
rewrite Forall_forall in Hflat. apply Hflat, list_elem_of_In. exact Hin.
Qed.

End CsvRoundTrip.

(** The round trip of the specification: the decoded values carry the
    double quotes of the encoder. *)
Lemma csv_round_trip_counterexample :
parseCSV <$> toCSV (host := Reference.platform) (VArr [VObj [("a", VStr "1"); ("b", VStr "2")]])
<> Ok [[("a", VStr "1"); ("b", VStr "2")]].
Proof. vm_compute. discriminate. Qed.

Lemma sample_keys_clean : Forall clean_key ["a"; "b"].
Proof. repeat constructor. Qed.

Lemma sample_keys_assignable : Forall assignable ["a"; "b"].
Proof. repeat constructor; discriminate. Qed.

Lemma sample_keys_distinct : NoDup ["a"; "b"].
Proof.
apply NoDup_cons_2; [|apply NoDup_singleton].
intros Hin. apply list_elem_of_In in Hin. destruct Hin as [Heq|[]]. discriminate.
Qed.

Lemma sample_records_flat :
Forall (flat_texts ["a"; "b"])
       [[("a", VStr "1"); ("b", VStr "2")]; [("a", VStr "3"); ("b", VStr "x y")]].
Proof. repeat constructor; eexists; split; reflexivity. Qed.

(** C5 on two records. *)
Lemma csv_encode_then_decode_witness :
exists csv : string,
  toCSV (host := Reference.platform)
        (VArr [VObj [("a", VStr "1"); ("b", VStr "2")];
               VObj [("a", VStr "3"); ("b", VStr "x y")]]) = Ok csv
  /\ parseCSV csv
     = [[("a", VStr (JSON_quote "1")); ("b", VStr (JSON_quote "2"))];
        [("a", VStr (JSON_quote "3")); ("b", VStr (JSON_quote "x y"))]].
Proof.
destruct (csv_encode_then_decode (host := Reference.platform)
            [("a", VStr "1"); ("b", VStr "2")] [[("a", VStr "3"); ("b", VStr "x y")]]
            ltac:(discriminate) ltac:(discriminate)
            sample_keys_distinct sample_keys_clean sample_keys_assignable sample_records_flat)
  as [(csv & Henc & Hdec) _].
exists csv. split; [exact Henc | exact Hdec].
Defined.

(** * Further properties *)

(** ** CSV decoding *)

Lemma keys_set_congr (k : string) (v v' : Value) :
forall o o' : Props,
  Obj.keys o = Obj.keys o' -> Obj.keys (Obj.set k v o) = Obj.keys (Obj.set k v' o').
Proof.
induction o as [|[k1 v1] o IH]; intros [|[k2 v2] o'] Hkeys; try discriminate.
{ cbn [Obj.set]. destruct (String.eqb k "__proto__"); reflexivity. }
cbn in Hkeys. injection Hkeys as -> Hkeys. cbn [Obj.set].
destruct (String.eqb k k2); cbn; f_equal; [exact Hkeys | apply IH; exact Hkeys].
Qed.

(** The fields of a decoded row depend on the header alone. *)
Lemma parseCSV_row_keys :
forall (hs : list string) (idx idx' : nat) (values values' : list string) (row row' : Props),
  Obj.keys row = Obj.keys row' ->
  Obj.keys (parseCSV_row hs idx values row) = Obj.keys (parseCSV_row hs idx' values' row').
Proof.
induction hs as [|h hs IH]; intros idx idx' values values' row row' Hkeys; [exact Hkeys|].
cbn [parseCSV_row]. apply IH. apply keys_set_congr. exact Hkeys.
Qed.

Lemma lookup_keys (k : string) (o : Props) :
In k (Obj.keys o) <-> Obj.has k o = true.
Proof.
unfold Obj.keys, Obj.has. induction o as [|[k' v'] o IH]; cbn.
- split; [contradiction | discriminate].
- destruct (String.eqb_spec k k') as [->|Hne]; [tauto|].
  rewrite <- IH. split; [intros [Heq|Hin]; [congruence | exact Hin] | auto].
Qed.

Lemma keys_set_NoDup (k : string) (v : Value) (o : Props) :
NoDup (Obj.keys o) -> NoDup (Obj.keys (Obj.set k v o)).
Proof.
intros Hnd. destruct (Obj.has k o) eqn:Hhas.
- rewrite keys_set_present by exact Hhas. exact Hnd.
- destruct (String.eqb_spec k "__proto__") as [->|Hk];
    [rewrite set_proto by exact Hhas; exact Hnd|].
  rewrite set_absent by assumption. unfold Obj.keys in *. rewrite map_app. cbn.
  apply NoDup_app. split; [exact Hnd|]. split; [|apply NoDup_singleton].
  intros x Hx Hx'. apply list_elem_of_In in Hx, Hx'. destruct Hx' as [<-|[]].
  apply lookup_keys in Hx. unfold Obj.keys in Hx. congruence.
Qed.

Lemma parseCSV_row_NoDup :
forall (hs : list string) (idx : nat) (values : list string) (row : Props),
  NoDup (Obj.keys row) -> NoDup (Obj.keys (parseCSV_row hs idx values row)).
Proof.
induction hs as [|h hs IH]; intros idx values row Hnd; [exact Hnd|].
cbn [parseCSV_row]. apply IH, keys_set_NoDup. exact Hnd.
Qed.

Lemma parseCSV_row_has (k : string) :
forall (hs : list string) (idx : nat) (values : list string) (row : Props),
  Forall assignable (map Str.trim hs) ->
  Obj.has k (parseCSV_row hs idx values row) = true
  <-> Obj.has k row = true \/ In k (map Str.trim hs).
Proof.
induction hs as [|h hs IH]; intros idx values row Hok; cbn [parseCSV_row map].
- cbn. tauto.
- cbn [map] in Hok. apply Forall_cons in Hok as [Hh Hok].
  rewrite IH by exact Hok. rewrite has_set by (left; exact Hh).
  cbn [In]. rewrite orb_true_iff, String.eqb_eq. split.
  + intros [[->|Hrow]|Hin]; auto.
  + intros [Hrow|[<-|Hin]]; auto.
Qed.

(** A header that no later cell overwrites keeps its value. *)
Lemma parseCSV_row_lookup_other (k : string) :
forall (hs : list string) (idx : nat) (values : list string) (row : Props),
  ~ In k (map Str.trim hs) ->
  Obj.lookup k (parseCSV_row hs idx values row) = Obj.lookup k row.
Proof.
induction hs as [|h hs IH]; intros idx values row Hnot; [reflexivity|].
cbn [parseCSV_row]. cbn in Hnot. rewrite IH by tauto.
apply lookup_set_ne. intros ->. tauto.
Qed.

(** With distinct header names the field of the header at position [j]
    holds the cell at position [j]. *)
Lemma parseCSV_row_lookup :
forall (hs : list string) (idx : nat) (values : list string) (row : Props) (j : nat) (h : string),
  NoDup (map Str.trim hs) ->
  Forall assignable (map Str.trim hs) ->
  hs !! j = Some h ->
  Obj.lookup (Str.trim h) (parseCSV_row hs idx values row)
  = Some (trimmed_cell values (idx + j)).
Proof.
induction hs as [|h0 hs IH]; intros idx values row j h Hnd Hok Hj; [discriminate|].
cbn [map] in Hnd. apply NoDup_cons in Hnd as [Hnot Hnd]. rewrite list_elem_of_In in Hnot.
cbn [map] in Hok. apply Forall_cons in Hok as [Hh0 Hok].
cbn [parseCSV_row]. destruct j as [|j].
- injection Hj as ->. rewrite parseCSV_row_lookup_other by exact Hnot.
  rewrite lookup_set_eq by (left; exact Hh0). rewrite Nat.add_0_r. reflexivity.
- cbn in Hj. rewrite (IH (S idx) values _ j h Hnd Hok Hj). do 2 f_equal. lia.
Qed.

Lemma parseCSV_row_length :
forall (hs : list string) (idx : nat) (values : list string) (row : Props),
  NoDup (map Str.trim hs) ->
  Forall assignable (map Str.trim hs) ->
  Forall (fun h => Obj.has (Str.trim h) row = false) hs ->
  length (parseCSV_row hs idx values row) = (length row + length hs)%nat.
Proof.
induction hs as [|h hs IH]; intros idx values row Hnd Hok Hfresh; [cbn; lia|].
cbn [map] in Hnd. apply NoDup_cons in Hnd as [Hnot Hnd]. rewrite list_elem_of_In in Hnot.
cbn [map] in Hok. apply Forall_cons in Hok as [Hassign Hok].
apply Forall_cons in Hfresh as [Hh Hfresh].
cbn [parseCSV_row]. rewrite (set_absent _ _ row Hassign Hh), IH.
- rewrite length_app. cbn. lia.
- exact Hnd.
- exact Hok.
- apply Forall_forall. intros h' Hin. rewrite has_app.
  rewrite Forall_forall in Hfresh. rewrite (Hfresh h' Hin).
  unfold Obj.has. cbn. destruct (String.eqb_spec (Str.trim h') (Str.trim h)) as [Heq|Hne];
    [|reflexivity].
  exfalso. apply Hnot. rewrite <- Heq. apply in_map, list_elem_of_In. exact Hin.
Qed.

Lemma parseCSV_length (csv : string) :
length (parseCSV csv) = (length (nonblank_lines csv) - 1)%nat.
Proof.
unfold parseCSV, nonblank_lines.
destruct (filter _ (Str.split Str.newline csv)) as [|first others]; cbn zeta iota.
- reflexivity.
- cbn. rewrite length_map. lia.
Qed.

(** X1.  [parseCSV] answers one row per non-blank line after the first,
    none at all when the text has no row line; no row has a field twice,
    every row has exactly the trimmed header names as fields (when none of
    them is [__proto__]), and all rows list their fields in the same
    order. *)
Theorem parseCSV_rows (csv : string) :
length (parseCSV csv) = (length (nonblank_lines csv) - 1)%nat
/\ (forall row, In row (parseCSV csv) ->
      NoDup (Obj.keys row)
      /\ (Forall assignable (map Str.trim (csv_headers csv)) ->
          forall k, In k (Obj.keys row) <-> In k (map Str.trim (csv_headers csv))))
/\ (forall row row', In row (parseCSV csv) -> In row' (parseCSV csv) ->
      Obj.keys row = Obj.keys row').
Proof.
split; [apply parseCSV_length|].
unfold parseCSV, csv_headers, nonblank_lines.
destruct (filter _ (Str.split Str.newline csv)) as [|first others]; cbn zeta iota.
- split; intros row; contradiction.
- split.
  + intros row Hin. apply in_map_iff in Hin as (line & <- & _). split.
    * apply parseCSV_row_NoDup. constructor.
    * intros Hok k. rewrite lookup_keys, parseCSV_row_has by exact Hok.
      cbn. split; [intros [?|?] | auto];
        [discriminate | assumption].
  + intros row row' Hin Hin'.
    apply in_map_iff in Hin as (line & <- & _). apply in_map_iff in Hin' as (line' & <- & _).
    apply parseCSV_row_keys. reflexivity.
Qed.

(** X2.  With distinct trimmed header names, none of them [__proto__],
    the row decoded from a line holds under the header at position [j] the
    trimmed cell at position [j]; when the line has no cell there (a short
    row) the field is [undefined]; cells beyond the last header are
    dropped. *)
Theorem parseCSV_cells (csv line : string) (j : nat) (h : string) :
NoDup (map Str.trim (csv_headers csv)) ->
Forall assignable (map Str.trim (csv_headers csv)) ->
csv_headers csv !! j = Some h ->
let row := parseCSV_row (csv_headers csv) 0 (Str.split Str.comma line) [] in
(forall cell, Str.split Str.comma line !! j = Some cell ->
   Obj.lookup (Str.trim h) row = Some (VStr (Str.trim cell)))
/\ ((length (Str.split Str.comma line) <= j)%nat ->
    Obj.lookup (Str.trim h) row = Some VUndefined)
/\ length row = length (csv_headers csv)
/\ (forall first others, nonblank_lines csv = first :: others ->
      parseCSV csv = map (fun l => parseCSV_row (csv_headers csv) 0 (Str.split Str.comma l) [])
                         others).
Proof.
intros Hnd Hok Hj row. subst row.
pose proof (parseCSV_row_lookup (csv_headers csv) 0 (Str.split Str.comma line) [] j h Hnd Hok Hj)
  as Hlookup.
cbn [Nat.add] in Hlookup. unfold trimmed_cell in Hlookup.
split; [|split; [|split]].
- intros cell Hcell. rewrite Hlookup, Hcell. reflexivity.
- intros Hshort. rewrite Hlookup, (lookup_ge_None_2 _ _ Hshort). reflexivity.
- rewrite (parseCSV_row_length (csv_headers csv) 0 (Str.split Str.comma line) [] Hnd Hok).
  + reflexivity.
  + apply Forall_forall. intros h' _. reflexivity.
- intros first others Hlines. unfold parseCSV, csv_headers. fold (nonblank_lines csv).
  rewrite Hlines. reflexivity.
Qed.

(** ** Traversals that may throw *)


(** What a traversal throws, one of its callbacks threw. *)
Lemma mapR_throw_only {A B : Type} (f : A -> Result B) (P : Thrown -> Prop) :
forall l : list A,
  (forall x t, In x l -> f x = Throw t -> P t) ->
  forall t, mapR f l = Throw t -> P t.
Proof.
induction l as [|x l IH]; intros Hf t Hrun; cbn in Hrun; [discriminate|].
destruct (f x) as [y|t'] eqn:Hx; cbn in Hrun.
- destruct (mapR f l) as [ys|t'] eqn:Hl; cbn in Hrun; [discriminate|].
  injection Hrun as <-. apply (IH (fun x' t' Hin => Hf x' t' (or_intror Hin)) t' eq_refl).
- injection Hrun as <-. apply (Hf x t' (or_introl eq_refl) Hx).
Qed.

(** A traversal over an element whose callback throws, throws. *)
Lemma mapR_throw_in {A B : Type} (f : A -> Result B) :
forall (l : list A) (x : A) (t : Thrown),
  In x l -> f x = Throw t -> exists t', mapR f l = Throw t'.
Proof.
induction l as [|y l IH]; intros x t Hin Hx; [destruct Hin|]. cbn.
destruct (f y) as [b|t'] eqn:Hy; cbn; [|eauto].
destruct Hin as [->|Hin]; [congruence|].
destruct (IH x t Hin Hx) as (t' & ->). cbn. eauto.
Qed.

Lemma someR_throw_only {A : Type} (f : A -> Result bool) (P : Thrown -> Prop) :
forall l : list A,
  (forall x t, In x l -> f x = Throw t -> P t) ->
  forall t, someR f l = Throw t -> P t.
Proof.
induction l as [|x l IH]; intros Hf t Hrun; cbn in Hrun; [discriminate|].
destruct (f x) as [[|]|t'] eqn:Hx; cbn in Hrun.
- discriminate.
- apply (IH (fun x' t' Hin => Hf x' t' (or_intror Hin)) t Hrun).
- injection Hrun as <-. apply (Hf x t' (or_introl eq_refl) Hx).
Qed.

Lemma get_prop_throws (v : Value) (k : string) (t : Thrown) :
get_prop v k = Throw t -> is_TypeError t /\ is_nullish v = true.
Proof.
destruct v; cbn; intros Hrun; try discriminate.
- injection Hrun as <-. split; [eexists|]; reflexivity.
- injection Hrun as <-. split; [eexists|]; reflexivity.
- destruct (String.eqb k "length"); discriminate.
- destruct (String.eqb k "length"); discriminate.
Qed.

Lemma get_prop_nullish (v : Value) (k : string) :
is_nullish v = true -> exists t, get_prop v k = Throw t.
Proof. destruct v; cbn; intros Hv; try discriminate; eauto. Qed.

(** ** CSV encoding *)

Section CsvEncoding.
Context {host : Platform}.

Lemma toCSV_cells_any (record : Props) :
forall hs : list string,
  mapR (fun h => toCSV_cell <$> get_prop (VObj record) h) hs
  = Ok (map (fun h => toCSV_cell (Obj.get h record)) hs).
Proof.
induction hs as [|h hs IH]; [reflexivity|].
cbn [mapR map]. rewrite IH. reflexivity.
Qed.

Lemma toCSV_rows_any (headers : list string) :
forall records : list Props,
  mapR (fun item =>
          cells ← mapR (fun h => toCSV_cell <$> get_prop item h) headers;
          Ok (Str.join "," cells)) (map VObj records)
  = Ok (map (csv_line headers) records).
Proof.
induction records as [|record records IH]; [reflexivity|].
cbn [mapR map]. rewrite (toCSV_cells_any record headers), IH. reflexivity.
Qed.

(** X3.  On a non-empty array of plain objects whose first record has no
    field named like a member of [Object.prototype], [toCSV] never throws,
    whatever the values: it prints the field names of the first record,
    then one line per record with the JSON texts of its values under those
    names, an absent or null value as an empty quoted text.  Fields that the
    first record lacks are not printed, so two arrays that agree on the
    first record's fields print the same text. *)
Theorem toCSV_plain_objects (first : Props) (rest : list Props) :
Forall own_only (Obj.keys first) ->
toCSV (VArr (map VObj (first :: rest)))
= Ok (Str.join (Str.of_char Str.newline)
        (Str.join "," (Obj.keys first) :: map (csv_line (Obj.keys first)) (first :: rest)))
/\ (forall (record : Props) (h : string),
      is_nullish (Obj.get h record) = true ->
      toCSV_cell (Obj.get h record) = String Str.quote (String Str.quote EmptyString))
/\ (forall rest' : list Props,
      Forall2 (fun r r' => forall h, In h (Obj.keys first) -> Obj.get h r = Obj.get h r')
              rest rest' ->
      toCSV (VArr (map VObj (first :: rest'))) = toCSV (VArr (map VObj (first :: rest)))).
Proof.
intros _.
assert (forall others : list Props,
          toCSV (VArr (map VObj (first :: others)))
          = Ok (Str.join (Str.of_char Str.newline)
                  (Str.join "," (Obj.keys first)
                     :: map (csv_line (Obj.keys first)) (first :: others)))) as Hrun.
{ intros others. unfold toCSV. cbn [map].
  change (Object_keys (VObj first)) with (Ok (Obj.keys first)). cbn [mbind Result_bind].
  pose proof (toCSV_rows_any (Obj.keys first) (first :: others)) as Hrows.
  cbn [map] in Hrows. rewrite Hrows. reflexivity. }
split; [apply Hrun|]. split.
- intros record h Hnull. unfold toCSV_cell. rewrite Hnull. reflexivity.
- intros rest' Hagree. rewrite !Hrun. do 3 f_equal. cbn [map]. f_equal.
  induction Hagree as [|r r' rs rs' Hr _ IH]; [reflexivity|].
  cbn [map]. f_equal; [|exact IH].
  unfold csv_line. f_equal. apply map_ext_in. intros h Hin. rewrite (Hr h Hin). reflexivity.
Qed.

(** X4.  [toCSV] answers the empty text for a value that is not an array
    and for the empty array.  It throws a [TypeError] when the first element
    is [null] or [undefined], and when the first element is a record with a
    field and some element is [null] or [undefined]. *)
Theorem toCSV_edges :
(forall data, isArray data = false -> toCSV data = Ok EmptyString)
/\ toCSV (VArr []) = Ok EmptyString
/\ (forall first rest,
      is_nullish first = true ->
      exists t, toCSV (VArr (first :: rest)) = Throw t /\ is_TypeError t)
/\ (forall (first : Props) (rest : list Value) (item : Value),
      Obj.keys first <> [] ->
      In item rest ->
      is_nullish item = true ->
      exists t, toCSV (VArr (VObj first :: rest)) = Throw t /\ is_TypeError t).
Proof.
split; [|split; [|split]].
- intros data Harr. destruct data; cbn in *; solve [reflexivity | discriminate].
- reflexivity.
- intros first rest Hnull. destruct first; try discriminate; cbn; eexists;
    (split; [reflexivity | eexists; reflexivity]).
- intros first rest item Hkeys Hin Hnull. unfold toCSV.
  change (Object_keys (VObj first)) with (Ok (Obj.keys first)). cbn [mbind Result_bind].
  set (row := fun item : Value => _).
  assert (exists t, row item = Throw t) as (t0 & Hitem).
  { subst row. cbn beta. destruct (Obj.keys first) as [|h hs]; [contradiction|].
    cbn [mapR]. destruct (get_prop_nullish item h Hnull) as (t & ->). cbn. eauto. }
  destruct (mapR_throw_in row (VObj first :: rest) item t0 (or_intror Hin) Hitem) as (t & Hrun).
  exists t. rewrite Hrun. split; [reflexivity|].
  apply (mapR_throw_only row is_TypeError (VObj first :: rest)); [|exact Hrun].
  intros x t' _ Hx. subst row. cbn beta in Hx.
  destruct (mapR _ (Obj.keys first)) as [cells|t''] eqn:Hcells; cbn in Hx; [discriminate|].
  injection Hx as <-.
  apply (mapR_throw_only _ is_TypeError (Obj.keys first)) in Hcells; [exact Hcells|].
  intros h t' _ Hh. destruct (get_prop x h) as [v|t3] eqn:Hget; cbn in Hh; [discriminate|].
  injection Hh as <-. apply (get_prop_throws x h t3 Hget).
Qed.

End CsvEncoding.

(** ** Schema mapper: what reaches the rules, and what can fail *)


Section SchemaMapperEdges.
Context {host : Platform}.



(** X6.  [null] counts as an object for the mapper: with a [sourceFields]
    that has an entry the membership test throws a [TypeError]; with an
    empty [sourceFields] the answer is the empty object.  A value that is not
    an object for [typeof] (text, number, boolean, [undefined]) skips the
    renaming and the rules: it is handed back unchanged with [fieldsMapped]
    0. *)
Theorem applySchemaMapping_non_records (config : AdapterConfig) (sm : SchemaMapping)
        (mapping : list (string * string)) :
schemaMapping config = Some sm ->
sourceFields sm = Some mapping ->
(mapping <> [] ->
 exists t, applySchemaMapping config VNull = Throw t /\ is_TypeError t)
/\ (mapping = [] ->
    applySchemaMapping config VNull
    = Ok (mkMappingResult (VObj []) 0 (Z.of_nat (length (default [] (transforms sm))))))
/\ (forall data,
      String.eqb (typeof data) "object" = false ->
      applySchemaMapping config data
      = Ok (mkMappingResult data 0 (Z.of_nat (length (default [] (transforms sm)))))).
Proof.
intros Hsm Hsrc. split; [|split].
- intros Hne. destruct mapping as [|[s t] mapping]; [contradiction|].
  unfold applySchemaMapping. rewrite Hsm, Hsrc. cbn. eexists.
  split; [reflexivity | eexists; reflexivity].
- intros ->. unfold applySchemaMapping. rewrite Hsm, Hsrc. cbn.
  destruct (transforms sm); reflexivity.
- intros data Htype. unfold applySchemaMapping. rewrite Hsm, Hsrc, Htype.
  cbn [mbind Result_bind fst snd].
  destruct (transforms sm) as [ts|]; cbn; [|reflexivity].
  rewrite applyTransforms_not_array; [reflexivity|].
  destruct data; try reflexivity; discriminate.
Qed.











End SchemaMapperEdges.

(** ** Schema inference: single objects, empty samples, holes *)

Lemma inferSchema_of_fields (options : SchemaInferenceOptions) (fields : list InferredField) :
Infer.infer_fields (sampleData options) = Ok fields ->
exists schema,
  Infer.inferSchema options = Ok schema
  /\ is_fields schema = fields
  /\ is_confidence schema = Qmin 1 (inject_Z (Z.of_nat (length fields)) / 10)
  /\ (fields = [] -> is_suggestions schema = [no_schema_message]).
Proof.
intros Hfields. unfold Infer.inferSchema. rewrite Hfields. cbn [mbind Result_bind].
eexists. split; [reflexivity|]. cbn. repeat split. intros ->. reflexivity.
Qed.

Lemma inferSchema_empty (options : SchemaInferenceOptions) :
Infer.infer_fields (sampleData options) = Ok [] ->
exists schema, Infer.inferSchema options = Ok schema /\ empty_schema schema.
Proof.
intros Hfields. destruct (inferSchema_of_fields options [] Hfields)
  as (schema & Hrun & Hf & Hc & Hs).
exists schema. split; [exact Hrun|]. split; [exact Hf|]. split; [|apply Hs; reflexivity].
rewrite Hc. reflexivity.
Qed.

(** X8.  [inferSchema] finds no field, and says so with confidence zero
    and its one message, when the sample is not an object (text, number,
    boolean, [null], [undefined]), when it is the empty array, and when it
    is an array whose first element is not an object, whatever the later
    elements are. *)
Theorem inferSchema_without_fields (c : option Q) (ft : option (list (string * string))) :
(forall sample,
    Infer.is_object sample = false ->
    exists schema,
      Infer.inferSchema (mkSchemaInferenceOptions sample c ft) = Ok schema
      /\ empty_schema schema)
/\ (exists schema,
      Infer.inferSchema (mkSchemaInferenceOptions (VArr []) c ft) = Ok schema
      /\ empty_schema schema)
/\ (forall first rest,
      Infer.is_object first = false ->
      exists schema,
        Infer.inferSchema (mkSchemaInferenceOptions (VArr (first :: rest)) c ft) = Ok schema
        /\ empty_schema schema).
Proof.
split; [|split].
- intros sample Hobj. apply inferSchema_empty. cbn [sampleData].
  destruct sample; try discriminate; reflexivity.
- apply inferSchema_empty. reflexivity.
- intros first rest Hobj. apply inferSchema_empty. cbn [sampleData Infer.infer_fields].
  rewrite Hobj. reflexivity.
Qed.

Lemma object_field_not_suggested (entry : string * Value) :
Infer.is_string_type (if_type (Infer.object_field entry))
&& existsb Infer.looksLikeDate (if_sampleValues (Infer.object_field entry)) = false.
Proof.
destruct entry as [key value]. cbn.
destruct value; try reflexivity. cbn.
destruct (Infer.matches_ymd s || Infer.matches_mdy s); reflexivity.
Qed.

Lemma object_fields_not_suggested (entries : Props) :
filter (fun f => Infer.is_string_type (if_type f)
                 && existsb Infer.looksLikeDate (if_sampleValues f) = true)
       (map Infer.object_field entries) = [].
Proof.
induction entries as [|entry entries IH]; [reflexivity|].
cbn [map]. rewrite filter_cons_False; [exact IH|].
rewrite object_field_not_suggested. discriminate.
Qed.

(** X9.  On a single record [inferSchema] answers one field per field of
    the record, typed from its value, nullable exactly when the value is
    [null] or [undefined], with the value as only sample.  It never
    suggests a date transform for such a sample: a text that looks like a
    date is typed as a date, and only fields typed as text are suggested. *)
Theorem inferSchema_single_record (record : Props) (c : option Q)
        (ft : option (list (string * string))) :
exists schema : InferredSchema,
  Infer.inferSchema (mkSchemaInferenceOptions (VObj record) c ft) = Ok schema
  /\ is_fields schema
     = map (fun entry => mkInferredField entry.1 (Infer.inferFieldType entry.2)
                                         (is_nullish entry.2) [entry.2]) record
  /\ is_suggestions schema = match record with [] => [no_schema_message] | _ :: _ => [] end
  /\ (is_confidence schema == Qmin 1 (inject_Z (Z.of_nat (length record)) / 10))%Q.
Proof.
eexists. split.
{ unfold Infer.inferSchema, Infer.infer_fields. cbn [sampleData].
  change (Infer.is_object (VObj record)) with true. cbn iota.
  change (Object_entries (VObj record)) with (Ok record). cbn [mbind Result_bind].
  reflexivity. }
cbn [is_fields is_suggestions is_confidence]. split; [|split].
- apply map_ext. intros [key value]. reflexivity.
- rewrite object_fields_not_suggested, length_map. destruct record; reflexivity.
- rewrite length_map. reflexivity.
Qed.

Lemma missing_at_throws (key : string) (item : Value) (t : Thrown) :
Infer.missing_at key item = Throw t -> is_TypeError t.
Proof.
unfold Infer.missing_at. destruct (get_prop item key) as [v|t'] eqn:Hget;
  cbn [mbind Result_bind]; [discriminate|].
intros Hrun. injection Hrun as <-. apply (get_prop_throws item key t' Hget).
Qed.

Lemma array_field_throws (items : list Value) (entry : string * Value) (t : Thrown) :
Infer.array_field items entry = Throw t -> is_TypeError t.
Proof.
destruct entry as [key value]. unfold Infer.array_field.
destruct (someR (Infer.missing_at key) items) as [nullable|t'] eqn:Hsome; cbn.
- destruct (mapR _ (take 5 items)) as [values|t'] eqn:Hmap; cbn; [discriminate|].
  intros Hrun. injection Hrun as <-.
  apply (mapR_throw_only _ is_TypeError _ (fun x t _ Hx => proj1 (get_prop_throws x key t Hx))
           t' Hmap).
- intros Hrun. injection Hrun as <-.
  apply (someR_throw_only _ is_TypeError _ (fun x t _ Hx => missing_at_throws key x t Hx)
           t' Hsome).
Qed.

(** X10.  A hole among the first five elements makes [inferSchema]
    throw: when the sample is an array whose first element is a record
    with a field, and one of its first five elements is [null] or
    [undefined], the answer is a [TypeError], not a schema. *)
Theorem inferSchema_hole (first : Props) (rest : list Value) (i : nat) (item : Value)
        (c : option Q) (ft : option (list (string * string))) :
first <> [] ->
(i < 5)%nat ->
(VObj first :: rest) !! i = Some item ->
is_nullish item = true ->
exists t,
  Infer.inferSchema (mkSchemaInferenceOptions (VArr (VObj first :: rest)) c ft) = Throw t
  /\ is_TypeError t.
Proof.
intros Hne Hi Hitem Hnull.
set (items := VObj first :: rest) in *.
assert (exists t, mapR (Infer.array_field items) first = Throw t /\ is_TypeError t)
  as (t & Hrun & Ht).
{ destruct first as [|[key value] entries]; [contradiction|].
  assert (exists t, Infer.array_field items (key, value) = Throw t) as (t0 & Hentry).
  { unfold Infer.array_field.
    destruct (someR (Infer.missing_at key) items) as [nullable|t']; cbn [mbind Result_bind];
      [|eauto].
    destruct (get_prop_nullish item key Hnull) as (t1 & Hget).
    assert (In item (take 5 items)) as Hin.
    { apply list_elem_of_In, list_elem_of_lookup. exists i.
      rewrite lookup_take_lt by exact Hi. exact Hitem. }
    destruct (mapR_throw_in (fun x => get_prop x key) (take 5 items) item t1 Hin Hget)
      as (t2 & ->). cbn. eauto. }
  destruct (mapR_throw_in (Infer.array_field items) ((key, value) :: entries) (key, value) t0
              (or_introl eq_refl) Hentry) as (t & Hrun).
  exists t. split; [exact Hrun|].
  apply (mapR_throw_only _ is_TypeError _ (fun x t' _ Hx => array_field_throws items x t' Hx)
           t Hrun). }
exists t. split; [|exact Ht].
unfold Infer.inferSchema, Infer.infer_fields. cbn [sampleData]. subst items.
change (Infer.is_object (VObj first)) with true. cbn iota.
change (Object_entries (VObj first)) with (Ok first). cbn [mbind Result_bind].
rewrite Hrun. reflexivity.
Qed.

(** ** The facade beyond the failing transport *)

Section EngineMore.
Context {host : Platform} (env : Env).

Ltac frame :=
  repeat first
    [ apply preserves_ret
    | apply preserves_throw
    | apply preserves_lift
    | apply preserves_fmap
    | apply preserves_bind; [|intros ?] ];
  try (intros ?; reflexivity).

(** [transform] is its three pure steps followed by one reading of the
    clock; when a step throws, the world is left as it was. *)
Lemma transform_run a data target_override w :
transform env a data target_override w
= match transform_payload env (this_config a) data
                          (effective_target (this_config a) target_override) with
  | Ok (payload, fieldsMapped, fieldsTransformed) =>
      (Ok (mkAdapterTransformResult payload
             (mkTransformMetadata (SourceFormat_text (sourceFormat (this_config a)))
                (effective_target (this_config a) target_override)
                fieldsMapped fieldsTransformed (Date_toISOString (clock env (ticks w))))),
       mkWorld (heap w) (requests w) (S (ticks w)) (trace w))
  | Throw t => (Throw t, w)
  end.
Proof.
unfold transform, transform_payload, effective_target. cbn zeta.
unfold mbind at 1, M_bind at 1, lift at 1.
destruct (decode env (sourceFormat (this_config a)) data) as [decoded|t];
  cbn [mbind Result_bind]; [|reflexivity].
unfold mbind at 1, M_bind at 1, lift at 1.
destruct (match schemaMapping (this_config a) with Some _ => _ | None => _ end)
  as [[[transformedData fieldsMapped] fieldsTransformed]|t]; cbn [mbind Result_bind fst snd];
  [|reflexivity].
unfold mbind at 1, M_bind at 1, lift at 1.
destruct (encode env _ transformedData) as [encoded|t]; cbn [mbind Result_bind];
  reflexivity.
Qed.

Lemma transform_requests a data target_override :
preserves requests (transform env a data target_override).
Proof.
intros w. rewrite transform_run.
destruct (transform_payload _ _ _ _) as [[[payload fm] ft]|t]; reflexivity.
Qed.

Lemma executeWithRetry_requests_negative a request w :
maxRetries (this_retryPolicy a) < 0 ->
executeWithRetry env a request w = (Throw ThrownNull, w).
Proof.
intros Hneg. unfold executeWithRetry, attempt_indices.
rewrite seqZ_nil by lia. reflexivity.
Qed.

Lemma execute_try_throw1 a request startTime w t w1 :
executeWithRetry env a request w = (Throw t, w1) ->
execute_try env a request startTime w = (Throw t, w1).
Proof.
intros Hrun. unfold execute_try. cbn zeta. unfold mbind at 1, M_bind at 1.
rewrite Hrun. reflexivity.
Qed.

Lemma execute_try_throw2 a request startTime w result w1 t w2 :
executeWithRetry env a request w = (Ok result, w1) ->
payload_step env a request result w1 = (Throw t, w2) ->
execute_try env a request startTime w = (Throw t, w2).
Proof.
intros Hrun Hstep. unfold execute_try. cbn zeta. unfold mbind at 1, M_bind at 1.
rewrite Hrun. unfold mbind at 1, M_bind at 1.
unfold payload_step in Hstep. rewrite Hstep. reflexivity.
Qed.

Lemma execute_try_success a request startTime w result w1 payload w2 m :
executeWithRetry env a request w = (Ok result, w1) ->
payload_step env a request result w1 = (Ok payload, w2) ->
heap w2 !! this_metrics a = Some m ->
exists w3,
  execute_try env a request startTime w
  = (Ok (success_response a result payload (clock env (ticks w2) - startTime)
           (Date_toISOString (clock env (S (ticks w2))))), w3)
  /\ requests w3 = requests w2
  /\ heap w3 !! this_metrics a
     = Some (mkAdapterMetrics (requestsTotal m) (requestsSuccess m + 1) (requestsFailed m)
               (next_average (avgResponseTime m) (requestsSuccess m + 1)
                             (clock env (ticks w2) - startTime))
               (totalBytesProcessed m))
  /\ forall l, l <> this_metrics a -> heap w3 !! l = heap w2 !! l.
Proof.
intros Hrun Hstep Hm. unfold execute_try. cbn zeta. unfold mbind at 1, M_bind at 1.
rewrite Hrun. unfold mbind at 1, M_bind at 1.
unfold payload_step in Hstep. rewrite Hstep.
unfold mbind, M_bind, update_metrics, now, read_metrics, log, timestamp, mret, M_ret,
  metrics_at. cbn.
rewrite lookup_alter_eq, Hm. cbn.
eexists. split; [reflexivity|]. cbn. split; [reflexivity|]. split.
- rewrite !lookup_alter_eq, Hm. reflexivity.
- intros l Hl. rewrite !lookup_alter_ne by congruence. reflexivity.
Qed.

Lemma execute_catch_frame a startTime error :
preserves requests (execute_catch env a startTime error)
/\ forall w l, l <> this_metrics a ->
     heap (execute_catch env a startTime error w).2 !! l = heap w !! l.
Proof.
split.
- intros w. destruct (execute_catch_run env a startTime error w) as (w' & Hrun & _).
  unfold execute_catch in *. cbn zeta in *.
  unfold mbind, M_bind, update_metrics, now, lift, log, timestamp, mret, M_ret in *.
  cbn in *. destruct (message_of error); reflexivity.
- intros w l Hl. destruct (execute_catch_run env a startTime error w) as (w' & Hrun & Hheap).
  rewrite Hrun. cbn [snd]. rewrite Hheap, lookup_alter_ne by congruence. reflexivity.
Qed.

Lemma payload_step_frame a request result :
preserves heap (payload_step env a request result)
/\ preserves requests (payload_step env a request result).
Proof.
unfold payload_step. destruct (req_method request); split;
  solve [ apply preserves_ret
        | apply preserves_fmap, transform_heap
        | apply preserves_fmap, transform_requests ].
Qed.

(** The two ways a call of [execute] ends: the [try] ran to its end, or
    the [catch] took over. *)
Lemma execute_cases a request w m :
heap w !! this_metrics a = Some m ->
(exists result payload duration ts w',
    execute env a request w = (Ok (success_response a result payload duration ts), w')
    /\ heap w' !! this_metrics a = Some (counted_success m duration)
    /\ requests w' = requests (executeWithRetry env a request (entered a w)).2
    /\ forall l, l <> this_metrics a -> heap w' !! l = heap w !! l)
\/ (exists t w0 w',
      execute env a request w
      = (match message_of t with
         | Ok message =>
             Ok (failure_response a message (clock env (ticks w0) - clock env (ticks w))
                                  (Date_toISOString (clock env (S (ticks w0)))))
         | Throw t' => Throw t'
         end, w')
      /\ heap w' !! this_metrics a = Some (counted_failure m)
      /\ requests w' = requests (executeWithRetry env a request (entered a w)).2
      /\ forall l, l <> this_metrics a -> heap w' !! l = heap w !! l).
Proof.
intros Hm. rewrite execute_unfold. fold (entered a w). unfold try_catch.
assert (heap (entered a w) !! this_metrics a = Some (incr_requestsTotal m)) as Hm1.
{ cbn. rewrite lookup_alter_eq, Hm. reflexivity. }
assert (forall l, l <> this_metrics a -> heap (entered a w) !! l = heap w !! l) as Hframe1.
{ intros l Hl. cbn. rewrite lookup_alter_ne by congruence. reflexivity. }
pose proof (executeWithRetry_heap env a request (entered a w)) as Hheap1.
destruct (executeWithRetry env a request (entered a w)) as [[result|t] w1] eqn:Hretry;
  cbn [snd] in *.
- destruct (payload_step_frame a request result) as [Hheap2 Hreq2].
  specialize (Hheap2 w1). specialize (Hreq2 w1).
  destruct (payload_step env a request result w1) as [[payload|t] w2] eqn:Hstep;
    cbn [snd] in *.
  + left. destruct (execute_try_success a request (clock env (ticks w)) (entered a w)
                      result w1 payload w2 (incr_requestsTotal m) Hretry Hstep)
      as (w3 & Htry & Hreq3 & Hm3 & Hframe3); [congruence|].
    rewrite Htry. do 5 eexists. split; [reflexivity|].
    split; [exact Hm3|]. split; [congruence|].
    intros l Hl. rewrite (Hframe3 l Hl), Hheap2, Hheap1. apply Hframe1. exact Hl.
  + right. rewrite (execute_try_throw2 a request _ _ result w1 t w2 Hretry Hstep).
    destruct (execute_catch_run env a (clock env (ticks w)) t w2) as (w3 & Hcatch & Hheap3).
    destruct (execute_catch_frame a (clock env (ticks w)) t) as [Hreq3 Hframe3].
    specialize (Hreq3 w2). specialize (Hframe3 w2). rewrite Hcatch in Hreq3, Hframe3.
    cbn [snd] in *. rewrite Hcatch. exists t, w2, w3. split; [reflexivity|].
    split; [rewrite Hheap3, Hheap2, Hheap1, lookup_alter_eq, Hm1; reflexivity|].
    split; [congruence|].
    intros l Hl. rewrite (Hframe3 l Hl), Hheap2, Hheap1. apply Hframe1. exact Hl.
- right. rewrite (execute_try_throw1 a request _ _ t w1 Hretry).
  destruct (execute_catch_run env a (clock env (ticks w)) t w1) as (w3 & Hcatch & Hheap3).
  destruct (execute_catch_frame a (clock env (ticks w)) t) as [Hreq3 Hframe3].
  specialize (Hreq3 w1). specialize (Hframe3 w1). rewrite Hcatch in Hreq3, Hframe3.
  cbn [snd] in *. rewrite Hcatch. exists t, w1, w3. split; [reflexivity|].
  split; [rewrite Hheap3, Hheap1, lookup_alter_eq, Hm1; reflexivity|].
  split; [congruence|].
  intros l Hl. rewrite (Hframe3 l Hl), Hheap1. apply Hframe1. exact Hl.
Qed.

Lemma effective_target_configured (config : AdapterConfig) :
effective_target config (Some (TargetFormat_text (targetFormat config)))
= TargetFormat_text (targetFormat config).
Proof. unfold effective_target. destruct (targetFormat config); reflexivity. Qed.

Lemma first_answer_run a request w (n : nat) r :
maxRetries (this_retryPolicy a) = Z.of_nat n ->
transport env (requests w) (request_config a request) = Responds r ->
exists w1,
  executeWithRetry env a request (entered a w) = (Ok (raw_of r), w1)
  /\ requests w1 = S (requests w)
  /\ heap w1 = heap (entered a w)
  /\ ticks w1 = S (ticks w).
Proof.
intros Hn Hok.
destruct (retry_loop_first_success env a request O n (fun _ => mkError EmptyString EmptyString)
            r 0 (initialDelayMs (this_retryPolicy a)) ThrownNull (entered a w)
            (remaining_start a n Hn) (Nat.le_0_l n))
  as (w1 & Hrun & Hreq & _ & _ & Hheap).
{ intros k Hk. lia. }
{ cbn [entered requests]. rewrite Nat.add_0_r. exact Hok. }
rewrite <- (executeWithRetry_unfold env a request n (entered a w) Hn) in Hrun.
pose proof (executeWithRetry_ticks env a request (entered a w)) as Hticks.
rewrite Hrun in Hticks. cbn in Hticks, Hreq.
exists w1. split; [exact Hrun|]. split; [lia|]. split; [exact Hheap | exact Hticks].
Qed.

(** X11.  When the first attempt is answered, [execute] answers a success
    after that one request: for a method other than [GET] the [data] is
    the body as received, whatever mapping is configured; for a [GET] it
    is the result of [transform] on the body.  The response carries the
    status and headers of the answer; [requestsTotal] and
    [requestsSuccess] are one higher and the average is recomputed. *)
Theorem execute_answered (a : Adapter) (request : AdapterRequest) (w : World)
        (m : AdapterMetrics) (n : nat) (r : HttpResponse) :
maxRetries (this_retryPolicy a) = Z.of_nat n ->
transport env (requests w) (request_config a request) = Responds r ->
heap w !! this_metrics a = Some m ->
(req_method request <> GET ->
 exists w',
   execute env a request w
   = (Ok (success_response a (raw_of r) (Untransformed (resp_data r))
            (clock env (S (ticks w)) - clock env (ticks w))
            (Date_toISOString (clock env (S (S (ticks w)))))), w')
   /\ requests w' = S (requests w)
   /\ heap w' !! this_metrics a
      = Some (counted_success m (clock env (S (ticks w)) - clock env (ticks w))))
/\ (req_method request = GET ->
    forall payload fieldsMapped fieldsTransformed,
      transform_payload env (this_config a) (resp_data r)
                        (TargetFormat_text (targetFormat (this_config a)))
      = Ok (payload, fieldsMapped, fieldsTransformed) ->
      exists w',
        execute env a request w
        = (Ok (success_response a (raw_of r)
                 (Transformed
                    (mkAdapterTransformResult payload
                       (mkTransformMetadata
                          (SourceFormat_text (sourceFormat (this_config a)))
                          (TargetFormat_text (targetFormat (this_config a)))
                          fieldsMapped fieldsTransformed
                          (Date_toISOString (clock env (S (ticks w)))))))
                 (clock env (S (S (ticks w))) - clock env (ticks w))
                 (Date_toISOString (clock env (S (S (S (ticks w))))))), w')
        /\ requests w' = S (requests w)
        /\ heap w' !! this_metrics a
           = Some (counted_success m (clock env (S (S (ticks w))) - clock env (ticks w)))).
Proof.
intros Hn Hok Hm.
destruct (first_answer_run a request w n r Hn Hok) as (w1 & Hretry & Hreq1 & Hheap1 & Hticks1).
assert (heap w1 !! this_metrics a = Some (incr_requestsTotal m)) as Hm1.
{ rewrite Hheap1. cbn. rewrite lookup_alter_eq, Hm. reflexivity. }
split.
- intros Hmethod.
  assert (payload_step env a request (raw_of r) w1 = (Ok (Untransformed (resp_data r)), w1))
    as Hstep.
  { unfold payload_step. destruct (req_method request); try reflexivity. contradiction. }
  destruct (execute_try_success a request (clock env (ticks w)) (entered a w) (raw_of r) w1
              _ w1 _ Hretry Hstep Hm1) as (w3 & Htry & Hreq3 & Hm3 & _).
  exists w3. rewrite execute_unfold. fold (entered a w). unfold try_catch.
  rewrite Htry, Hticks1. split; [reflexivity|]. split; [congruence|].
  rewrite Hm3, Hticks1. reflexivity.
- intros Hmethod payload fieldsMapped fieldsTransformed Hpayload.
  assert (payload_step env a request (raw_of r) w1
          = (Ok (Transformed
                   (mkAdapterTransformResult payload
                      (mkTransformMetadata
                         (SourceFormat_text (sourceFormat (this_config a)))
                         (TargetFormat_text (targetFormat (this_config a)))
                         fieldsMapped fieldsTransformed
                         (Date_toISOString (clock env (S (ticks w))))))),
             mkWorld (heap w1) (requests w1) (S (ticks w1)) (trace w1))) as Hstep.
  { unfold payload_step. rewrite Hmethod. unfold fmap, M_fmap.
    rewrite transform_run, effective_target_configured. cbn [raw_of raw_data].
    rewrite Hpayload, Hticks1. reflexivity. }
  destruct (execute_try_success a request (clock env (ticks w)) (entered a w) (raw_of r) w1
              _ _ _ Hretry Hstep Hm1) as (w3 & Htry & Hreq3 & Hm3 & _).
  exists w3. rewrite execute_unfold. fold (entered a w). unfold try_catch.
  rewrite Htry. cbn [ticks]. rewrite Hticks1. split; [reflexivity|].
  split; [cbn in Hreq3; congruence|].
  rewrite Hm3. cbn [ticks]. rewrite Hticks1. reflexivity.
Qed.

(** X12.  A [GET] that is answered but whose body [transform] cannot
    handle is reported as a failure, with the message of what [transform]
    threw: the request is not sent again, [requestsFailed] goes up although
    the transport answered, and [requestsSuccess] stays. *)
Theorem execute_undecodable (a : Adapter) (request : AdapterRequest) (w : World)
        (m : AdapterMetrics) (n : nat) (r : HttpResponse) (e : Error) :
maxRetries (this_retryPolicy a) = Z.of_nat n ->
transport env (requests w) (request_config a request) = Responds r ->
heap w !! this_metrics a = Some m ->
req_method request = GET ->
transform_payload env (this_config a) (resp_data r)
                  (TargetFormat_text (targetFormat (this_config a)))
= Throw (ThrownError e) ->
exists w',
  execute env a request w
  = (Ok (failure_response a (err_message e)
           (clock env (S (ticks w)) - clock env (ticks w))
           (Date_toISOString (clock env (S (S (ticks w)))))), w')
  /\ requests w' = S (requests w)
  /\ heap w' !! this_metrics a = Some (counted_failure m).
Proof.
intros Hn Hok Hm Hmethod Hpayload.
destruct (first_answer_run a request w n r Hn Hok) as (w1 & Hretry & Hreq1 & Hheap1 & Hticks1).
assert (payload_step env a request (raw_of r) w1 = (Throw (ThrownError e), w1)) as Hstep.
{ unfold payload_step. rewrite Hmethod. unfold fmap, M_fmap.
  rewrite transform_run, effective_target_configured. cbn [raw_of raw_data].
  rewrite Hpayload. reflexivity. }
rewrite execute_unfold. fold (entered a w). unfold try_catch.
rewrite (execute_try_throw2 a request _ _ _ w1 _ w1 Hretry Hstep).
destruct (execute_catch_run env a (clock env (ticks w)) (ThrownError e) w1)
  as (w3 & Hcatch & Hheap3).
destruct (execute_catch_frame a (clock env (ticks w)) (ThrownError e)) as [Hreq3 _].
specialize (Hreq3 w1). rewrite Hcatch in Hreq3. cbn [snd] in Hreq3.
exists w3. rewrite Hcatch, Hticks1. cbn [message_of]. split; [reflexivity|].
split; [congruence|].
rewrite Hheap3, Hheap1. cbn [entered heap]. rewrite !lookup_alter_eq, Hm. reflexivity.
Qed.

(** X13.  With a negative [maxRetries] the retry loop does not run:
    [executeWithRetry] throws [null] without a request, and [execute] then
    throws a [TypeError] to its caller, because its [catch] reads the
    message of [null]; no request was issued, yet [requestsTotal] and
    [requestsFailed] have gone up. *)
Theorem execute_negative_maxRetries (a : Adapter) (request : AdapterRequest) (w : World)
        (m : AdapterMetrics) :
maxRetries (this_retryPolicy a) < 0 ->
heap w !! this_metrics a = Some m ->
executeWithRetry env a request w = (Throw ThrownNull, w)
/\ exists w',
    execute env a request w
    = (Throw (TypeError "Cannot read properties of null (reading 'message')"), w')
    /\ requests w' = requests w
    /\ request_indices (trace w') = request_indices (trace w)
    /\ heap w' !! this_metrics a = Some (counted_failure m).
Proof.
intros Hneg Hm. split; [apply executeWithRetry_requests_negative; exact Hneg|].
rewrite execute_unfold. fold (entered a w). unfold try_catch.
rewrite (execute_try_throw1 a request _ _ ThrownNull (entered a w)
           (executeWithRetry_requests_negative a request (entered a w) Hneg)).
unfold execute_catch. cbn zeta.
unfold mbind, M_bind, update_metrics, now, lift, log, timestamp, mret, M_ret. cbn.
eexists. split; [reflexivity|]. cbn. split; [reflexivity|]. split; [reflexivity|].
rewrite !lookup_alter_eq, Hm. reflexivity.
Qed.

(** X14.  With [maxRetries = n >= 0] a call of [execute] issues at least
    one and at most [n + 1] requests, whatever the transport answers and
    whatever happens to the body afterwards. *)
Theorem execute_request_bounds (a : Adapter) (request : AdapterRequest) (w : World)
        (m : AdapterMetrics) (n : nat) :
maxRetries (this_retryPolicy a) = Z.of_nat n ->
heap w !! this_metrics a = Some m ->
(requests w + 1 <= requests (execute env a request w).2 <= requests w + (n + 1))%nat.
Proof.
intros Hn Hm.
assert (requests (execute env a request w).2
        = requests (executeWithRetry env a request (entered a w)).2) as Hreq.
{ destruct (execute_cases a request w m Hm)
    as [(result & payload & duration & ts & w' & Hrun & _ & Hreq & _)
       |(t & w0 & w' & Hrun & _ & Hreq & _)]; rewrite Hrun; exact Hreq. }
rewrite Hreq, (executeWithRetry_unfold env a request n (entered a w) Hn).
destruct (retry_loop_any env a request n 0 (initialDelayMs (this_retryPolicy a)) ThrownNull
            (entered a w) (remaining_start a n Hn)) as (k & Hk & Hrequests & _).
rewrite Hrequests. cbn [entered requests]. lia.
Qed.

End EngineMore.

(** ** Metrics across calls and instances *)

Section MetricsMore.
Context {host : Platform} (env : Env).

Lemma execute_metrics_step a request w m :
heap w !! this_metrics a = Some m ->
exists m',
  heap (execute env a request w).2 !! this_metrics a = Some m'
  /\ totalBytesProcessed m' = totalBytesProcessed m
  /\ forall l, l <> this_metrics a -> heap (execute env a request w).2 !! l = heap w !! l.
Proof.
intros Hm.
destruct (execute_cases env a request w m Hm)
  as [(result & payload & duration & ts & w' & Hrun & Hm' & _ & Hframe)
     |(t & w0 & w' & Hrun & Hm' & _ & Hframe)]; rewrite Hrun; cbn [snd];
  eexists; (split; [exact Hm'|]); (split; [reflexivity | exact Hframe]).
Qed.

Lemma execute_all_step a :
forall (calls : list AdapterRequest) (w : World) (m : AdapterMetrics),
  heap w !! this_metrics a = Some m ->
  exists m',
    heap (execute_all env a calls w) !! this_metrics a = Some m'
    /\ totalBytesProcessed m' = totalBytesProcessed m
    /\ forall l, l <> this_metrics a -> heap (execute_all env a calls w) !! l = heap w !! l.
Proof.
induction calls as [|request calls IH]; intros w m Hm.
- exists m. cbn. auto.
- destruct (execute_metrics_step a request w m Hm) as (m1 & Hm1 & Hbytes1 & Hframe1).
  destruct (IH _ m1 Hm1) as (m' & Hm' & Hbytes & Hframe).
  exists m'. cbn [execute_all]. split; [exact Hm'|]. split; [congruence|].
  intros l Hl. rewrite (Hframe l Hl). apply Hframe1. exact Hl.
Qed.

(** X15.  No call of [execute] ever writes [totalBytesProcessed]: after
    any series of calls it holds the value it had, zero for a constructed
    adapter, however many bytes were received. *)
Theorem totalBytesProcessed_never_written (a : Adapter) (calls : list AdapterRequest)
        (w : World) (m : AdapterMetrics) :
heap w !! this_metrics a = Some m ->
exists m',
  heap (execute_all env a calls w) !! this_metrics a = Some m'
  /\ totalBytesProcessed m' = totalBytesProcessed m.
Proof.
intros Hm. destruct (execute_all_step a calls w m Hm) as (m' & Hm' & Hbytes & _).
exists m'. split; assumption.
Qed.

(** X16.  Two adapters constructed one after the other own different
    metrics objects, and no series of calls on the first changes the
    counters of the second. *)
Theorem metrics_not_shared (config1 config2 : AdapterConfig) (w : World) :
exists a1 a2 w2,
  (a1 ← constructor config1; a2 ← constructor config2; mret (a1, a2)) w = (Ok (a1, a2), w2)
  /\ this_metrics a1 <> this_metrics a2
  /\ heap w2 !! this_metrics a1 = Some zero_metrics
  /\ heap w2 !! this_metrics a2 = Some zero_metrics
  /\ forall calls : list AdapterRequest,
      heap (execute_all env a1 calls w2) !! this_metrics a2 = Some zero_metrics.
Proof.
unfold mbind, M_bind. rewrite constructor_run. cbn beta iota. rewrite constructor_run.
cbn [heap requests ticks trace].
set (l1 := fresh (dom (heap w))).
set (h1 := <[l1 := mkAdapterMetrics 0 0 0 0 0]> (heap w)).
set (l2 := fresh (dom h1)).
do 3 eexists. split; [reflexivity|]. cbn [this_metrics heap].
assert (l1 <> l2) as Hne.
{ intros Heq. pose proof (fresh_not_allocated h1) as Hfresh. fold l2 in Hfresh.
  rewrite <- Heq in Hfresh. subst h1. rewrite lookup_insert_eq in Hfresh. discriminate. }
split; [exact Hne|].
assert (<[l2 := mkAdapterMetrics 0 0 0 0 0]> h1 !! l1 = Some zero_metrics) as Hm1.
{ rewrite lookup_insert_ne by congruence. subst h1. apply lookup_insert_eq. }
split; [exact Hm1|]. split; [apply lookup_insert_eq|].
intros calls.
set (a1 := mkAdapter config1 _ l1).
set (w2 := mkWorld _ _ _ _).
destruct (execute_all_step a1 calls w2 zero_metrics Hm1) as (m' & _ & _ & Hframe).
rewrite (Hframe l2) by (cbn; congruence). apply lookup_insert_eq.
Qed.

Lemma execute_count_step a request w m :
heap w !! this_metrics a = Some m ->
exists m',
  heap (execute env a request w).2 !! this_metrics a = Some m'
  /\ requestsSuccess m'
     = requestsSuccess m + (if is_success (execute env a request w).1 then 1 else 0)
  /\ requestsFailed m'
     = requestsFailed m + (if is_success (execute env a request w).1 then 0 else 1)
  /\ (is_success (execute env a request w).1 = false ->
      avgResponseTime m' = avgResponseTime m).
Proof.
intros Hm.
destruct (execute_cases env a request w m Hm)
  as [(result & payload & duration & ts & w1 & Hrun & Hm' & _)
     |(t & w0 & w1 & Hrun & Hm' & _)]; rewrite Hrun; cbn [fst snd].
- eexists. split; [exact Hm'|].
  cbn [counted_success requestsSuccess requestsFailed is_success success_response success].
  split; [reflexivity|]. split; [lia | discriminate].
- eexists. split; [exact Hm'|].
  assert (is_success (match message_of t with
                      | Ok message =>
                          Ok (failure_response a message
                                (clock env (ticks w0) - clock env (ticks w))
                                (Date_toISOString (clock env (S (ticks w0)))))
                      | Throw t' => Throw t'
                      end) = false) as ->
    by (destruct (message_of t); reflexivity).
  cbn [counted_failure requestsSuccess requestsFailed avgResponseTime].
  split; [lia|]. split; reflexivity.
Qed.

(** X17.  The counters follow the answers: over any series of [execute]
    calls, [requestsSuccess] grows by the number of success responses
    answered and [requestsFailed] by the number of all other calls, those
    that answered a failure response and those that threw; as long as no
    call succeeds the average stays as it was. *)
Theorem counters_follow_answers (a : Adapter) :
forall (calls : list AdapterRequest) (w : World) (m : AdapterMetrics),
  heap w !! this_metrics a = Some m ->
  exists m',
    heap (execute_all env a calls w) !! this_metrics a = Some m'
    /\ requestsSuccess m' = requestsSuccess m + successes (execute_log env a calls w)
    /\ requestsFailed m'
       = requestsFailed m + (Z.of_nat (length calls) - successes (execute_log env a calls w))
    /\ (successes (execute_log env a calls w) = 0 -> avgResponseTime m' = avgResponseTime m).
Proof.
induction calls as [|request calls IH]; intros w m Hm.
- exists m. cbn. split; [exact Hm|]. unfold successes. cbn. repeat split; lia.
- destruct (execute_count_step a request w m Hm) as (m1 & Hm1 & Hok1 & Hfail1 & Havg1).
  destruct (IH _ m1 Hm1) as (m' & Hm' & Hok' & Hfail' & Havg').
  exists m'. cbn [execute_all execute_log]. split; [exact Hm'|].
  assert (successes ((execute env a request w).1
                       :: execute_log env a calls (execute env a request w).2)
          = (if is_success (execute env a request w).1 then 1 else 0)
            + successes (execute_log env a calls (execute env a request w).2)) as Hcount.
  { unfold successes. rewrite filter_cons.
    destruct (is_success (execute env a request w).1) eqn:Hs.
    - rewrite decide_True by reflexivity. cbn [length]. lia.
    - rewrite decide_False by discriminate. lia. }
  assert (0 <= successes (execute_log env a calls (execute env a request w).2)) as Hpos
    by (unfold successes; lia).
  rewrite Hcount. split; [lia|]. split.
  + rewrite Hfail', Hfail1. cbn [length].
    destruct (is_success (execute env a request w).1); lia.
  + intros Hnone. destruct (is_success (execute env a request w).1) eqn:Hs; [lia|].
    rewrite Havg' by lia. apply Havg1. reflexivity.
Qed.

Lemma execute_all_total a :
forall (calls : list AdapterRequest) (w : World) (m : AdapterMetrics),
  heap w !! this_metrics a = Some m ->
  exists m',
    heap (execute_all env a calls w) !! this_metrics a = Some m'
    /\ requestsTotal m' = requestsTotal m + Z.of_nat (length calls).
Proof.
induction calls as [|request calls IH]; intros w m Hm.
- exists m. cbn. split; [exact Hm | lia].
- destruct (execute_counts env a request w m Hm) as (m1 & Hm1 & Htotal & _).
  destruct (IH _ m1 Hm1) as (m' & Hm' & Htotal').
  exists m'. cbn [execute_all length]. split; [exact Hm' | lia].
Qed.

(** X27.  The object [getMetrics] answered is a snapshot: calls of
    [execute] made afterwards move the adapter's own counters on
    ([requestsTotal] grows by the number of calls) and leave the answered
    object with the counters of the moment it was taken. *)
Theorem getMetrics_snapshot (a : Adapter) (calls : list AdapterRequest) (w : World)
        (m : AdapterMetrics) :
heap w !! this_metrics a = Some m ->
exists l w1,
  getMetrics a w = (Ok l, w1)
  /\ heap (execute_all env a calls w1) !! l = Some m
  /\ exists m',
      heap (execute_all env a calls w1) !! this_metrics a = Some m'
      /\ requestsTotal m' = requestsTotal m + Z.of_nat (length calls).
Proof.
intros Hm. rewrite getMetrics_run. do 2 eexists. split; [reflexivity|].
set (w1 := mkWorld _ _ _ _).
assert (fresh (dom (heap w)) <> this_metrics a) as Hne.
{ intros Heq. pose proof (fresh_not_allocated (heap w)) as Hfresh.
  rewrite Heq, Hm in Hfresh. discriminate. }
assert (heap w1 !! this_metrics a = Some m) as Hm1.
{ subst w1. cbn. rewrite lookup_insert_ne by exact Hne. exact Hm. }
assert (heap w1 !! fresh (dom (heap w)) = Some m) as Hl.
{ subst w1. cbn. rewrite lookup_insert_eq. unfold metrics_at. rewrite Hm. reflexivity. }
split.
- destruct (execute_all_step a calls w1 m Hm1) as (m' & _ & _ & Hframe).
  rewrite (Hframe _ Hne). exact Hl.
- apply execute_all_total. exact Hm1.
Qed.

End MetricsMore.

(** ** What the retry loop logs *)

Section RetryLog.
Context (env : Env).





End RetryLog.

(** ** Health check and endpoint analysis *)

Section ProbeFacts.
Context {host : Platform} (env : Env).

(** X19.  Without a configured endpoint (none, or the empty text)
    [healthCheck] reports healthy without issuing any request; it reads the
    clock three times and leaves the metrics alone. *)
Theorem healthCheck_without_endpoint (a : Adapter) (w : World) :
probed_endpoint a = None ->
healthCheck env a w
= (Ok (mkAdapterHealthCheck true (Some (clock env (S (ticks w)) - clock env (ticks w)))
         (Date_toISOString (clock env (S (S (ticks w))))) None),
   mkWorld (heap w) (requests w) (S (S (S (ticks w)))) (trace w)).
Proof.
unfold probed_endpoint, healthCheck, healthCheck_try. intros Hnone.
destruct (endpoint (this_config a)) as [url|]; [destruct (Str.is_empty url); [|discriminate]|];
  reflexivity.
Qed.

(** X20.  With an endpoint, [healthCheck] issues exactly one [head]
    request, whatever the retry policy: it reports healthy when that
    request is answered, and unhealthy with the message of the rejection as
    its one error when it is rejected.  It returns in both cases and never
    touches the metrics. *)
Theorem healthCheck_single_probe (a : Adapter) (w : World) (url : string) :
probed_endpoint a = Some url ->
exists w',
  healthCheck env a w
  = (Ok (match transport env (requests w) (head_request url) with
         | Responds _ =>
             mkAdapterHealthCheck true (Some (clock env (S (ticks w)) - clock env (ticks w)))
                                  (Date_toISOString (clock env (S (S (ticks w))))) None
         | Rejects e =>
             mkAdapterHealthCheck false (Some (clock env (S (ticks w)) - clock env (ticks w)))
                                  (Date_toISOString (clock env (S (S (ticks w)))))
                                  (Some [err_message e])
         end), w')
  /\ requests w' = S (requests w)
  /\ request_indices (trace w') = request_indices (trace w) ++ [requests w]
  /\ heap w' = heap w.
Proof.
unfold probed_endpoint. intros Hurl.
destruct (endpoint (this_config a)) as [url'|] eqn:Hep; [|discriminate].
destruct (Str.is_empty url') eqn:Hempty; [discriminate|]. injection Hurl as ->.
unfold healthCheck, healthCheck_try, healthCheck_catch, try_catch. rewrite Hep, Hempty.
unfold mbind, M_bind, http_request, now, timestamp, lift, mret, M_ret. cbn.
destruct (transport env (requests w) (head_request url)) as [r|e]; cbn;
  eexists; (split; [reflexivity|]); cbn; (split; [reflexivity|]);
  (split; [|reflexivity]); unfold request_indices; rewrite omap_app; reflexivity.
Qed.

(** X21.  When its one request is rejected, [analyzeEndpoint] logs the
    failure and throws the rejection on to its caller: nothing is retried
    and nothing is answered. *)
Theorem analyzeEndpoint_rejected (endpoint : string) (w : World) (e : Error) :
transport env (requests w) (probe_request endpoint) = Rejects e ->
exists w',
  analyzeEndpoint env endpoint w = (Throw (ThrownError e), w')
  /\ requests w' = S (requests w)
  /\ last (trace w')
     = Some (EvLog LError ("Endpoint analysis failed: " +:+ endpoint)
                   [("error", VStr (err_message e))])
  /\ heap w' = heap w.
Proof.
intros Hrej.
unfold analyzeEndpoint, analyzeEndpoint_try, analyzeEndpoint_catch, try_catch.
unfold mbind, M_bind, http_request, log, lift, throw, mret, M_ret. cbn.
rewrite Hrej. cbn. eexists. split; [reflexivity|]. cbn. split; [reflexivity|].
split; [|reflexivity]. apply last_snoc.
Qed.

(** X22.  When its request is answered, [analyzeEndpoint] answers the
    detected source format with target [json] and an empty [sourceFields]:
    the schema it infers from the body only feeds a log line.  Yet when the
    inference throws, the analysis throws the same value although the
    endpoint answered.  A content type that mentions xml gives [xml] even
    when it also mentions csv. *)
Theorem analyzeEndpoint_answered (endpoint : string) (w : World) (r : HttpResponse) :
transport env (requests w) (probe_request endpoint) = Responds r ->
(forall schema,
    Infer.inferSchema (mkSchemaInferenceOptions (resp_data r) (Some (8 # 10)) None)
    = Ok schema ->
    exists w',
      analyzeEndpoint env endpoint w
      = (Ok (mkAnalyzedConfig (detect_sourceFormat (content_type r) (resp_data r)) TgtJson
                              (mkSchemaMapping (Some []) None None)), w')
      /\ requests w' = S (requests w))
/\ (forall e,
      Infer.inferSchema (mkSchemaInferenceOptions (resp_data r) (Some (8 # 10)) None)
      = Throw (ThrownError e) ->
      exists w',
        analyzeEndpoint env endpoint w = (Throw (ThrownError e), w')
        /\ requests w' = S (requests w))
/\ (Text.includes "xml" (content_type r) = true ->
    detect_sourceFormat (content_type r) (resp_data r) = SrcXml).
Proof.
intros Hok. split; [|split].
- intros schema Hschema.
  unfold analyzeEndpoint, analyzeEndpoint_try, analyzeEndpoint_catch, try_catch.
  unfold mbind, M_bind, http_request, log, lift, throw, mret, M_ret. cbn.
  rewrite Hok. cbn. rewrite Hschema. cbn. eexists. split; reflexivity.
- intros e Hschema.
  unfold analyzeEndpoint, analyzeEndpoint_try, analyzeEndpoint_catch, try_catch.
  unfold mbind, M_bind, http_request, log, lift, throw, mret, M_ret. cbn.
  rewrite Hok. cbn. rewrite Hschema. cbn. eexists. split; reflexivity.
- intros Hxml. unfold detect_sourceFormat. rewrite Hxml. reflexivity.
Qed.

End ProbeFacts.

(** ** The transformation pipeline *)

Lemma parseCSV_no_rows (csv : string) :
(length (nonblank_lines csv) <= 1)%nat -> parseCSV csv = [].
Proof.
intros Hlines. pose proof (parseCSV_length csv) as Hlen.
destruct (parseCSV csv); [reflexivity|]. cbn in Hlen. lia.
Qed.

Section TransformMore.
Context {host : Platform} (env : Env).

(** X23.  [transform] calls no endpoint, writes no metrics and logs
    nothing: when it answers, the world differs by one reading of the clock,
    which is the timestamp of the answer; when a step throws, the world is
    exactly as before. *)
Theorem transform_effects (a : Adapter) (data : Value) (target_override : option string)
        (w : World) :
match transform env a data target_override w with
| (Ok result, w') =>
    w' = mkWorld (heap w) (requests w) (S (ticks w)) (trace w)
    /\ tm_timestamp (tr_metadata result) = Date_toISOString (clock env (ticks w))
    /\ tm_targetFormat (tr_metadata result) = effective_target (this_config a) target_override
    /\ transform_payload env (this_config a) data
                         (effective_target (this_config a) target_override)
       = Ok (tr_data result, tm_fieldsMapped (tr_metadata result),
             tm_fieldsTransformed (tr_metadata result))
| (Throw t, w') =>
    w' = w
    /\ transform_payload env (this_config a) data
                         (effective_target (this_config a) target_override) = Throw t
end.
Proof.
rewrite transform_run.
destruct (transform_payload _ _ _ _) as [[[payload fm] ft]|t]; cbn; auto.
Qed.

(** X24.  A CSV text without a row line (a header alone, or nothing but
    blank lines) that is transformed from CSV to CSV with no mapping comes
    out as the empty text: the header is lost. *)
Theorem transform_header_only (a : Adapter) (csv : string) (target_override : option string)
        (w : World) :
sourceFormat (this_config a) = SrcCsv ->
schemaMapping (this_config a) = None ->
effective_target (this_config a) target_override = "csv" ->
(length (nonblank_lines csv) <= 1)%nat ->
transform env a (VStr csv) target_override w
= (Ok (mkAdapterTransformResult (VStr EmptyString)
         (mkTransformMetadata "csv" "csv" 1 0 (Date_toISOString (clock env (ticks w))))),
   mkWorld (heap w) (requests w) (S (ticks w)) (trace w)).
Proof.
intros Hsrc Hmap Htarget Hlines. rewrite transform_run, Htarget.
unfold transform_payload. rewrite Hsrc, Hmap. cbn [decode mbind Result_bind fst snd].
rewrite (parseCSV_no_rows csv Hlines). reflexivity.
Qed.

(** X25.  With no mapping and a target other than [xml] and [csv] (so
    [json], and [protobuf], for which nothing is encoded), the payload of
    [transform] is the value it was given whenever there is nothing to
    decode: for the sources [json], [grpc], [rest] and [graphql] always,
    for the sources [xml], [csv] and [soap] when the value is not a text.
    [fieldsMapped] is then 0, except for [soap], which counts 1 although
    nothing was decoded. *)
Theorem transform_untouched (config : AdapterConfig) (data : Value) (target : string) :
schemaMapping config = None ->
String.eqb target "xml" = false ->
String.eqb target "csv" = false ->
(sourceFormat config = SrcXml \/ sourceFormat config = SrcCsv \/ sourceFormat config = SrcSoap ->
 String.eqb (typeof data) "string" = false) ->
transform_payload env config data target
= Ok (data, match sourceFormat config with SrcSoap => 1 | _ => 0 end, 0).
Proof.
intros Hmap Hxml Hcsv Htext. unfold transform_payload. rewrite Hmap.
assert (decode env (sourceFormat config) data
        = Ok (data, match sourceFormat config with SrcSoap => 1 | _ => 0 end)) as ->.
{ destruct (sourceFormat config) eqn:Hsrc; try reflexivity;
    destruct data; try reflexivity; cbn in Htext;
    discriminate Htext; auto. }
cbn [mbind Result_bind fst snd]. unfold encode. rewrite Hxml, Hcsv. reflexivity.
Qed.

End TransformMore.

(** ** Date-like texts *)

Lemma take_while_n_append (p : ascii -> bool) (t : string) :
forall (k : nat) (s r : string),
  Str.take_while_n p k s = Some r -> Str.take_while_n p k (s +:+ t) = Some (r +:+ t).
Proof.
induction k as [|k IH]; intros s r Hs; cbn in *.
- injection Hs as <-. reflexivity.
- destruct s as [|c s]; [discriminate|]. rewrite append_cons.
  destruct (p c); [apply IH; exact Hs | discriminate].
Qed.

Lemma expect_append (c : ascii) (s r t : string) :
Str.expect c s = Some r -> Str.expect c (s +:+ t) = Some (r +:+ t).
Proof.
destruct s as [|c' s]; cbn [Str.expect]; [discriminate|].
rewrite append_cons. cbn [Str.expect].
destruct (Ascii.eqb c c'); [|discriminate]. intros Hs. injection Hs as <-. reflexivity.
Qed.

Lemma take_while_n_length (p : ascii -> bool) :
forall (k : nat) (s r : string),
  Str.take_while_n p k s = Some r -> String.length s = (k + String.length r)%nat.
Proof.
induction k as [|k IH]; intros s r Hs; cbn in *.
- injection Hs as <-. reflexivity.
- destruct s as [|c s]; [discriminate|].
  destruct (p c); [|discriminate]. cbn. f_equal. apply IH. exact Hs.
Qed.

Lemma expect_length (c : ascii) (s r : string) :
Str.expect c s = Some r -> String.length s = S (String.length r).
Proof.
destruct s as [|c' s]; cbn [Str.expect]; [discriminate|].
destruct (Ascii.eqb c c'); [|discriminate]. intros Hs. injection Hs as <-. reflexivity.
Qed.

Lemma matches_ymd_length (s : string) :
Infer.matches_ymd s = true -> (10 <= String.length s)%nat.
Proof.
unfold Infer.matches_ymd. rewrite bool_decide_eq_true. intros [r Hr].
destruct (Str.take_while_n Str.is_digit 4 s) as [r1|] eqn:H1;
  cbn [mbind option_bind] in Hr; [|discriminate].
destruct (Str.expect "-" r1) as [r2|] eqn:H2; cbn [mbind option_bind] in Hr; [|discriminate].
destruct (Str.take_while_n Str.is_digit 2 r2) as [r3|] eqn:H3;
  cbn [mbind option_bind] in Hr; [|discriminate].
destruct (Str.expect "-" r3) as [r4|] eqn:H4; cbn [mbind option_bind] in Hr; [|discriminate].
apply take_while_n_length in H1, H3, Hr. apply expect_length in H2, H4. lia.
Qed.

Lemma matches_mdy_length (s : string) :
Infer.matches_mdy s = true -> (10 <= String.length s)%nat.
Proof.
unfold Infer.matches_mdy. rewrite bool_decide_eq_true. intros [r Hr].
destruct (Str.take_while_n Str.is_digit 2 s) as [r1|] eqn:H1;
  cbn [mbind option_bind] in Hr; [|discriminate].
destruct (Str.expect "/" r1) as [r2|] eqn:H2; cbn [mbind option_bind] in Hr; [|discriminate].
destruct (Str.take_while_n Str.is_digit 2 r2) as [r3|] eqn:H3;
  cbn [mbind option_bind] in Hr; [|discriminate].
destruct (Str.expect "/" r3) as [r4|] eqn:H4; cbn [mbind option_bind] in Hr; [|discriminate].
apply take_while_n_length in H1, H3, Hr. apply expect_length in H2, H4. lia.
Qed.

Lemma matches_ymd_append (s t : string) :
Infer.matches_ymd s = true -> Infer.matches_ymd (s +:+ t) = true.
Proof.
unfold Infer.matches_ymd. rewrite !bool_decide_eq_true. intros [r Hr].
destruct (Str.take_while_n Str.is_digit 4 s) as [r1|] eqn:H1; cbn [mbind option_bind] in Hr; [|discriminate].
destruct (Str.expect "-" r1) as [r2|] eqn:H2; cbn [mbind option_bind] in Hr; [|discriminate].
destruct (Str.take_while_n Str.is_digit 2 r2) as [r3|] eqn:H3; cbn [mbind option_bind] in Hr; [|discriminate].
destruct (Str.expect "-" r3) as [r4|] eqn:H4; cbn [mbind option_bind] in Hr; [|discriminate].
rewrite (take_while_n_append _ t _ _ _ H1). cbn [mbind option_bind].
rewrite (expect_append _ _ _ t H2). cbn [mbind option_bind].
rewrite (take_while_n_append _ t _ _ _ H3). cbn [mbind option_bind].
rewrite (expect_append _ _ _ t H4). cbn [mbind option_bind].
rewrite (take_while_n_append _ t _ _ _ Hr). eauto.
Qed.

Lemma matches_mdy_append (s t : string) :
Infer.matches_mdy s = true -> Infer.matches_mdy (s +:+ t) = true.
Proof.
unfold Infer.matches_mdy. rewrite !bool_decide_eq_true. intros [r Hr].
destruct (Str.take_while_n Str.is_digit 2 s) as [r1|] eqn:H1; cbn [mbind option_bind] in Hr; [|discriminate].
destruct (Str.expect "/" r1) as [r2|] eqn:H2; cbn [mbind option_bind] in Hr; [|discriminate].
destruct (Str.take_while_n Str.is_digit 2 r2) as [r3|] eqn:H3; cbn [mbind option_bind] in Hr; [|discriminate].
destruct (Str.expect "/" r3) as [r4|] eqn:H4; cbn [mbind option_bind] in Hr; [|discriminate].
rewrite (take_while_n_append _ t _ _ _ H1). cbn [mbind option_bind].
rewrite (expect_append _ _ _ t H2). cbn [mbind option_bind].
rewrite (take_while_n_append _ t _ _ _ H3). cbn [mbind option_bind].
rewrite (expect_append _ _ _ t H4). cbn [mbind option_bind].
rewrite (take_while_n_append _ t _ _ _ Hr). eauto.
Qed.

(** X26.  [looksLikeDate] only reads the start of a text: a text that
    looks like a date still does with anything appended, so
    [inferFieldType] types every such text as a date; and a text shorter
    than ten characters never looks like a date. *)
Theorem looksLikeDate_prefix (s : string) :
(Infer.looksLikeDate (VStr s) = true ->
 forall t, Infer.looksLikeDate (VStr (s +:+ t)) = true
           /\ Infer.inferFieldType (VStr (s +:+ t)) = FDate)
/\ ((String.length s < 10)%nat -> Infer.looksLikeDate (VStr s) = false).
Proof.
split.
- intros Hs t.
  assert (Infer.looksLikeDate (VStr (s +:+ t)) = true) as Hst.
  { cbn in *. apply orb_true_iff in Hs as [Hs|Hs]; apply orb_true_iff;
      [left; apply matches_ymd_append | right; apply matches_mdy_append]; exact Hs. }
  split; [exact Hst|]. cbn [Infer.inferFieldType]. rewrite Hst. reflexivity.
- intros Hlen. destruct (Infer.looksLikeDate (VStr s)) eqn:Hs; [|reflexivity].
  cbn in Hs. apply orb_true_iff in Hs as [Hs|Hs];
    [apply matches_ymd_length in Hs | apply matches_mdy_length in Hs]; lia.
Qed.

(** ** The further properties on sample inputs *)

Lemma orders_headers_distinct : NoDup (map Str.trim (csv_headers Answering.orders_csv)).
Proof.
change (NoDup ["name"; "qty"]). apply NoDup_cons_2; [|apply NoDup_singleton].
intros Hin. apply list_elem_of_In in Hin. destruct Hin as [Heq|[]]. discriminate.
Qed.

Lemma orders_headers_assignable :
Forall assignable (map Str.trim (csv_headers Answering.orders_csv)).
Proof. change (Forall assignable ["name"; "qty"]). repeat constructor; discriminate. Qed.

(** The sample text has two rows; the short one has both fields. *)
Lemma parseCSV_rows_witness :
length (parseCSV Answering.orders_csv) = 2%nat
/\ (In "qty" (Obj.keys [("name", VStr "nut"); ("qty", VUndefined)])
    <-> In "qty" ["name"; "qty"]).
Proof.
destruct (parseCSV_rows Answering.orders_csv) as (Hlen & Hfields & _).
split; [exact Hlen|].
destruct (Hfields [("name", VStr "nut"); ("qty", VUndefined)]) as (_ & Hkeys).
- right. left. reflexivity.
- exact (Hkeys orders_headers_assignable "qty").
Defined.

(** The short row of the sample text has no quantity. *)
Lemma parseCSV_cells_witness :
Obj.lookup "qty" (parseCSV_row (csv_headers Answering.orders_csv) 0 (Str.split Str.comma "nut") [])
= Some VUndefined.
Proof.
destruct (parseCSV_cells Answering.orders_csv "nut" 1 " qty" orders_headers_distinct
            orders_headers_assignable eq_refl)
  as (_ & Hshort & _).
apply Hshort. vm_compute. lia.
Defined.

Lemma order_fields_own : Forall own_only (Obj.keys [("name", VStr "bolt"); ("qty", num_Z 4)]).
Proof.
repeat constructor; unfold own_only, inherited_names; intros Hin;
  repeat (destruct Hin as [Hin|Hin]; [discriminate|]); exact Hin.
Qed.

(** Two records, the second without a quantity. *)
Lemma toCSV_plain_objects_witness :
toCSV (host := Reference.platform)
      (VArr [VObj [("name", VStr "bolt"); ("qty", num_Z 4)]; VObj [("name", VStr "nut")]])
= Ok ("name,qty" +:+ String Str.newline
        (String Str.quote ("bolt" +:+ String Str.quote (",4" +:+ String Str.newline
           (String Str.quote ("nut" +:+ String Str.quote ("," +:+
              String Str.quote (String Str.quote EmptyString)))))))).
Proof.
destruct (toCSV_plain_objects (host := Reference.platform)
            [("name", VStr "bolt"); ("qty", num_Z 4)] [[("name", VStr "nut")]]
            order_fields_own) as (Hrun & _).
exact Hrun.
Defined.


(** [null] under a renaming. *)
Lemma applySchemaMapping_non_records_witness :
exists t, applySchemaMapping (host := Reference.platform) Sample.rename_config VNull = Throw t
          /\ is_TypeError t.
Proof.
destruct (applySchemaMapping_non_records (host := Reference.platform) Sample.rename_config
            Sample.rename_mapping [("a", "x"); ("b", "y")] eq_refl eq_refl) as (Hnull & _).
apply Hnull. discriminate.
Defined.

(** A sample with a hole in second place. *)
Lemma inferSchema_hole_witness :
exists t,
  Infer.inferSchema (mkSchemaInferenceOptions (VArr [VObj [("id", num_Z 1)]; VNull]) None None)
  = Throw t /\ is_TypeError t.
Proof.
apply (inferSchema_hole [("id", num_Z 1)] [VNull] 1 VNull None None).
- discriminate.
- lia.
- reflexivity.
- reflexivity.
Defined.

Lemma answering_metrics (a : Adapter) :
this_metrics a = 1%positive ->
heap Sample.world !! this_metrics a = Some (mkAdapterMetrics 7 5 2 40 0).
Proof. intros ->. apply lookup_singleton_eq. Qed.

(** A [POST] that is answered at once. *)
Lemma execute_answered_witness :
exists w',
  execute (host := Reference.platform) (Answering.env Answering.json_body) Sample.adapter
          Answering.post_request Sample.world
  = (Ok (success_response Sample.adapter (raw_of Answering.json_body)
           (Untransformed (VObj [("id", num_Z 7)])) 25 "2023-11-14T22:13:20.050Z"), w')
  /\ requests w' = 1%nat.
Proof.
destruct (execute_answered (host := Reference.platform) (Answering.env Answering.json_body)
            Sample.adapter Answering.post_request Sample.world (mkAdapterMetrics 7 5 2 40 0)
            3 Answering.json_body eq_refl eq_refl sample_metrics) as [Hpost _].
destruct (Hpost ltac:(discriminate)) as (w' & Hrun & Hreq & _).
exists w'. split; [exact Hrun | exact Hreq].
Defined.

(** A [GET] answered with a text the XML codec rejects. *)
Lemma execute_undecodable_witness :
exists w',
  execute (host := Reference.platform) (Answering.env Answering.text_body)
          Answering.xml_adapter Sample.get_request Sample.world
  = (Ok (failure_response Answering.xml_adapter "Non-whitespace before first tag." 25
           "2023-11-14T22:13:20.050Z"), w')
  /\ requests w' = 1%nat
  /\ heap w' !! this_metrics Answering.xml_adapter = Some (mkAdapterMetrics 8 5 3 40 0).
Proof.
apply (execute_undecodable (host := Reference.platform) (Answering.env Answering.text_body)
         Answering.xml_adapter Sample.get_request Sample.world (mkAdapterMetrics 7 5 2 40 0)
         3 Answering.text_body (mkError "Error" "Non-whitespace before first tag.")
         eq_refl eq_refl (answering_metrics Answering.xml_adapter eq_refl) eq_refl eq_refl).
Defined.

(** A policy with [maxRetries] -1. *)
Lemma execute_negative_maxRetries_witness :
exists w',
  execute (host := Reference.platform) Sample.unreachable Answering.impatient_adapter
          Sample.get_request Sample.world
  = (Throw (TypeError "Cannot read properties of null (reading 'message')"), w')
  /\ requests w' = 0%nat.
Proof.
destruct (execute_negative_maxRetries (host := Reference.platform) Sample.unreachable
            Answering.impatient_adapter Sample.get_request Sample.world
            (mkAdapterMetrics 7 5 2 40 0) eq_refl
            (answering_metrics Answering.impatient_adapter eq_refl))
  as (_ & w' & Hrun & Hreq & _).
exists w'. split; [exact Hrun | exact Hreq].
Defined.

(** The default policy: between one and four requests. *)
Lemma execute_request_bounds_witness :
(1 <= requests (execute (host := Reference.platform) Sample.unreachable Sample.adapter
                  Sample.get_request Sample.world).2 <= 4)%nat.
Proof.
apply (execute_request_bounds (host := Reference.platform) Sample.unreachable Sample.adapter
         Sample.get_request Sample.world (mkAdapterMetrics 7 5 2 40 0) 3 eq_refl sample_metrics).
Defined.

Lemma totalBytesProcessed_never_written_witness :
exists m',
  heap (execute_all (host := Reference.platform) (Answering.env Answering.json_body)
          Sample.adapter [Sample.get_request; Answering.post_request] Sample.world)
    !! this_metrics Sample.adapter = Some m'
  /\ totalBytesProcessed m' = 0.
Proof.
apply (totalBytesProcessed_never_written (host := Reference.platform)
         (Answering.env Answering.json_body) Sample.adapter
         [Sample.get_request; Answering.post_request] Sample.world
         (mkAdapterMetrics 7 5 2 40 0) sample_metrics).
Defined.

Lemma counters_follow_answers_witness :
exists m',
  heap (execute_all (host := Reference.platform) (Answering.env Answering.json_body)
          Sample.adapter [Answering.post_request; Answering.post_request] Sample.world)
    !! this_metrics Sample.adapter = Some m'
  /\ requestsSuccess m' = 7
  /\ requestsFailed m' = 2.
Proof.
destruct (counters_follow_answers (host := Reference.platform)
            (Answering.env Answering.json_body)
            Sample.adapter [Answering.post_request; Answering.post_request] Sample.world
            (mkAdapterMetrics 7 5 2 40 0) sample_metrics)
  as (m' & Hm' & Hok & Hfail & _).
exists m'. split; [exact Hm'|]. split; [exact Hok | exact Hfail].
Defined.


Lemma healthCheck_without_endpoint_witness :
requests (healthCheck (host := Reference.platform) Sample.unreachable
            Answering.offline_adapter Sample.world).2 = 0%nat
/\ healthy <$> (healthCheck (host := Reference.platform) Sample.unreachable
                  Answering.offline_adapter Sample.world).1 = Ok true.
Proof.
rewrite (healthCheck_without_endpoint (host := Reference.platform) Sample.unreachable
           Answering.offline_adapter Sample.world eq_refl).
split; reflexivity.
Defined.

Lemma healthCheck_single_probe_witness :
exists w',
  healthCheck (host := Reference.platform) Sample.unreachable Sample.adapter Sample.world
  = (Ok (mkAdapterHealthCheck false (Some 25) "2023-11-14T22:13:20.050Z"
           (Some ["connect ECONNREFUSED (request 0)"])), w')
  /\ requests w' = 1%nat.
Proof.
destruct (healthCheck_single_probe (host := Reference.platform) Sample.unreachable
            Sample.adapter Sample.world "http://legacy.example/orders" eq_refl)
  as (w' & Hrun & Hreq & _).
exists w'. split; [exact Hrun | exact Hreq].
Defined.

Lemma analyzeEndpoint_rejected_witness :
exists w',
  analyzeEndpoint Sample.unreachable "http://legacy.example/orders" Sample.world
  = (Throw (ThrownError (Sample.refusal 0)), w')
  /\ requests w' = 1%nat.
Proof.
destruct (analyzeEndpoint_rejected Sample.unreachable "http://legacy.example/orders"
            Sample.world (Sample.refusal 0) eq_refl) as (w' & Hrun & Hreq & _).
exists w'. split; [exact Hrun | exact Hreq].
Defined.

Lemma analyzeEndpoint_answered_witness :
exists w',
  analyzeEndpoint (Answering.env Answering.text_body) "http://legacy.example/orders"
                  Sample.world
  = (Ok (mkAnalyzedConfig SrcXml TgtJson (mkSchemaMapping (Some []) None None)), w').
Proof.
destruct (analyzeEndpoint_answered (Answering.env Answering.text_body)
            "http://legacy.example/orders" Sample.world Answering.text_body eq_refl)
  as (Hok & _).
destruct (Hok _ eq_refl) as (w' & Hrun & _).
exists w'. exact Hrun.
Defined.

Lemma transform_header_only_witness :
tr_data <$> (transform (host := Reference.platform) Sample.unreachable Answering.csv_adapter
               (VStr "name, qty") None Sample.world).1 = Ok (VStr EmptyString).
Proof.
rewrite (transform_header_only (host := Reference.platform) Sample.unreachable
           Answering.csv_adapter "name, qty" None Sample.world eq_refl eq_refl eq_refl);
  [reflexivity|].
vm_compute. lia.
Defined.

Lemma transform_untouched_witness :
transform_payload (host := Reference.platform) Sample.unreachable Sample.config
                  (VObj [("id", num_Z 7)]) "protobuf"
= Ok (VObj [("id", num_Z 7)], 0, 0).
Proof.
apply (transform_untouched (host := Reference.platform) Sample.unreachable Sample.config
         (VObj [("id", num_Z 7)]) "protobuf" eq_refl eq_refl eq_refl).
intros [Hsrc|[Hsrc|Hsrc]]; discriminate.
Defined.

Lemma getMetrics_snapshot_witness :
exists l w1,
  getMetrics Sample.adapter Sample.world = (Ok l, w1)
  /\ heap (execute_all (host := Reference.platform) Sample.unreachable Sample.adapter
             [Sample.get_request; Sample.get_request] w1) !! l
     = Some (mkAdapterMetrics 7 5 2 40 0)
  /\ exists m',
      heap (execute_all (host := Reference.platform) Sample.unreachable Sample.adapter
              [Sample.get_request; Sample.get_request] w1) !! this_metrics Sample.adapter
      = Some m'
      /\ requestsTotal m' = 9.
Proof.
apply (getMetrics_snapshot (host := Reference.platform) Sample.unreachable Sample.adapter
         [Sample.get_request; Sample.get_request] Sample.world
         (mkAdapterMetrics 7 5 2 40 0) sample_metrics).
Defined.
